(** * ByteRacer relay tower: the controller's WebSocket bridge

    A shallow embedding of the two TypeScript sources of the controller:

    - the status widget [WebSocketStatus] (its own socket, a heartbeat
      interval, the gamepad normaliser [getActionValue] / [computeSpeed] and
      the bridge interval that sends [gamepad_input]);
    - the provider [WebSocketProvider] of [WebSocketContext.tsx] (connection
      effect, socket handlers, inbound dispatcher and the command functions).

    Data are modelled as the code has them.  JavaScript numbers, on the
    wire, in the gamepad readings and in the arithmetic, are IEEE binary64
    and are Rocq's primitive floats.  The readings of [Date.now()] are whole
    milliseconds and live in [Z]; where one becomes a number it is the
    binary64 nearest to it.  React state is a record, one field per
    [useState] / [useRef]; the browser's objects (sockets, intervals, the
    error sink, [window] events) are fields of the same record, and every
    handler is a function from state to state. *)

From Stdlib Require Import ZArith Floats Lia.
From stdpp Require Import base option list gmap strings pretty.

Set Warnings "-register-all,-inexact-float".

Local Open Scope Z_scope.
Local Open Scope string_scope.

(* ===================================================================== *)
(** * JavaScript values on the wire                                       *)
(* ===================================================================== *)

Module Js.

(** A JavaScript number: IEEE binary64. *)
Definition number : Set := float.

Definition NaN : number := nan.

(** What [JSON.parse] can return, and [undefined], which a property read
    adds. *)
Inductive value :=
| Undefined
| Null
| Bool (b : bool)
| Num (x : float)
| Str (s : string)
| Arr (items : list value)
| Obj (fields : list (string * value)).

(** The number an integer denotes: the binary64 nearest to it (exactly it
    below 2^53, which is where every reading of [Date.now()] lies). *)
Definition of_Z (z : Z) : number :=
  SF2Prim (binary_normalize prec emax z 0 false).

(** What a [try] block can catch here. *)
Inductive exn :=
| SyntaxError
| TypeError (reading : string)
| InvalidStateError.

Fixpoint lookup_field (key : string) (fields : list (string * value))
    : value :=
  match fields with
  | [] => Undefined
  | (k, v) :: rest => if String.eqb k key then v else lookup_field key rest
  end.

(** [v.key] for the keys this code reads ([name], [data], [sentAt],
    [level], [settings]): none of them is a built-in property of a string,
    a number, a boolean or an array, so only an object can hold one; on
    [undefined] and [null] the read throws. *)
Definition get (v : value) (key : string) : exn + value :=
  match v with
  | Undefined | Null => inl (TypeError key)
  | Obj fields => inr (lookup_field key fields)
  | Bool _ | Num _ | Str _ | Arr _ => inr Undefined
  end.

(** [ToBoolean], as [if (event.data.settings)] applies it. *)
Definition truthy (v : value) : bool :=
  match v with
  | Undefined | Null => false
  | Bool b => b
  | Num x => negb (x =? 0)%float && negb (is_nan x)
  | Str s => negb (String.eqb s "")
  | Arr _ | Obj _ => true
  end.

(** [v === "literal"]. *)
Definition is_string (v : value) (literal : string) : bool :=
  match v with
  | Str s => String.eqb s literal
  | _ => false
  end.

(** Binary [-] on numbers: the binary64 subtraction. *)
Definition sub (a b : number) : number := (a - b)%float.

(** [Math.round(x)]: the integer nearest [x], a tie going up, and [-0] for
    an [x] in [[-0.5, 0)].  A float with a non-negative exponent is an
    integer already; otherwise the floor of [x + 1/2] is taken exactly, on
    the mantissa. *)
Definition Math_round (x : number) : number :=
  match Prim2SF x with
  | S754_finite s m e =>
      if (0 <=? e)%Z then x
      else
        let n := (cond_Zopp s (Z.pos m) * 2 + 2 ^ (- e)) / 2 ^ (1 - e) in
        if (n =? 0)%Z && s then (- 0)%float else of_Z n
  | _ => x
  end.

(** The part of the JavaScript runtime the code calls and this development
    does not define: [JSON.parse] ([None] when it throws), [ToNumber] on
    strings, arrays and objects, [String.prototype.trim],
    [window.location.hostname], and the URLs the [WebSocket] constructor
    accepts (it throws [SyntaxError] on the others).  The page is served
    from a host, so the endpoint built from its [hostname] is one the
    constructor accepts. *)
Class Runtime := {
  JSON_parse : string -> option value;
  ToNumber_object : value -> number;
  trim : string -> string;
  hostname : string;
  accepts : string -> bool;
  accepts_hostname : accepts ("ws://" ++ hostname ++ ":3001/ws") = true;
}.

(** [ToNumber], as the operand of [-]. *)
Definition ToNumber `{Runtime} (v : value) : number :=
  match v with
  | Undefined => NaN
  | Null => 0%float
  | Bool b => if b then 1%float else 0%float
  | Num x => x
  | Str _ | Arr _ | Obj _ => ToNumber_object v
  end.

(** Sequencing of reads that may throw. *)
Definition bind {A B : Type} (x : exn + A) (k : A -> exn + B) : exn + B :=
  match x with
  | inl e => inl e
  | inr a => k a
  end.

End Js.

Notation "'let*' x ':=' e 'in' k" := (Js.bind e (fun x => k))
  (at level 10, x name, e at level 100, k at level 200).

(* ===================================================================== *)
(** * The browser's WebSocket object                                      *)
(* ===================================================================== *)

Module WebSocketApi.

Inductive ReadyState := CONNECTING | OPEN | CLOSING | CLOSED.

Definition ReadyState_eqb (a b : ReadyState) : bool :=
  match a, b with
  | CONNECTING, CONNECTING | OPEN, OPEN | CLOSING, CLOSING | CLOSED, CLOSED =>
      true
  | _, _ => false
  end.

(** The numeric value of [readyState], as [logError] receives it. *)
Definition ReadyState_code (r : ReadyState) : Z :=
  match r with
  | CONNECTING => 0
  | OPEN => 1
  | CLOSING => 2
  | CLOSED => 3
  end.

Section Socket.

(** The frames a component hands to [send], kept structured: the text
    [JSON.stringify] makes of them is not modelled. *)
Context {Frame : Type}.

(** A socket object: [transmitted] are the frames put on the wire, in
    order; [discarded] the frames handed to [send] after the socket began
    closing, which the browser drops without an error. *)
Record WebSocket := {
  url : string;
  readyState : ReadyState;
  transmitted : list Frame;
  discarded : list Frame;
}.

(** [new WebSocket(url)]. *)
Definition new_WebSocket (u : string) : WebSocket :=
  {| url := u; readyState := CONNECTING; transmitted := []; discarded := [] |}.

Definition set_readyState (r : ReadyState) (ws : WebSocket) : WebSocket :=
  {| url := url ws; readyState := r;
     transmitted := transmitted ws; discarded := discarded ws |}.

(** [ws.send(frame)]: throws [InvalidStateError] while connecting, puts the
    frame on the wire when open, and drops it afterwards. *)
Definition send (frame : Frame) (ws : WebSocket) : Js.exn + WebSocket :=
  match readyState ws with
  | CONNECTING => inl Js.InvalidStateError
  | OPEN =>
      inr {| url := url ws; readyState := OPEN;
             transmitted := transmitted ws ++ [frame];
             discarded := discarded ws |}
  | CLOSING | CLOSED =>
      inr {| url := url ws; readyState := readyState ws;
             transmitted := transmitted ws;
             discarded := discarded ws ++ [frame] |}
  end.

(** [ws.close()]: starts the closing handshake of a socket that is
    connecting or open; nothing otherwise. *)
Definition close (ws : WebSocket) : WebSocket :=
  match readyState ws with
  | CONNECTING | OPEN => set_readyState CLOSING ws
  | CLOSING | CLOSED => ws
  end.

(** A socket counts as live while it is connecting or open. *)
Definition live (ws : WebSocket) : bool :=
  match readyState ws with
  | CONNECTING | OPEN => true
  | CLOSING | CLOSED => false
  end.

End Socket.

Arguments WebSocket : clear implicits.

End WebSocketApi.

(* ===================================================================== *)
(** * The gamepad normaliser of the status widget                         *)
(* ===================================================================== *)

Module Gamepad.

(** One entry of the gamepad context's [mappings] object. *)
Record Mapping := { type : string; index : Z }.

(** What [getActionValue] returns: [false | 0 | boolean | number]. *)
Inductive ActionValue :=
| VBool (b : bool)
| VNum (x : float).

(** [a ?? d]: [d] exactly when [a] is [undefined] (or [null]). *)
Definition nullish (a : option float) (d : float) : float :=
  match a with
  | Some x => x
  | None => d
  end.

(** The literal [-1] of [mapping.index === -1]. *)
Definition NOT_SET : Z := -1.

Section Normaliser.

(** The gamepad context, as [useGamepadContext()] hands it to the widget:
    [mappings[key]] is [undefined] for an absent key, and
    [getAxisValueForAction] may return [undefined]. *)
Context (mappings : gmap string Mapping).
Context (isActionActive : string -> bool).
Context (getAxisValueForAction : string -> option float).

(** [actionKey === "accelerate" || actionKey === "brake" ? false : 0] *)
Definition neutral (actionKey : string) : ActionValue :=
  if String.eqb actionKey "accelerate" || String.eqb actionKey "brake"
  then VBool false
  else VNum 0%float.

Definition getActionValue (actionKey : string) : ActionValue :=
  match mappings !! actionKey with
  | None => neutral actionKey
  | Some mapping =>
      if (index mapping =? NOT_SET)%Z then neutral actionKey
      else if String.eqb (type mapping) "button" then
        VBool (isActionActive actionKey)
      else if String.eqb (type mapping) "axis" then
        VNum (nullish (getAxisValueForAction actionKey) 0%float)
      else neutral actionKey
  end.

Definition accelerateValue : float :=
  match mappings !! "accelerate" with
  | None => 0%float
  | Some accelerateMapping =>
      if (index accelerateMapping =? NOT_SET)%Z then 0%float
      else if String.eqb (type accelerateMapping) "button" then
        (if isActionActive "accelerate" then 1%float else 0%float)
      else if String.eqb (type accelerateMapping) "axis" then
        nullish (getAxisValueForAction "accelerate") 0%float
      else 0%float
  end.

Definition brakeValue : float :=
  match mappings !! "brake" with
  | None => 0%float
  | Some brakeMapping =>
      if (index brakeMapping =? NOT_SET)%Z then 0%float
      else if String.eqb (type brakeMapping) "button" then
        (if isActionActive "brake" then 1%float else 0%float)
      else if String.eqb (type brakeMapping) "axis" then
        nullish (getAxisValueForAction "brake") 0%float
      else 0%float
  end.

Definition computeSpeed : float := (accelerateValue - brakeValue)%float.

(** The [data] of a [gamepad_input] envelope, as the bridge interval
    builds it. *)
Record GamepadState := {
  speed : float;
  turn : float;
  turnCameraX : float;
  turnCameraY : float;
  use : bool;
}.

Definition gamepadState : GamepadState :=
  {| speed := computeSpeed;
     turn := nullish (getAxisValueForAction "turn") 0%float;
     turnCameraX := nullish (getAxisValueForAction "turnCameraX") 0%float;
     turnCameraY := nullish (getAxisValueForAction "turnCameraY") 0%float;
     use := isActionActive "use" |}.

End Normaliser.

(** The three shapes a binding of [key] can have. *)
Definition unbound (mappings : gmap string Mapping) (key : string) : bool :=
  match mappings !! key with
  | None => true
  | Some m => (index m =? NOT_SET)%Z
  end.

Definition bound_as (kind : string) (mappings : gmap string Mapping)
    (key : string) : bool :=
  match mappings !! key with
  | None => false
  | Some m => negb (index m =? NOT_SET)%Z && String.eqb (type m) kind
  end.

End Gamepad.

(* ===================================================================== *)
(** * The status widget [WebSocketStatus]                                 *)
(* ===================================================================== *)

Module StatusWidget.

Import WebSocketApi.

Inductive Status := connecting | connected | disconnected.

(** The two envelopes the widget sends. *)
Inductive Frame :=
| ping (sentAt createdAt : Z)
| gamepad_input (data : Gamepad.GamepadState) (createdAt : Z).

(** What [useGamepadContext()] returns, as far as the widget reads it. *)
Record GamepadContext := {
  isActionActive : string -> bool;
  getAxisValueForAction : string -> option float;
  selectedGamepadId : option string;
  mappings : gmap string Gamepad.Mapping;
}.

(** The component's state ([useState], [useRef]), the one socket object
    [ws] its connection effect creates, its two intervals and the console.
    [socket] is the state variable: [false] for [null], [true] once
    [setSocket(ws)] has run. *)
Record State := {
  status : Status;
  pingTime : option Js.number;
  socket : bool;
  pingTimestampRef : Z;
  gamepad : GamepadContext;
  ws : option (WebSocket Frame);
  pingLoop : bool;
  interval : bool;
  console : list string;
  uncaught : list Js.exn;
}.

Definition initial (g : GamepadContext) : State :=
  {| status := disconnected; pingTime := None; socket := false;
     pingTimestampRef := 0; gamepad := g; ws := None;
     pingLoop := false; interval := false; console := []; uncaught := [] |}.

Definition setStatus (s : Status) (st : State) : State :=
  {| status := s; pingTime := pingTime st; socket := socket st;
     pingTimestampRef := pingTimestampRef st; gamepad := gamepad st;
     ws := ws st; pingLoop := pingLoop st; interval := interval st;
     console := console st; uncaught := uncaught st |}.

Definition setPingTime (latency : Js.number) (st : State) : State :=
  {| status := status st; pingTime := Some latency; socket := socket st;
     pingTimestampRef := pingTimestampRef st; gamepad := gamepad st;
     ws := ws st; pingLoop := pingLoop st; interval := interval st;
     console := console st; uncaught := uncaught st |}.

Definition setSocket (b : bool) (st : State) : State :=
  {| status := status st; pingTime := pingTime st; socket := b;
     pingTimestampRef := pingTimestampRef st; gamepad := gamepad st;
     ws := ws st; pingLoop := pingLoop st; interval := interval st;
     console := console st; uncaught := uncaught st |}.

Definition set_pingTimestampRef (t : Z) (st : State) : State :=
  {| status := status st; pingTime := pingTime st; socket := socket st;
     pingTimestampRef := t; gamepad := gamepad st;
     ws := ws st; pingLoop := pingLoop st; interval := interval st;
     console := console st; uncaught := uncaught st |}.

Definition set_gamepad (g : GamepadContext) (st : State) : State :=
  {| status := status st; pingTime := pingTime st; socket := socket st;
     pingTimestampRef := pingTimestampRef st; gamepad := g;
     ws := ws st; pingLoop := pingLoop st; interval := interval st;
     console := console st; uncaught := uncaught st |}.

Definition set_ws (w : option (WebSocket Frame)) (st : State) : State :=
  {| status := status st; pingTime := pingTime st; socket := socket st;
     pingTimestampRef := pingTimestampRef st; gamepad := gamepad st;
     ws := w; pingLoop := pingLoop st; interval := interval st;
     console := console st; uncaught := uncaught st |}.

Definition set_pingLoop (b : bool) (st : State) : State :=
  {| status := status st; pingTime := pingTime st; socket := socket st;
     pingTimestampRef := pingTimestampRef st; gamepad := gamepad st;
     ws := ws st; pingLoop := b; interval := interval st;
     console := console st; uncaught := uncaught st |}.

Definition set_interval (b : bool) (st : State) : State :=
  {| status := status st; pingTime := pingTime st; socket := socket st;
     pingTimestampRef := pingTimestampRef st; gamepad := gamepad st;
     ws := ws st; pingLoop := pingLoop st; interval := b;
     console := console st; uncaught := uncaught st |}.

Definition console_write (line : string) (st : State) : State :=
  {| status := status st; pingTime := pingTime st; socket := socket st;
     pingTimestampRef := pingTimestampRef st; gamepad := gamepad st;
     ws := ws st; pingLoop := pingLoop st; interval := interval st;
     console := console st ++ [line]; uncaught := uncaught st |}.

Definition throw_uncaught (e : Js.exn) (st : State) : State :=
  {| status := status st; pingTime := pingTime st; socket := socket st;
     pingTimestampRef := pingTimestampRef st; gamepad := gamepad st;
     ws := ws st; pingLoop := pingLoop st; interval := interval st;
     console := console st; uncaught := uncaught st ++ [e] |}.

(** [ws.send(frame)] from a timer callback: what [send] throws leaves the
    callback and nothing catches it. *)
Definition ws_send (frame : Frame) (st : State) : State :=
  match ws st with
  | None => st
  | Some w =>
      match send frame w with
      | inl e => throw_uncaught e st
      | inr w' => set_ws (Some w') st
      end
  end.

Section Handlers.

Context `{Js.Runtime}.

(** [ws.onopen] *)
Definition onopen (st : State) : State :=
  setStatus connected (console_write "Connected to gamepad server" st).

(** [ws.onclose] *)
Definition onclose (st : State) : State :=
  setStatus disconnected
    (console_write "Disconnected from gamepad server" st).

(** [ws.onerror] *)
Definition onerror (st : State) : State :=
  setStatus disconnected (console_write "WebSocket error:" st).

(** The body of the [try] of [ws.onmessage], on the parsed [event]. *)
Definition handle_event (now : Z) (event : Js.value) (st : State)
    : Js.exn + State :=
  let* tag := Js.get event "name" in
  if Js.is_string tag "pong" then
    let* payload := Js.get event "data" in
    let* sentAt := Js.get payload "sentAt" in
    let latency := Js.sub (Js.of_Z now) (Js.ToNumber sentAt) in
    inr (setPingTime latency st)
  else inr st.

(** [ws.onmessage], with [now] the value [Date.now()] returns in it. *)
Definition onmessage (frame : string) (now : Z) (st : State) : State :=
  match Js.JSON_parse frame with
  | None => console_write "Error parsing websocket message:" st
  | Some event =>
      match handle_event now event st with
      | inl _ => console_write "Error parsing websocket message:" st
      | inr st' => st'
      end
  end.

(** The callback of [pingLoop]; the two arguments are the two readings of
    [Date.now()]. *)
Definition pingLoop_tick (sentAt createdAt : Z) (st : State) : State :=
  ws_send (ping sentAt createdAt) st.

(** The callback of the bridge interval. *)
Definition interval_tick (now : Z) (st : State) : State :=
  let st1 := set_pingTimestampRef now st in
  let g := gamepad st1 in
  let gamepadState :=
    Gamepad.gamepadState (mappings g) (isActionActive g)
      (getAxisValueForAction g) in
  ws_send (gamepad_input gamepadState (pingTimestampRef st1)) st1.

(** The connection effect (dependencies [[]]): it runs once, at mount. *)
Definition connection_effect (st : State) : State :=
  let st1 := set_ws (Some (new_WebSocket "ws://localhost:3000/ws")) st in
  set_pingLoop true (setSocket true st1).

(** Its cleanup. *)
Definition connection_cleanup (st : State) : State :=
  set_pingLoop false (set_ws (close <$> ws st) st).

(** [!selectedGamepadId] *)
Definition no_gamepad (id : option string) : bool :=
  match id with
  | None => true
  | Some s => String.eqb s ""
  end.

(** The bridge effect, as a render with state [socket], [status] and the
    current gamepad context runs it: its previous interval is cleared by
    the cleanup, and a new one is set only when connected with a gamepad
    selected. *)
Definition bridge_effect (rendered_socket : bool) (st : State) : State :=
  let st1 :=
    console_write "Use effect qui prend son air consangin, euhhhh, hautin"
      (set_interval false st) in
  if negb rendered_socket
     || negb (match status st1 with connected => true | _ => false end)
     || no_gamepad (selectedGamepadId (gamepad st1))
  then st1
  else set_interval true st1.

(** What the browser and React can do to the mounted widget. *)
Inductive Event :=
| Mount
| Render
| Open
| Close
| Error
| Message (frame : string) (now : Z)
| PingLoopFires (sentAt createdAt : Z)
| IntervalFires (now : Z)
| GamepadChanges (g : GamepadContext)
| Unmount.

Definition ws_state (st : State) : option ReadyState :=
  readyState <$> ws st.

Definition mark (r : ReadyState) (st : State) : State :=
  set_ws (set_readyState r <$> ws st) st.

(** One event.  The browser fires [open] on a connecting socket only,
    [message] on an open one only, [close] once, and a cleared interval
    never; an event that cannot happen leaves the state as it is.  [Error]
    is a connection that fails: the browser makes the socket closed, fires
    [error] and, in the same task, [close]. *)
Definition step (ev : Event) (st : State) : State :=
  match ev with
  | Mount =>
      match ws st with
      | None => bridge_effect false (connection_effect st)
      | Some _ => st
      end
  | Render => bridge_effect (socket st) st
  | Open =>
      match ws_state st with
      | Some CONNECTING => onopen (mark OPEN st)
      | _ => st
      end
  | Close =>
      match ws_state st with
      | Some CONNECTING | Some OPEN | Some CLOSING => onclose (mark CLOSED st)
      | _ => st
      end
  | Error =>
      match ws_state st with
      | Some CONNECTING | Some OPEN | Some CLOSING =>
          onclose (onerror (mark CLOSED st))
      | _ => st
      end
  | Message frame now =>
      match ws_state st with
      | Some OPEN => onmessage frame now st
      | _ => st
      end
  | PingLoopFires sentAt createdAt =>
      if pingLoop st then pingLoop_tick sentAt createdAt st else st
  | IntervalFires now =>
      if interval st then interval_tick now st else st
  | GamepadChanges g => set_gamepad g st
  | Unmount => set_interval false (connection_cleanup st)
  end.

Definition run (evs : list Event) (st : State) : State :=
  foldl (fun s ev => step ev s) st evs.

End Handlers.

End StatusWidget.

(* ===================================================================== *)
(** * The provider [WebSocketProvider]                                    *)
(* ===================================================================== *)

Module Provider.

Import WebSocketApi.

Inductive WebSocketStatus := connecting | connected | disconnected.

(** The envelope every outbound message is built as, before
    [JSON.stringify]. *)
Record Envelope := { name : string; data : Js.value; createdAt : Z }.

(** A socket object is named by the order of its creation. *)
Abbreviation Handle := nat.

(** A socket with what the handlers installed on it captured: the value the
    state variable [socket] had in the render whose effect created it.
    That is the [socket] the [requestBatteryLevel] called from [onopen]
    tests. *)
Record Endpoint := {
  sock : WebSocket Envelope;
  closure_socket : option Handle;
}.

(** The callback of a [setInterval]: the heartbeat closes over its [ws]. *)
Inductive Callback := Heartbeat (ws : Handle).

Record Interval := { callback : Callback; delay : Z }.

(** A call of [logError(message, details)]. *)
Inductive Detail :=
| DString (s : string)
| DError (e : Js.exn)
| DReadyState (r : option ReadyState).

Record ErrorReport := {
  message : string;
  details : list (string * Detail);
}.

(** A call of [trackWsMessage] or [trackWsConnection]. *)
Inductive Tracked :=
| TrackedSent (e : Envelope)
| TrackedReceived (event : Js.value)
| TrackedConnection (what : string).

(** The connection effect as React holds it: not yet run, run with the
    dependencies [[reconnectTrigger, customWsUrl]] and the [ws] its cleanup
    closes over, or gone for good: cleaned up by the unmount, or unmounted
    by React because the effect threw. *)
Inductive Lifecycle :=
| Fresh
| Committed (trigger : nat) (wsUrl : option string) (ws : Handle)
| Unmounted.

(** The provider's state: the [useState] variables, the two refs, the
    browser objects the code touches, the sinks it writes to, and what an
    effect threw with nothing to catch it. *)
Record State := {
  status : WebSocketStatus;
  socket : option Handle;
  reconnectTrigger : nat;
  pingTime : option Js.number;
  customWsUrl : option string;
  customCameraUrl : option string;
  batteryLevel : Js.value;
  sensorData : Js.value;
  cameraStatus : Js.value;
  settings : Js.value;
  commandResponse : Js.value;
  pingIntervalRef : option nat;
  socketRef : option Handle;
  sockets : list Endpoint;
  intervals : gmap nat Interval;
  nextIntervalId : nat;
  localStorage : gmap string string;
  windowEvents : list (string * Js.value);
  console : list string;
  errorSink : list ErrorReport;
  debugTrack : list Tracked;
  uncaught : list Js.exn;
  lifecycle : Lifecycle;
}.

Definition setStatus (x : WebSocketStatus) (st : State) : State :=
  {| status := x; socket := socket st;
     reconnectTrigger := reconnectTrigger st; pingTime := pingTime st;
     customWsUrl := customWsUrl st; customCameraUrl := customCameraUrl st;
     batteryLevel := batteryLevel st; sensorData := sensorData st;
     cameraStatus := cameraStatus st; settings := settings st;
     commandResponse := commandResponse st;
     pingIntervalRef := pingIntervalRef st; socketRef := socketRef st;
     sockets := sockets st; intervals := intervals st;
     nextIntervalId := nextIntervalId st; localStorage := localStorage st;
     windowEvents := windowEvents st; console := console st;
     errorSink := errorSink st; debugTrack := debugTrack st;
     uncaught := uncaught st; lifecycle := lifecycle st |}.

Definition setSocket (x : option Handle) (st : State) : State :=
  {| status := status st; socket := x;
     reconnectTrigger := reconnectTrigger st; pingTime := pingTime st;
     customWsUrl := customWsUrl st; customCameraUrl := customCameraUrl st;
     batteryLevel := batteryLevel st; sensorData := sensorData st;
     cameraStatus := cameraStatus st; settings := settings st;
     commandResponse := commandResponse st;
     pingIntervalRef := pingIntervalRef st; socketRef := socketRef st;
     sockets := sockets st; intervals := intervals st;
     nextIntervalId := nextIntervalId st; localStorage := localStorage st;
     windowEvents := windowEvents st; console := console st;
     errorSink := errorSink st; debugTrack := debugTrack st;
     uncaught := uncaught st; lifecycle := lifecycle st |}.

Definition setReconnectTrigger (x : nat) (st : State) : State :=
  {| status := status st; socket := socket st; reconnectTrigger := x;
     pingTime := pingTime st; customWsUrl := customWsUrl st;
     customCameraUrl := customCameraUrl st; batteryLevel := batteryLevel st;
     sensorData := sensorData st; cameraStatus := cameraStatus st;
     settings := settings st; commandResponse := commandResponse st;
     pingIntervalRef := pingIntervalRef st; socketRef := socketRef st;
     sockets := sockets st; intervals := intervals st;
     nextIntervalId := nextIntervalId st; localStorage := localStorage st;
     windowEvents := windowEvents st; console := console st;
     errorSink := errorSink st; debugTrack := debugTrack st;
     uncaught := uncaught st; lifecycle := lifecycle st |}.

Definition setPingTime (x : option Js.number) (st : State) : State :=
  {| status := status st; socket := socket st;
     reconnectTrigger := reconnectTrigger st; pingTime := x;
     customWsUrl := customWsUrl st; customCameraUrl := customCameraUrl st;
     batteryLevel := batteryLevel st; sensorData := sensorData st;
     cameraStatus := cameraStatus st; settings := settings st;
     commandResponse := commandResponse st;
     pingIntervalRef := pingIntervalRef st; socketRef := socketRef st;
     sockets := sockets st; intervals := intervals st;
     nextIntervalId := nextIntervalId st; localStorage := localStorage st;
     windowEvents := windowEvents st; console := console st;
     errorSink := errorSink st; debugTrack := debugTrack st;
     uncaught := uncaught st; lifecycle := lifecycle st |}.

Definition setCustomWsUrl (x : option string) (st : State) : State :=
  {| status := status st; socket := socket st;
     reconnectTrigger := reconnectTrigger st; pingTime := pingTime st;
     customWsUrl := x; customCameraUrl := customCameraUrl st;
     batteryLevel := batteryLevel st; sensorData := sensorData st;
     cameraStatus := cameraStatus st; settings := settings st;
     commandResponse := commandResponse st;
     pingIntervalRef := pingIntervalRef st; socketRef := socketRef st;
     sockets := sockets st; intervals := intervals st;
     nextIntervalId := nextIntervalId st; localStorage := localStorage st;
     windowEvents := windowEvents st; console := console st;
     errorSink := errorSink st; debugTrack := debugTrack st;
     uncaught := uncaught st; lifecycle := lifecycle st |}.

Definition setCustomCameraUrl (x : option string) (st : State) : State :=
  {| status := status st; socket := socket st;
     reconnectTrigger := reconnectTrigger st; pingTime := pingTime st;
     customWsUrl := customWsUrl st; customCameraUrl := x;
     batteryLevel := batteryLevel st; sensorData := sensorData st;
     cameraStatus := cameraStatus st; settings := settings st;
     commandResponse := commandResponse st;
     pingIntervalRef := pingIntervalRef st; socketRef := socketRef st;
     sockets := sockets st; intervals := intervals st;
     nextIntervalId := nextIntervalId st; localStorage := localStorage st;
     windowEvents := windowEvents st; console := console st;
     errorSink := errorSink st; debugTrack := debugTrack st;
     uncaught := uncaught st; lifecycle := lifecycle st |}.

Definition setBatteryLevel (x : Js.value) (st : State) : State :=
  {| status := status st; socket := socket st;
     reconnectTrigger := reconnectTrigger st; pingTime := pingTime st;
     customWsUrl := customWsUrl st; customCameraUrl := customCameraUrl st;
     batteryLevel := x; sensorData := sensorData st;
     cameraStatus := cameraStatus st; settings := settings st;
     commandResponse := commandResponse st;
     pingIntervalRef := pingIntervalRef st; socketRef := socketRef st;
     sockets := sockets st; intervals := intervals st;
     nextIntervalId := nextIntervalId st; localStorage := localStorage st;
     windowEvents := windowEvents st; console := console st;
     errorSink := errorSink st; debugTrack := debugTrack st;
     uncaught := uncaught st; lifecycle := lifecycle st |}.

Definition setSensorData (x : Js.value) (st : State) : State :=
  {| status := status st; socket := socket st;
     reconnectTrigger := reconnectTrigger st; pingTime := pingTime st;
     customWsUrl := customWsUrl st; customCameraUrl := customCameraUrl st;
     batteryLevel := batteryLevel st; sensorData := x;
     cameraStatus := cameraStatus st; settings := settings st;
     commandResponse := commandResponse st;
     pingIntervalRef := pingIntervalRef st; socketRef := socketRef st;
     sockets := sockets st; intervals := intervals st;
     nextIntervalId := nextIntervalId st; localStorage := localStorage st;
     windowEvents := windowEvents st; console := console st;
     errorSink := errorSink st; debugTrack := debugTrack st;
     uncaught := uncaught st; lifecycle := lifecycle st |}.

Definition setCameraStatus (x : Js.value) (st : State) : State :=
  {| status := status st; socket := socket st;
     reconnectTrigger := reconnectTrigger st; pingTime := pingTime st;
     customWsUrl := customWsUrl st; customCameraUrl := customCameraUrl st;
     batteryLevel := batteryLevel st; sensorData := sensorData st;
     cameraStatus := x; settings := settings st;
     commandResponse := commandResponse st;
     pingIntervalRef := pingIntervalRef st; socketRef := socketRef st;
     sockets := sockets st; intervals := intervals st;
     nextIntervalId := nextIntervalId st; localStorage := localStorage st;
     windowEvents := windowEvents st; console := console st;
     errorSink := errorSink st; debugTrack := debugTrack st;
     uncaught := uncaught st; lifecycle := lifecycle st |}.

Definition setSettings (x : Js.value) (st : State) : State :=
  {| status := status st; socket := socket st;
     reconnectTrigger := reconnectTrigger st; pingTime := pingTime st;
     customWsUrl := customWsUrl st; customCameraUrl := customCameraUrl st;
     batteryLevel := batteryLevel st; sensorData := sensorData st;
     cameraStatus := cameraStatus st; settings := x;
     commandResponse := commandResponse st;
     pingIntervalRef := pingIntervalRef st; socketRef := socketRef st;
     sockets := sockets st; intervals := intervals st;
     nextIntervalId := nextIntervalId st; localStorage := localStorage st;
     windowEvents := windowEvents st; console := console st;
     errorSink := errorSink st; debugTrack := debugTrack st;
     uncaught := uncaught st; lifecycle := lifecycle st |}.

Definition setCommandResponse (x : Js.value) (st : State) : State :=
  {| status := status st; socket := socket st;
     reconnectTrigger := reconnectTrigger st; pingTime := pingTime st;
     customWsUrl := customWsUrl st; customCameraUrl := customCameraUrl st;
     batteryLevel := batteryLevel st; sensorData := sensorData st;
     cameraStatus := cameraStatus st; settings := settings st;
     commandResponse := x; pingIntervalRef := pingIntervalRef st;
     socketRef := socketRef st; sockets := sockets st;
     intervals := intervals st; nextIntervalId := nextIntervalId st;
     localStorage := localStorage st; windowEvents := windowEvents st;
     console := console st; errorSink := errorSink st;
     debugTrack := debugTrack st; uncaught := uncaught st;
     lifecycle := lifecycle st |}.

Definition set_pingIntervalRef (x : option nat) (st : State) : State :=
  {| status := status st; socket := socket st;
     reconnectTrigger := reconnectTrigger st; pingTime := pingTime st;
     customWsUrl := customWsUrl st; customCameraUrl := customCameraUrl st;
     batteryLevel := batteryLevel st; sensorData := sensorData st;
     cameraStatus := cameraStatus st; settings := settings st;
     commandResponse := commandResponse st; pingIntervalRef := x;
     socketRef := socketRef st; sockets := sockets st;
     intervals := intervals st; nextIntervalId := nextIntervalId st;
     localStorage := localStorage st; windowEvents := windowEvents st;
     console := console st; errorSink := errorSink st;
     debugTrack := debugTrack st; uncaught := uncaught st;
     lifecycle := lifecycle st |}.

Definition set_socketRef (x : option Handle) (st : State) : State :=
  {| status := status st; socket := socket st;
     reconnectTrigger := reconnectTrigger st; pingTime := pingTime st;
     customWsUrl := customWsUrl st; customCameraUrl := customCameraUrl st;
     batteryLevel := batteryLevel st; sensorData := sensorData st;
     cameraStatus := cameraStatus st; settings := settings st;
     commandResponse := commandResponse st;
     pingIntervalRef := pingIntervalRef st; socketRef := x;
     sockets := sockets st; intervals := intervals st;
     nextIntervalId := nextIntervalId st; localStorage := localStorage st;
     windowEvents := windowEvents st; console := console st;
     errorSink := errorSink st; debugTrack := debugTrack st;
     uncaught := uncaught st; lifecycle := lifecycle st |}.

Definition set_sockets (x : list Endpoint) (st : State) : State :=
  {| status := status st; socket := socket st;
     reconnectTrigger := reconnectTrigger st; pingTime := pingTime st;
     customWsUrl := customWsUrl st; customCameraUrl := customCameraUrl st;
     batteryLevel := batteryLevel st; sensorData := sensorData st;
     cameraStatus := cameraStatus st; settings := settings st;
     commandResponse := commandResponse st;
     pingIntervalRef := pingIntervalRef st; socketRef := socketRef st;
     sockets := x; intervals := intervals st;
     nextIntervalId := nextIntervalId st; localStorage := localStorage st;
     windowEvents := windowEvents st; console := console st;
     errorSink := errorSink st; debugTrack := debugTrack st;
     uncaught := uncaught st; lifecycle := lifecycle st |}.

Definition set_intervals (x : gmap nat Interval) (st : State) : State :=
  {| status := status st; socket := socket st;
     reconnectTrigger := reconnectTrigger st; pingTime := pingTime st;
     customWsUrl := customWsUrl st; customCameraUrl := customCameraUrl st;
     batteryLevel := batteryLevel st; sensorData := sensorData st;
     cameraStatus := cameraStatus st; settings := settings st;
     commandResponse := commandResponse st;
     pingIntervalRef := pingIntervalRef st; socketRef := socketRef st;
     sockets := sockets st; intervals := x;
     nextIntervalId := nextIntervalId st; localStorage := localStorage st;
     windowEvents := windowEvents st; console := console st;
     errorSink := errorSink st; debugTrack := debugTrack st;
     uncaught := uncaught st; lifecycle := lifecycle st |}.

Definition set_nextIntervalId (x : nat) (st : State) : State :=
  {| status := status st; socket := socket st;
     reconnectTrigger := reconnectTrigger st; pingTime := pingTime st;
     customWsUrl := customWsUrl st; customCameraUrl := customCameraUrl st;
     batteryLevel := batteryLevel st; sensorData := sensorData st;
     cameraStatus := cameraStatus st; settings := settings st;
     commandResponse := commandResponse st;
     pingIntervalRef := pingIntervalRef st; socketRef := socketRef st;
     sockets := sockets st; intervals := intervals st; nextIntervalId := x;
     localStorage := localStorage st; windowEvents := windowEvents st;
     console := console st; errorSink := errorSink st;
     debugTrack := debugTrack st; uncaught := uncaught st;
     lifecycle := lifecycle st |}.

Definition set_localStorage (x : gmap string string) (st : State) : State :=
  {| status := status st; socket := socket st;
     reconnectTrigger := reconnectTrigger st; pingTime := pingTime st;
     customWsUrl := customWsUrl st; customCameraUrl := customCameraUrl st;
     batteryLevel := batteryLevel st; sensorData := sensorData st;
     cameraStatus := cameraStatus st; settings := settings st;
     commandResponse := commandResponse st;
     pingIntervalRef := pingIntervalRef st; socketRef := socketRef st;
     sockets := sockets st; intervals := intervals st;
     nextIntervalId := nextIntervalId st; localStorage := x;
     windowEvents := windowEvents st; console := console st;
     errorSink := errorSink st; debugTrack := debugTrack st;
     uncaught := uncaught st; lifecycle := lifecycle st |}.

Definition set_windowEvents (x : list (string * Js.value)) (st : State) : State :=
  {| status := status st; socket := socket st;
     reconnectTrigger := reconnectTrigger st; pingTime := pingTime st;
     customWsUrl := customWsUrl st; customCameraUrl := customCameraUrl st;
     batteryLevel := batteryLevel st; sensorData := sensorData st;
     cameraStatus := cameraStatus st; settings := settings st;
     commandResponse := commandResponse st;
     pingIntervalRef := pingIntervalRef st; socketRef := socketRef st;
     sockets := sockets st; intervals := intervals st;
     nextIntervalId := nextIntervalId st; localStorage := localStorage st;
     windowEvents := x; console := console st; errorSink := errorSink st;
     debugTrack := debugTrack st; uncaught := uncaught st;
     lifecycle := lifecycle st |}.

Definition set_console (x : list string) (st : State) : State :=
  {| status := status st; socket := socket st;
     reconnectTrigger := reconnectTrigger st; pingTime := pingTime st;
     customWsUrl := customWsUrl st; customCameraUrl := customCameraUrl st;
     batteryLevel := batteryLevel st; sensorData := sensorData st;
     cameraStatus := cameraStatus st; settings := settings st;
     commandResponse := commandResponse st;
     pingIntervalRef := pingIntervalRef st; socketRef := socketRef st;
     sockets := sockets st; intervals := intervals st;
     nextIntervalId := nextIntervalId st; localStorage := localStorage st;
     windowEvents := windowEvents st; console := x;
     errorSink := errorSink st; debugTrack := debugTrack st;
     uncaught := uncaught st; lifecycle := lifecycle st |}.

Definition set_errorSink (x : list ErrorReport) (st : State) : State :=
  {| status := status st; socket := socket st;
     reconnectTrigger := reconnectTrigger st; pingTime := pingTime st;
     customWsUrl := customWsUrl st; customCameraUrl := customCameraUrl st;
     batteryLevel := batteryLevel st; sensorData := sensorData st;
     cameraStatus := cameraStatus st; settings := settings st;
     commandResponse := commandResponse st;
     pingIntervalRef := pingIntervalRef st; socketRef := socketRef st;
     sockets := sockets st; intervals := intervals st;
     nextIntervalId := nextIntervalId st; localStorage := localStorage st;
     windowEvents := windowEvents st; console := console st; errorSink := x;
     debugTrack := debugTrack st; uncaught := uncaught st;
     lifecycle := lifecycle st |}.

Definition set_debugTrack (x : list Tracked) (st : State) : State :=
  {| status := status st; socket := socket st;
     reconnectTrigger := reconnectTrigger st; pingTime := pingTime st;
     customWsUrl := customWsUrl st; customCameraUrl := customCameraUrl st;
     batteryLevel := batteryLevel st; sensorData := sensorData st;
     cameraStatus := cameraStatus st; settings := settings st;
     commandResponse := commandResponse st;
     pingIntervalRef := pingIntervalRef st; socketRef := socketRef st;
     sockets := sockets st; intervals := intervals st;
     nextIntervalId := nextIntervalId st; localStorage := localStorage st;
     windowEvents := windowEvents st; console := console st;
     errorSink := errorSink st; debugTrack := x; uncaught := uncaught st;
     lifecycle := lifecycle st |}.

Definition set_uncaught (x : list Js.exn) (st : State) : State :=
  {| status := status st; socket := socket st;
     reconnectTrigger := reconnectTrigger st; pingTime := pingTime st;
     customWsUrl := customWsUrl st; customCameraUrl := customCameraUrl st;
     batteryLevel := batteryLevel st; sensorData := sensorData st;
     cameraStatus := cameraStatus st; settings := settings st;
     commandResponse := commandResponse st;
     pingIntervalRef := pingIntervalRef st; socketRef := socketRef st;
     sockets := sockets st; intervals := intervals st;
     nextIntervalId := nextIntervalId st; localStorage := localStorage st;
     windowEvents := windowEvents st; console := console st;
     errorSink := errorSink st; debugTrack := debugTrack st; uncaught := x;
     lifecycle := lifecycle st |}.

Definition set_lifecycle (x : Lifecycle) (st : State) : State :=
  {| status := status st; socket := socket st;
     reconnectTrigger := reconnectTrigger st; pingTime := pingTime st;
     customWsUrl := customWsUrl st; customCameraUrl := customCameraUrl st;
     batteryLevel := batteryLevel st; sensorData := sensorData st;
     cameraStatus := cameraStatus st; settings := settings st;
     commandResponse := commandResponse st;
     pingIntervalRef := pingIntervalRef st; socketRef := socketRef st;
     sockets := sockets st; intervals := intervals st;
     nextIntervalId := nextIntervalId st; localStorage := localStorage st;
     windowEvents := windowEvents st; console := console st;
     errorSink := errorSink st; debugTrack := debugTrack st;
     uncaught := uncaught st; lifecycle := x |}.

(** The first render, over the browser's [localStorage]. *)
Definition initial (storage : gmap string string) : State :=
  {| status := connecting; socket := None; reconnectTrigger := 0%nat;
     pingTime := None; customWsUrl := None; customCameraUrl := None;
     batteryLevel := Js.Null; sensorData := Js.Null;
     cameraStatus := Js.Null; settings := Js.Null;
     commandResponse := Js.Null;
     pingIntervalRef := None; socketRef := None;
     sockets := []; intervals := ∅; nextIntervalId := 1%nat;
     localStorage := storage; windowEvents := []; console := [];
     errorSink := []; debugTrack := []; uncaught := [];
     lifecycle := Fresh |}.

(** ** The browser's side *)

Definition socket_at (h : Handle) (st : State)
    : option (WebSocket Envelope) :=
  sock <$> sockets st !! h.

Definition on_sock (f : WebSocket Envelope -> WebSocket Envelope)
    (e : Endpoint) : Endpoint :=
  {| sock := f (sock e); closure_socket := closure_socket e |}.

Definition update_socket (h : Handle)
    (f : WebSocket Envelope -> WebSocket Envelope) (st : State) : State :=
  set_sockets (alter (on_sock f) h (sockets st)) st.

Section Constructor.

Context `{Js.Runtime}.

(** [new WebSocket(wsUrl)], with the handlers the effect installs on it.
    On a URL it does not accept the constructor throws [SyntaxError] and
    makes no socket. *)
Definition create_socket (wsUrl : string) (st : State)
    : Js.exn + Handle * State :=
  if Js.accepts wsUrl then
    let h := length (sockets st) in
    let e := {| sock := new_WebSocket wsUrl; closure_socket := socket st |} in
    inr (h, set_sockets (sockets st ++ [e]) st)
  else inl Js.SyntaxError.

End Constructor.

Definition setInterval (cb : Callback) (ms : Z) (st : State) : nat * State :=
  let id := nextIntervalId st in
  (id,
   set_nextIntervalId (S id)
     (set_intervals (<[id := {| callback := cb; delay := ms |}]> (intervals st))
        st)).

Definition clearInterval (id : nat) (st : State) : State :=
  set_intervals (delete id (intervals st)) st.

(** [new CustomEvent(type, { detail })]: a [detail] that is [undefined]
    counts as not given, and the event's [detail] is [null]. *)
Definition CustomEvent (type : string) (detail : Js.value)
    : string * Js.value :=
  (type, match detail with Js.Undefined => Js.Null | d => d end).

(** [window.dispatchEvent(new CustomEvent(type, { detail }))] *)
Definition dispatchEvent (type : string) (detail : Js.value) (st : State)
    : State :=
  set_windowEvents (windowEvents st ++ [CustomEvent type detail]) st.

(** An effect threw and nothing caught it: React unmounts the tree. *)
Definition crash (e : Js.exn) (st : State) : State :=
  set_lifecycle Unmounted (set_uncaught (uncaught st ++ [e]) st).

Definition console_write (line : string) (st : State) : State :=
  set_console (console st ++ [line]) st.

(** ** The debug sinks of [DebugState] *)

Definition logError (msg : string) (d : list (string * Detail)) (st : State)
    : State :=
  set_errorSink (errorSink st ++ [{| message := msg; details := d |}]) st.

Definition track (t : Tracked) (st : State) : State :=
  set_debugTrack (debugTrack st ++ [t]) st.

(** ** Pieces the handlers share *)

(** [s.readyState === WebSocket.OPEN || s.readyState === WebSocket.CONNECTING] *)
Definition open_or_connecting (w : WebSocket Envelope) : bool :=
  ReadyState_eqb (readyState w) OPEN
  || ReadyState_eqb (readyState w) CONNECTING.

(** [if (s.readyState === OPEN || s.readyState === CONNECTING) s.close()] *)
Definition close_if_live (h : Handle) (st : State) : State :=
  match socket_at h st with
  | Some w => if open_or_connecting w then update_socket h close st else st
  | None => st
  end.

(** [if (pingIntervalRef.current) { clearInterval(pingIntervalRef.current);
    pingIntervalRef.current = null; }] *)
Definition clear_heartbeat (st : State) : State :=
  match pingIntervalRef st with
  | Some id => set_pingIntervalRef None (clearInterval id st)
  | None => st
  end.

(** [socket && socket.readyState === WebSocket.OPEN] *)
Definition is_open (s : option Handle) (st : State) : bool :=
  match s with
  | Some h =>
      match socket_at h st with
      | Some w => ReadyState_eqb (readyState w) OPEN
      | None => false
      end
  | None => false
  end.

(** [socket?.readyState] *)
Definition readyState_of (s : option Handle) (st : State)
    : option ReadyState :=
  match s with
  | Some h => readyState <$> socket_at h st
  | None => None
  end.

(** [s.send(JSON.stringify(m)); trackWsMessage("sent", m)] *)
Definition send_tracked (h : Handle) (m : Envelope) (st : State)
    : Js.exn + State :=
  match socket_at h st with
  | Some w =>
      match send m w with
      | inl e => inl e
      | inr w' => inr (track (TrackedSent m) (update_socket h (fun _ => w') st))
      end
  | None => inl (Js.TypeError "send")
  end.

(** An object literal [{ timestamp: t }], and friends. *)
Definition stamped (fields : list (string * Js.value)) (t : Z) : Js.value :=
  Js.Obj (fields ++ [("timestamp", Js.Num (Js.of_Z t))]).

(** [{ action, ...data, timestamp }]: a later key replaces an earlier one
    of the same name. *)
Fixpoint assign (key : string) (v : Js.value)
    (fields : list (string * Js.value)) : list (string * Js.value) :=
  match fields with
  | [] => [(key, v)]
  | (k, x) :: rest =>
      if String.eqb k key then (k, v) :: rest
      else (k, x) :: assign key v rest
  end.

Definition spread (over extra : list (string * Js.value))
    : list (string * Js.value) :=
  foldl (fun acc kv => assign kv.1 kv.2 acc) over extra.

(** ** The command functions *)

(** Each takes the state variable [socket] it closes over as [s]; the
    context hands out the ones of the latest render, [s = socket st]. *)

Definition sendGamepadState_with (s : option Handle)
    (gamepadState : Js.value) (now : Z) (st : State) : State :=
  if is_open s st then
    match s with
    | Some h =>
        let m := {| name := "gamepad_input"; data := gamepadState;
                    createdAt := now |} in
        match send_tracked h m st with
        | inr st' => st'
        | inl _ => st
        end
    | None => st
    end
  else st.

(** The shape the commands below share: send [m] and write [said] to the
    console when open, call [logError] otherwise. *)
Definition send_or_report (s : option Handle) (m : Envelope)
    (said : string) (failure : string)
    (extra : list (string * Detail)) (st : State) : State :=
  if is_open s st then
    match s with
    | Some h =>
        match send_tracked h m st with
        | inr st' => console_write said st'
        | inl _ => st
        end
    | None => st
    end
  else
    logError failure
      ([("reason", DString "Socket not connected")] ++ extra ++
       [("readyState", DReadyState (readyState_of s st))]) st.

Definition sendRobotCommand_with (s : option Handle) (command : string)
    (timestamp now : Z) (st : State) : State :=
  send_or_report s
    {| name := "robot_command";
       data := stamped [("command", Js.Str command)] timestamp;
       createdAt := now |}
    ("Robot command sent: " ++ command)
    "Cannot send robot command" [("command", DString command)] st.

(** [Math.round(65 + Math.random() * 25)], [r] being the random draw: the
    product and the sum are binary64 operations. *)
Definition dummyLevel (r : float) : Js.number :=
  Js.Math_round (65 + r * 25)%float.

Definition requestBatteryLevel_with (s : option Handle)
    (timestamp now : Z) (r : float) (st : State) : State :=
  if is_open s st then
    match s with
    | Some h =>
        let m := {| name := "battery_request"; data := stamped [] timestamp;
                    createdAt := now |} in
        match send_tracked h m st with
        | inr st' => st'
        | inl _ => st
        end
    | None => st
    end
  else
    let level := Js.Num (dummyLevel r) in
    dispatchEvent "debug:battery-update" (Js.Obj [("level", level)])
      (setBatteryLevel level st).

Definition updateSettings_with (s : option Handle) (newSettings : Js.value)
    (timestamp now : Z) (st : State) : State :=
  send_or_report s
    {| name := "settings_update";
       data := stamped [("settings", newSettings)] timestamp;
       createdAt := now |}
    "Settings update sent"
    "Cannot send settings update" [] st.

Definition speakText_with (s : option Handle) (text : string)
    (timestamp now : Z) (st : State) : State :=
  send_or_report s
    {| name := "speak_text";
       data := stamped [("text", Js.Str text)] timestamp;
       createdAt := now |}
    ("Text to speak sent: " ++ text)
    "Cannot send text to speak" [] st.

Definition playSound_with (s : option Handle) (sound : string)
    (timestamp now : Z) (st : State) : State :=
  send_or_report s
    {| name := "play_sound";
       data := stamped [("sound", Js.Str sound)] timestamp;
       createdAt := now |}
    ("Sound to play sent: " ++ sound)
    "Cannot send sound to play" [] st.

Definition restartCameraFeed_with (s : option Handle) (timestamp now : Z)
    (st : State) : State :=
  sendRobotCommand_with s "restart_camera_feed" timestamp now st.

Definition scanNetworks_with (s : option Handle) (timestamp now : Z)
    (st : State) : State :=
  send_or_report s
    {| name := "network_scan"; data := stamped [] timestamp;
       createdAt := now |}
    "Network scan request sent"
    "Cannot send network scan request" [] st.

Definition updateNetwork_with (s : option Handle) (action : string)
    (networkData : list (string * Js.value)) (timestamp now : Z)
    (st : State) : State :=
  send_or_report s
    {| name := "network_update";
       data :=
         Js.Obj
           (assign "timestamp" (Js.Num (Js.of_Z timestamp))
              (spread [("action", Js.Str action)] networkData));
       createdAt := now |}
    ("Network update sent: " ++ action)
    "Cannot send network update" [] st.

Definition sendGptCommand_with (s : option Handle) (prompt : string)
    (useCamera : bool) (timestamp now : Z) (st : State) : State :=
  send_or_report s
    {| name := "gpt_command";
       data :=
         stamped [("prompt", Js.Str prompt); ("useCamera", Js.Bool useCamera)]
           timestamp;
       createdAt := now |}
    ("GPT command sent: " ++ prompt)
    "Cannot send GPT command" [] st.

(** [connect()] *)
Definition connect (st : State) : State :=
  setReconnectTrigger (S (reconnectTrigger st)) st.

(** [disconnect()] *)
Definition disconnect (st : State) : State :=
  match socketRef st with
  | Some h => close_if_live h st
  | None => st
  end.

Section Handlers.

Context `{Js.Runtime}.

(** ** The socket's handlers *)

(** [ws.onopen].  [created] is the reading of [Date.now()] for the
    registration, [rid] the text [Math.random().toString(36).substring(2, 9)]
    yields, and [timestamp], [now], [r] what the [requestBatteryLevel] call
    may read. *)
Definition onopen (ws : Handle) (created : Z) (rid : string)
    (timestamp now : Z) (r : float) (st : State) : State :=
  let st1 :=
    track (TrackedConnection "connect")
      (setStatus connected (console_write "Connected to gamepad server" st)) in
  let registerData :=
    {| name := "client_register";
       data := Js.Obj [("type", Js.Str "controller");
                       ("id", Js.Str ("controller-" ++ rid))];
       createdAt := created |} in
  match send_tracked ws registerData st1 with
  | inl _ => st1
  | inr st2 =>
      let s := default None (closure_socket <$> sockets st2 !! ws) in
      let st3 := requestBatteryLevel_with s timestamp now r st2 in
      let (id, st4) := setInterval (Heartbeat ws) 500 st3 in
      set_pingIntervalRef (Some id) st4
  end.

(** The heartbeat's callback; the arguments are the two readings of
    [Date.now()]. *)
Definition heartbeat (ws : Handle) (sentAt created : Z) (st : State)
    : State :=
  match socket_at ws st with
  | Some w =>
      if ReadyState_eqb (readyState w) OPEN then
        let pingData :=
          {| name := "ping";
             data := Js.Obj [("sentAt", Js.Num (Js.of_Z sentAt))];
             createdAt := created |} in
        match send_tracked ws pingData st with
        | inr st' => st'
        | inl _ => st
        end
      else st
  | None => st
  end.

(** [ws.onclose] *)
Definition onclose (st : State) : State :=
  clear_heartbeat
    (track (TrackedConnection "disconnect")
       (setStatus disconnected
          (console_write "Disconnected from gamepad server" st))).

(** [ws.onerror] *)
Definition onerror (st : State) : State :=
  logError "WebSocket connection error"
    [("message", DString "Connection error"); ("errorType", DString "error")]
    (setStatus disconnected (console_write "WebSocket error:" st)).

(** The [switch] of [ws.onmessage] on the parsed [event]; [inl] is what it
    throws. *)
Definition dispatch (now : Z) (event : Js.value) (st : State)
    : Js.exn + State :=
  let* tag := Js.get event "name" in
  if Js.is_string tag "pong" then
    let* payload := Js.get event "data" in
    let* sentAt := Js.get payload "sentAt" in
    let latency := Js.sub (Js.of_Z now) (Js.ToNumber sentAt) in
    inr (setPingTime (Some latency) st)
  else if Js.is_string tag "battery_info" then
    let* payload := Js.get event "data" in
    let* level := Js.get payload "level" in
    inr (dispatchEvent "debug:battery-update" (Js.Obj [("level", level)])
           (setBatteryLevel level st))
  else if Js.is_string tag "sensor_data" then
    let* payload := Js.get event "data" in
    inr (setSensorData payload st)
  else if Js.is_string tag "camera_status" then
    let* payload := Js.get event "data" in
    inr (setCameraStatus payload st)
  else if Js.is_string tag "settings" then
    let* payload := Js.get event "data" in
    let* new_settings := Js.get payload "settings" in
    if Js.truthy new_settings then inr (setSettings new_settings st)
    else inr st
  else if Js.is_string tag "command_response" then
    let* payload := Js.get event "data" in
    inr (dispatchEvent "debug:command-response" payload
           (setCommandResponse payload st))
  else if Js.is_string tag "network_list" then
    let* payload := Js.get event "data" in
    inr (dispatchEvent "debug:network-list" payload st)
  else if Js.is_string tag "gpt_response" then
    let* payload := Js.get event "data" in
    inr (dispatchEvent "debug:gpt-response" payload st)
  else inr st.

(** The [catch] of [ws.onmessage]. *)
Definition report_parse_error (e : Js.exn) (frame : string) (st : State)
    : State :=
  logError "Error parsing WebSocket message"
    [("error", DError e); ("rawMessage", DString frame)]
    (console_write "Error parsing websocket message:" st).

(** [ws.onmessage], on the text [frame] of the message, [now] being the
    reading of [Date.now()]. *)
Definition onmessage (frame : string) (now : Z) (st : State) : State :=
  match Js.JSON_parse frame with
  | None => report_parse_error Js.SyntaxError frame st
  | Some event =>
      let st1 := track (TrackedReceived event) st in
      match dispatch now event st1 with
      | inl e => report_parse_error e frame st1
      | inr st2 => st2
      end
  end.

(** ** The effects *)

(** [customWsUrl && customWsUrl.trim() !== ""] chooses the override. *)
Definition wsUrl_of (st : State) : string :=
  match customWsUrl st with
  | Some u =>
      if negb (String.eqb u "") && negb (String.eqb (Js.trim u) "") then u
      else "ws://" ++ Js.hostname ++ ":3001/ws"
  | None => "ws://" ++ Js.hostname ++ ":3001/ws"
  end.

(** The connection effect's body: [inr] is the state it leaves, [inl] what
    the constructor threw and the state it threw in. *)
Definition connection_effect (st : State) : Js.exn * State + State :=
  let st1 :=
    match socket st with
    | Some s => clear_heartbeat (close_if_live s st)
    | None => st
    end in
  let wsUrl := wsUrl_of st1 in
  let st2 :=
    setStatus connecting
      (console_write
         ("Connecting to WebSocket at " ++ wsUrl ++ " (attempt #"
          ++ pretty (reconnectTrigger st1) ++ ")...") st1) in
  match create_socket wsUrl st2 with
  | inl e => inl (e, st2)
  | inr (ws, st3) =>
      inr (set_lifecycle
             (Committed (reconnectTrigger st3) (customWsUrl st3) ws)
             (set_socketRef (Some ws) (setSocket (Some ws) st3)))
  end.

(** The cleanup it returns, closing over [ws]. *)
Definition connection_cleanup (ws : Handle) (st : State) : State :=
  close_if_live ws (clear_heartbeat st).

(** A stored string that is not empty. *)
Definition saved (key : string) (st : State) : option string :=
  match localStorage st !! key with
  | Some "" | None => None
  | Some u => Some u
  end.

(** "Load saved URLs on initial render". *)
Definition load_saved_urls (st : State) : State :=
  let st1 :=
    match saved "debug_ws_url" st with
    | Some u => setCustomWsUrl (Some u) st
    | None => st
    end in
  match saved "debug_camera_url" st1 with
  | Some u => setCustomCameraUrl (Some u) st1
  | None => st1
  end.

Definition store (key : string) (url : option string) (st : State) : State :=
  match url with
  | Some "" | None => st
  | Some u => set_localStorage (<[key := u]> (localStorage st)) st
  end.

(** "Save URLs when they change".  Storing a value again changes nothing,
    so the effect is run at every commit. *)
Definition save_urls (st : State) : State :=
  store "debug_camera_url" (customCameraUrl st)
    (store "debug_ws_url" (customWsUrl st) st).

(** React commits a render: the connection effect runs at mount and again,
    after its cleanup, when [reconnectTrigger] or [customWsUrl] differ from
    the values it last ran with.  When it throws, the effects that come
    after it in the component are not run and the tree is unmounted. *)
Definition commit (st : State) : State :=
  match lifecycle st with
  | Fresh =>
      match connection_effect st with
      | inl (e, st') => crash e st'
      | inr st' => save_urls (load_saved_urls st')
      end
  | Committed trigger wsUrl ws =>
      if bool_decide (trigger = reconnectTrigger st)
         && bool_decide (wsUrl = customWsUrl st)
      then save_urls st
      else
        match connection_effect (connection_cleanup ws st) with
        | inl (e, st') => crash e st'
        | inr st' => save_urls st'
        end
  | Unmounted => st
  end.

Definition unmount (st : State) : State :=
  match lifecycle st with
  | Committed _ _ ws => set_lifecycle Unmounted (connection_cleanup ws st)
  | Fresh | Unmounted => set_lifecycle Unmounted st
  end.

(** ** Events *)

(** What React, the browser and the components using the context can do.
    Commands run with the [socket] of the latest render. *)
Inductive Event :=
| Commit
| Unmount
| Connect
| Disconnect
| SetCustomWsUrl (url : option string)
| SetCustomCameraUrl (url : option string)
| Open (ws : Handle) (created : Z) (rid : string) (timestamp now : Z)
    (r : float)
| Close (ws : Handle)
| Error (ws : Handle)
| Message (ws : Handle) (frame : string) (now : Z)
| IntervalFires (id : nat) (sentAt created : Z)
| SendGamepadState (gamepadState : Js.value) (now : Z)
| SendRobotCommand (command : string) (timestamp now : Z)
| RequestBatteryLevel (timestamp now : Z) (r : float)
| UpdateSettings (newSettings : Js.value) (timestamp now : Z)
| SpeakText (text : string) (timestamp now : Z)
| PlaySound (sound : string) (timestamp now : Z)
| RestartCameraFeed (timestamp now : Z)
| ScanNetworks (timestamp now : Z)
| UpdateNetwork (action : string) (networkData : list (string * Js.value))
    (timestamp now : Z)
| SendGptCommand (prompt : string) (useCamera : bool) (timestamp now : Z).

(** One event.  The browser fires [open] on a connecting socket only and
    makes it open first, fires [close] once and makes the socket closed
    first, delivers a message on an open socket only, and runs the callback
    of a live interval only; an event that cannot happen leaves the state
    as it is.  [Error] is a connection that fails: the browser makes the
    socket closed, fires [error] and, in the same task, [close]. *)
Definition step (ev : Event) (st : State) : State :=
  match ev with
  | Commit => commit st
  | Unmount => unmount st
  | Connect => connect st
  | Disconnect => disconnect st
  | SetCustomWsUrl url => setCustomWsUrl url st
  | SetCustomCameraUrl url => setCustomCameraUrl url st
  | Open ws created rid timestamp now r =>
      match readyState <$> socket_at ws st with
      | Some CONNECTING =>
          onopen ws created rid timestamp now r
            (update_socket ws (set_readyState OPEN) st)
      | _ => st
      end
  | Close ws =>
      match readyState <$> socket_at ws st with
      | Some CONNECTING | Some OPEN | Some CLOSING =>
          onclose (update_socket ws (set_readyState CLOSED) st)
      | _ => st
      end
  | Error ws =>
      match readyState <$> socket_at ws st with
      | Some CONNECTING | Some OPEN | Some CLOSING =>
          onclose (onerror (update_socket ws (set_readyState CLOSED) st))
      | _ => st
      end
  | Message ws frame now =>
      match readyState <$> socket_at ws st with
      | Some OPEN => onmessage frame now st
      | _ => st
      end
  | IntervalFires id sentAt created =>
      match intervals st !! id with
      | Some {| callback := Heartbeat ws |} => heartbeat ws sentAt created st
      | None => st
      end
  | SendGamepadState gamepadState now =>
      sendGamepadState_with (socket st) gamepadState now st
  | SendRobotCommand command timestamp now =>
      sendRobotCommand_with (socket st) command timestamp now st
  | RequestBatteryLevel timestamp now r =>
      requestBatteryLevel_with (socket st) timestamp now r st
  | UpdateSettings newSettings timestamp now =>
      updateSettings_with (socket st) newSettings timestamp now st
  | SpeakText text timestamp now =>
      speakText_with (socket st) text timestamp now st
  | PlaySound sound timestamp now =>
      playSound_with (socket st) sound timestamp now st
  | RestartCameraFeed timestamp now =>
      restartCameraFeed_with (socket st) timestamp now st
  | ScanNetworks timestamp now =>
      scanNetworks_with (socket st) timestamp now st
  | UpdateNetwork action networkData timestamp now =>
      updateNetwork_with (socket st) action networkData timestamp now st
  | SendGptCommand prompt useCamera timestamp now =>
      sendGptCommand_with (socket st) prompt useCamera timestamp now st
  end.

Definition run (evs : list Event) (st : State) : State :=
  foldl (fun s ev => step ev s) st evs.

End Handlers.

End Provider.

(* ===================================================================== *)
(** * Sample inputs                                                       *)
(* ===================================================================== *)

Module Sample.

(** The mapping of the spec's scenario: accelerate on axis 0, brake not
    set. *)
Definition scenario_mappings : gmap string Gamepad.Mapping :=
  {[ "accelerate" := {| Gamepad.type := "axis"; Gamepad.index := 0 |};
     "brake" := {| Gamepad.type := "button"; Gamepad.index := -1 |} ]}.

Definition scenario_axis (key : string) : option float :=
  if String.eqb key "accelerate" then Some 0.6%float else None.

(** A gamepad on which nothing is bound, every button held down and every
    axis pushed to 1. *)
Definition nothing_bound : gmap string Gamepad.Mapping :=
  {[ "accelerate" := {| Gamepad.type := "button"; Gamepad.index := -1 |};
     "brake" := {| Gamepad.type := "button"; Gamepad.index := -1 |};
     "turn" := {| Gamepad.type := "axis"; Gamepad.index := -1 |};
     "use" := {| Gamepad.type := "button"; Gamepad.index := -1 |} ]}.

Definition all_pressed (key : string) : bool := true.

Definition all_pushed (key : string) : option float := Some 1%float.

(** The gamepad context of that scenario, with a device selected. *)
Definition scenario_gamepad : StatusWidget.GamepadContext :=
  {| StatusWidget.isActionActive := fun _ => false;
     StatusWidget.getAxisValueForAction := scenario_axis;
     StatusWidget.selectedGamepadId := Some "pad-0";
     StatusWidget.mappings := scenario_mappings |}.

(** Accelerate and brake on two axes pushed in opposite directions. *)
Definition opposed_mappings : gmap string Gamepad.Mapping :=
  {[ "accelerate" := {| Gamepad.type := "axis"; Gamepad.index := 0 |};
     "brake" := {| Gamepad.type := "axis"; Gamepad.index := 1 |} ]}.

Definition opposed_axis (key : string) : option float :=
  if String.eqb key "accelerate" then Some 1%float
  else if String.eqb key "brake" then Some (-1)%float
  else None.

(** The double quote, which a string literal cannot hold. *)
Definition dq : string := String (Ascii.ascii_of_nat 34) "".

Definition quoted (s : string) : string := dq ++ s ++ dq.

(** The text of a [pong] whose [data.sentAt] is written [sentAt]. *)
Definition pong_text (sentAt : string) : string :=
  "{" ++ quoted "name" ++ ":" ++ quoted "pong" ++ ","
  ++ quoted "data" ++ ":{" ++ quoted "sentAt" ++ ":" ++ sentAt ++ "}}".

Definition pong_event (sentAt : float) : Js.value :=
  Js.Obj [("name", Js.Str "pong");
          ("data", Js.Obj [("sentAt", Js.Num sentAt)])].

(** A runtime whose [JSON.parse] is tabulated on the frames used below: two
    [pong]s, and a text that is no JSON at all.  On the page of
    [relay.local]. *)
Definition table_parse (frame : string) : option Js.value :=
  if String.eqb frame (pong_text "5") then Some (pong_event 5)
  else if String.eqb frame (pong_text "1000") then Some (pong_event 1000)
  else None.

Fixpoint no_blank (u : string) : bool :=
  match u with
  | EmptyString => true
  | String c rest => negb (Ascii.eqb c (Ascii.ascii_of_nat 32)) && no_blank rest
  end.

(** A constructor that takes the [ws:] URLs without a blank. *)
Definition ws_url (u : string) : bool :=
  String.prefix "ws://" u && no_blank u.

#[local] Instance table_runtime : Js.Runtime :=
  {| Js.JSON_parse := table_parse;
     Js.ToNumber_object := fun _ => Js.NaN;
     Js.trim := fun s => s;
     Js.hostname := "relay.local";
     Js.accepts := ws_url;
     Js.accepts_hostname := eq_refl |}.

End Sample.

(* ===================================================================== *)
(** * Vocabulary of the statements                                        *)
(* ===================================================================== *)

Module Wire.

(** A parsed frame that reads as a [pong] whose [data.sentAt] is the
    number [T]. *)
Definition is_pong (event : Js.value) (T : float) : Prop :=
  Js.get event "name" = inr (Js.Str "pong")
  /\ exists payload,
       Js.get event "data" = inr payload
       /\ Js.get payload "sentAt" = inr (Js.Num T).

(** A parsed frame that reads as a [battery_info] whose [data.level] is
    [level]. *)
Definition is_battery_info (event level : Js.value) : Prop :=
  Js.get event "name" = inr (Js.Str "battery_info")
  /\ exists payload,
       Js.get event "data" = inr payload
       /\ Js.get payload "level" = inr level.

(** The [sentAt] of a [ping] envelope. *)
Definition sentAt_of (m : Provider.Envelope) : option Js.value :=
  if String.eqb (Provider.name m) "ping" then
    match Js.get (Provider.data m) "sentAt" with
    | inr v => Some v
    | inl _ => None
    end
  else None.

(** The timestamp of the most recently sent [ping] among the frames a
    socket transmitted. *)
Definition last_ping (sent : list Provider.Envelope) : option Js.value :=
  last (omap sentAt_of sent).

(** The frames socket [h] has put on the wire. *)
Definition wire (h : Provider.Handle) (st : Provider.State)
    : option (list Provider.Envelope) :=
  WebSocketApi.transmitted <$> Provider.socket_at h st.

(** Socket [h] is connecting or open. *)
Definition live_at (h : Provider.Handle) (st : Provider.State) : Prop :=
  WebSocketApi.live <$> Provider.socket_at h st = Some true.

(** The [client_register] envelope of a controller. *)
Definition registration (rid : string) (created : Z) : Provider.Envelope :=
  {| Provider.name := "client_register";
     Provider.data := Js.Obj [("type", Js.Str "controller");
                              ("id", Js.Str ("controller-" ++ rid))];
     Provider.createdAt := created |}.

(** The [ping] envelope with payload [{ sentAt }]. *)
Definition ping_of (sentAt created : Z) : Provider.Envelope :=
  {| Provider.name := "ping";
     Provider.data := Js.Obj [("sentAt", Js.Num (Js.of_Z sentAt))];
     Provider.createdAt := created |}.

End Wire.

(* ===================================================================== *)
(** * Invariants of the provider's connection                             *)
(* ===================================================================== *)

Module Connection.

Import WebSocketApi Provider.

(** How a socket object can differ between two moments: what its handlers
    captured stays; it does not come back to life; while it is connecting
    nothing is transmitted on it, and once it is closing nothing is any
    more. *)
Definition ages (e e' : Endpoint) : Prop :=
  closure_socket e' = closure_socket e
  /\ (live (sock e') = true -> live (sock e) = true)
  /\ (readyState (sock e') = CONNECTING ->
      readyState (sock e) = CONNECTING
      /\ transmitted (sock e') = transmitted (sock e))
  /\ (live (sock e) = false ->
      transmitted (sock e') = transmitted (sock e)).

(** A step that does not run the connection effect and starts no
    heartbeat: the sockets age, the heartbeat is as it was or is gone, and
    [reconnectTrigger] can only have grown. *)
Record quiet (st st' : State) : Prop := {
  quiet_lifecycle : lifecycle st' = lifecycle st;
  quiet_trigger : (reconnectTrigger st <= reconnectTrigger st')%nat;
  quiet_socket : socket st' = socket st;
  quiet_socketRef : socketRef st' = socketRef st;
  quiet_sockets : Forall2 ages (sockets st) (sockets st');
  quiet_intervals :
    (intervals st' = intervals st
     /\ pingIntervalRef st' = pingIntervalRef st)
    \/ intervals st' = ∅;
}.


(** No socket is connecting or open. *)
Definition all_closed (st : State) : Prop :=
  forall h w, socket_at h st = Some w -> live w = false.

Section Effect.

Context `{Js.Runtime}.

(** The state the connection effect is in when it calls the constructor:
    the previous socket closed, the line logged, the status connecting. *)
Definition at_constructor (st : State) : State :=
  let st1 :=
    match socket st with
    | Some s => clear_heartbeat (close_if_live s st)
    | None => st
    end in
  setStatus connecting
    (console_write
       ("Connecting to WebSocket at " ++ wsUrl_of st1 ++ " (attempt #"
        ++ pretty (reconnectTrigger st1) ++ ")...") st1).

(** The state it leaves when the constructor accepts the URL. *)
Definition opened (st : State) : State :=
  let st1 :=
    match socket st with
    | Some s => clear_heartbeat (close_if_live s st)
    | None => st
    end in
  let st2 := at_constructor st in
  let ws := length (sockets st2) in
  let e := {| sock := new_WebSocket (wsUrl_of st1);
              closure_socket := socket st2 |} in
  set_lifecycle (Committed (reconnectTrigger st2) (customWsUrl st2) ws)
    (set_socketRef (Some ws)
       (setSocket (Some ws) (set_sockets (sockets st2 ++ [e]) st2))).

End Effect.

(** What holds of every state the provider can be in. *)
Record Inv (st : State) : Prop := {
  (** only the socket of the committed effect can be live *)
  inv_live : forall h w,
    socket_at h st = Some w -> live w = true ->
    exists trigger wsUrl, lifecycle st = Committed trigger wsUrl h;
  (** the state variable and the ref both name that socket, and the
      effect ran with a [reconnectTrigger] not above the present one *)
  inv_committed : forall trigger wsUrl ws,
    lifecycle st = Committed trigger wsUrl ws ->
    socket st = Some ws /\ socketRef st = Some ws
    /\ (ws < length (sockets st))%nat
    /\ (trigger <= reconnectTrigger st)%nat;
  inv_fresh :
    lifecycle st = Fresh -> sockets st = [] /\ socket st = None;
  (** the only interval is the heartbeat of that socket, held by the ref *)
  inv_intervals : forall id iv,
    intervals st !! id = Some iv ->
    pingIntervalRef st = Some id
    /\ exists trigger wsUrl ws,
         lifecycle st = Committed trigger wsUrl ws
         /\ iv = {| callback := Heartbeat ws; delay := 500 |};
  (** a connecting socket has sent nothing and has no heartbeat yet *)
  inv_connecting : forall h w,
    socket_at h st = Some w -> readyState w = CONNECTING ->
    transmitted w = [] /\ intervals st = ∅;
  (** handlers captured an older socket *)
  inv_closure : forall h e h',
    sockets st !! h = Some e -> closure_socket e = Some h' -> (h' < h)%nat;
}.

End Connection.

(* ===================================================================== *)
(** * Vocabulary of the further properties                                *)
(* ===================================================================== *)

Module Protocol.

Import WebSocketApi Provider.

(** The message kinds the provider's [switch] has a [case] for. *)
Definition handled_kinds : list string :=
  ["pong"; "battery_info"; "sensor_data"; "camera_status"; "settings";
   "command_response"; "network_list"; "gpt_response"].

(** [tag] is none of them (it may not even be a string). *)
Definition unhandled (tag : Js.value) : Prop :=
  forall kind, kind ∈ handled_kinds -> Js.is_string tag kind = false.

(** A value [v.key] cannot be read from. *)
Definition nullish_value (v : Js.value) : Prop :=
  v = Js.Undefined \/ v = Js.Null.

(** The value the last entry for [key] gives it, if [fields] has one. *)
Definition last_binding (key : string) (fields : list (string * Js.value))
    : option Js.value :=
  foldl (fun found kv => if String.eqb kv.1 key then Some kv.2 else found)
    None fields.

(** [ToNumber] on what [getActionValue] returns. *)
Definition to_number (v : Gamepad.ActionValue) : float :=
  match v with
  | Gamepad.VBool true => 1%float
  | Gamepad.VBool false => 0%float
  | Gamepad.VNum x => x
  end.

(** The wire of a socket is empty and the socket is not open, or the wire
    starts with a controller's [client_register]. *)
Definition registered (w : WebSocket Envelope) : Prop :=
  (transmitted w = [] /\ readyState w <> OPEN)
  \/ exists rid created rest,
       transmitted w = Wire.registration rid created :: rest.

Definition all_registered (st : State) : Prop :=
  forall h w, socket_at h st = Some w -> registered w.

(** No socket has been handed a frame it had to discard, which is what a
    browser does with a frame sent on a closing or closed socket. *)
Definition nothing_discarded (st : State) : Prop :=
  forall h w, socket_at h st = Some w -> discarded w = [].

(** The provider's ten commands, with their arguments. *)
Inductive Command :=
| CGamepadState (gamepadState : Js.value)
| CRobotCommand (command : string)
| CBatteryLevel (r : float)
| CSettings (newSettings : Js.value)
| CSpeakText (text : string)
| CPlaySound (sound : string)
| CRestartCameraFeed
| CScanNetworks
| CNetwork (action : string) (networkData : list (string * Js.value))
| CGptCommand (prompt : string) (useCamera : bool).

(** The command function each stands for, closing over [socket = s]. *)
Definition perform (s : option Handle) (c : Command) (timestamp now : Z)
    (st : State) : State :=
  match c with
  | CGamepadState g => sendGamepadState_with s g now st
  | CRobotCommand command => sendRobotCommand_with s command timestamp now st
  | CBatteryLevel r => requestBatteryLevel_with s timestamp now r st
  | CSettings v => updateSettings_with s v timestamp now st
  | CSpeakText text => speakText_with s text timestamp now st
  | CPlaySound sound => playSound_with s sound timestamp now st
  | CRestartCameraFeed => restartCameraFeed_with s timestamp now st
  | CScanNetworks => scanNetworks_with s timestamp now st
  | CNetwork action d => updateNetwork_with s action d timestamp now st
  | CGptCommand prompt useCamera =>
      sendGptCommand_with s prompt useCamera timestamp now st
  end.

(** The [name] of the envelope a command sends. *)
Definition kind_of (c : Command) : string :=
  match c with
  | CGamepadState _ => "gamepad_input"
  | CRobotCommand _ | CRestartCameraFeed => "robot_command"
  | CBatteryLevel _ => "battery_request"
  | CSettings _ => "settings_update"
  | CSpeakText _ => "speak_text"
  | CPlaySound _ => "play_sound"
  | CScanNetworks => "network_scan"
  | CNetwork _ _ => "network_update"
  | CGptCommand _ _ => "gpt_command"
  end.

End Protocol.

(* ===================================================================== *)
(** * More sample frames                                                  *)
(* ===================================================================== *)

Module Frames.

Import Sample.

(** [{"name":<name>}] and [{"name":<name>,"data":<data>}] as text. *)
Definition bare_text (name : string) : string :=
  "{" ++ quoted "name" ++ ":" ++ quoted name ++ "}".

Definition framed_text (name data : string) : string :=
  "{" ++ quoted "name" ++ ":" ++ quoted name ++ ","
  ++ quoted "data" ++ ":" ++ data ++ "}".

Definition bare (name : string) : Js.value :=
  Js.Obj [("name", Js.Str name)].

Definition framed (name : string) (data : Js.value) : Js.value :=
  Js.Obj [("name", Js.Str name); ("data", data)].

(** The frames of the examples, each with the value [JSON.parse] gives. *)
Definition table : list (string * Js.value) :=
  [(framed_text "car_ready" "{}", framed "car_ready" (Js.Obj []));
   (bare_text "pong", bare "pong");
   (framed_text "pong" "{}", framed "pong" (Js.Obj []));
   (framed_text "settings" "{}", framed "settings" (Js.Obj []));
   (bare_text "sensor_data", bare "sensor_data");
   (framed_text "battery_info" ("{" ++ quoted "level" ++ ":80}"),
    framed "battery_info" (Js.Obj [("level", Js.Num 80)]));
   (pong_text "5", pong_event 5);
   ("null", Js.Null)].

Fixpoint parse_in (rows : list (string * Js.value)) (frame : string)
    : option Js.value :=
  match rows with
  | [] => None
  | (text, v) :: rest =>
      if String.eqb frame text then Some v else parse_in rest frame
  end.

(** A runtime whose [JSON.parse] is tabulated on those frames. *)
#[local] Instance runtime : Js.Runtime :=
  {| Js.JSON_parse := parse_in table;
     Js.ToNumber_object := fun _ => Js.NaN;
     Js.trim := fun s => s;
     Js.hostname := "relay.local";
     Js.accepts := Sample.ws_url;
     Js.accepts_hostname := eq_refl |}.

(** The provider once its first socket has opened, and that socket. *)
Definition connected_state : Provider.State :=
  Provider.run (H := runtime)
    [Provider.Commit; Provider.Open 0%nat 900 "abc1234" 901 902 0.5]
    (Provider.initial ∅).

Definition connected_socket : WebSocketApi.WebSocket Provider.Envelope :=
  {| WebSocketApi.url := "ws://relay.local:3001/ws";
     WebSocketApi.readyState := WebSocketApi.OPEN;
     WebSocketApi.transmitted := [Wire.registration "abc1234" 900];
     WebSocketApi.discarded := [] |}.

End Frames.

(* ===================================================================== *)
(** * Theorems                                                            *)
(* ===================================================================== *)

(** Subtracting [+0] is the identity on binary64, NaN, infinities and both
    zeros included. *)
Lemma float_sub_zero_r (v : float) : (v - 0)%float = v.
Proof.
  apply Prim2SF_inj. rewrite sub_spec. unfold SF64sub.
  change (Prim2SF 0) with (S754_zero false).
  destruct (Prim2SF v) as [[]| [] | |]; reflexivity.
Qed.

(* --------------------------------------------------------------------- *)
(** ** Binary64 arithmetic                                                *)
(* --------------------------------------------------------------------- *)

(** What the statements below need of IEEE binary64, from the
    specification of the primitive floats: rounding keeps a value between
    the integers it lies between, so integers below 2^53 subtract exactly
    and [Math.round(65 + r * 25)] stays within 65 and 90. *)

Section Binary64.

Lemma iter_pos_nat {A : Type} (f : A -> A) (p : positive) (x : A) :
  SpecFloat.iter_pos f p x = Nat.iter (Pos.to_nat p) f x.
Proof.
  revert x. induction p as [p IH|p IH|]; intros x; cbn [SpecFloat.iter_pos].
  - rewrite !IH, Pos2Nat.inj_xI.
    replace (S (2 * Pos.to_nat p))%nat
      with (Pos.to_nat p + (Pos.to_nat p + 1))%nat by lia.
    rewrite !Nat.iter_add. reflexivity.
  - rewrite !IH, Pos2Nat.inj_xO.
    replace (2 * Pos.to_nat p)%nat
      with (Pos.to_nat p + Pos.to_nat p)%nat by lia.
    rewrite Nat.iter_add. reflexivity.
  - reflexivity.
Qed.

Lemma shr_1_spec (m : Z) (r s : bool) :
  0 <= m ->
  shr_1 {| shr_m := m; shr_r := r; shr_s := s |}
  = {| shr_m := Z.div2 m; shr_r := Z.odd m; shr_s := r || s |}.
Proof.
  intros Hm. destruct m as [|[p|p|]|p]; try reflexivity. lia.
Qed.

Lemma shr_iter (n : nat) (m : Z) :
  0 <= m ->
  let R := Nat.iter n shr_1 {| shr_m := m; shr_r := false; shr_s := false |} in
  shr_m R = m / 2 ^ Z.of_nat n
  /\ (m mod 2 ^ Z.of_nat n = 0 -> shr_r R = false /\ shr_s R = false).
Proof.
  intros Hm. induction n as [|n IH]; cbn zeta.
  - cbn. rewrite Z.div_1_r. auto.
  - cbn zeta in IH. destruct IH as [Hq Hex].
    rewrite Nat.iter_succ.
    destruct (Nat.iter n shr_1 _) as [q r s] eqn:HR. cbn in Hq, Hex.
    assert (Hq0 : 0 <= q) by (subst q; apply Z.div_pos; lia).
    rewrite (shr_1_spec q r s Hq0). cbn [shr_m shr_r shr_s].
    assert (Hp : 2 ^ Z.of_nat (S n) = 2 ^ Z.of_nat n * 2).
    { rewrite Nat2Z.inj_succ, Z.pow_succ_r by lia. ring. }
    assert (Hpos : 0 < 2 ^ Z.of_nat n) by (apply Z.pow_pos_nonneg; lia).
    split.
    + rewrite Z.div2_div, Hq, Hp, Z.div_div by lia. reflexivity.
    + intros Hmod. rewrite Hp in Hmod.
      rewrite Z.rem_mul_r in Hmod by lia.
      assert (Hr0 : 0 <= m mod 2 ^ Z.of_nat n < 2 ^ Z.of_nat n)
        by (apply Z.mod_pos_bound; lia).
      assert (Hr1 : 0 <= (m / 2 ^ Z.of_nat n) mod 2 < 2)
        by (apply Z.mod_pos_bound; lia).
      assert (H0 : m mod 2 ^ Z.of_nat n = 0) by nia.
      assert (H1 : (m / 2 ^ Z.of_nat n) mod 2 = 0) by nia.
      destruct (Hex H0) as [-> ->]. split; [|reflexivity].
      rewrite <- Hq in H1. rewrite <- Z.negb_even.
      rewrite Zeven_mod. rewrite H1. reflexivity.
Qed.

Lemma digits2_pos_spec (p : positive) :
  2 ^ (Z.pos (digits2_pos p) - 1) <= Z.pos p < 2 ^ Z.pos (digits2_pos p).
Proof.
  induction p as [p IH|p IH|]; cbn [digits2_pos].
  - rewrite Pos2Z.inj_succ.
    replace (Z.succ (Z.pos (digits2_pos p)) - 1) with
      (Z.succ (Z.pos (digits2_pos p) - 1)) by lia.
    rewrite !Z.pow_succ_r by lia. lia.
  - rewrite Pos2Z.inj_succ.
    replace (Z.succ (Z.pos (digits2_pos p)) - 1) with
      (Z.succ (Z.pos (digits2_pos p) - 1)) by lia.
    rewrite !Z.pow_succ_r by lia. lia.
  - cbn. lia.
Qed.


Lemma Zdigits2_bound (m : Z) :
  0 <= m -> m < 2 ^ Zdigits2 m /\ (0 < m -> 2 ^ (Zdigits2 m - 1) <= m).
Proof.
  intros Hm. destruct m as [|p|p]; [cbn; lia| |lia].
  cbn [Zdigits2]. pose proof (digits2_pos_spec p). lia.
Qed.

(** The first shift of [binary_round_aux]: by [n] bits, [n] being 0 when
    the mantissa is short enough. *)
Lemma shr_fexp_spec (m e : Z) :
  0 <= m ->
  exists n mrs,
    shr_fexp prec emax m e loc_Exact = (mrs, e + n)
    /\ 0 <= n
    /\ (n = 0 \/ e + n = fexp prec emax (Zdigits2 m + e))
    /\ shr_m mrs = m / 2 ^ n
    /\ (m mod 2 ^ n = 0 -> loc_of_shr_record mrs = loc_Exact).
Proof.
  intros Hm. unfold shr_fexp, shr, shr_record_of_loc.
  destruct (fexp prec emax (Zdigits2 m + e) - e) as [|p|p] eqn:Hn.
  - exists 0, {| shr_m := m; shr_r := false; shr_s := false |}.
    rewrite Z.add_0_r, Z.div_1_r. cbn. auto with zarith.
  - exists (Z.pos p), (SpecFloat.iter_pos shr_1 p
                         {| shr_m := m; shr_r := false; shr_s := false |}).
    rewrite iter_pos_nat.
    destruct (shr_iter (Pos.to_nat p) m Hm) as [Hq Hex].
    rewrite positive_nat_Z in Hq, Hex.
    split; [reflexivity|]. split; [lia|]. split; [right; lia|].
    split; [exact Hq|].
    intros H0. destruct (Hex H0) as [Hr Hs].
    destruct (Nat.iter _ _ _) as [q r s]. cbn in Hr, Hs. subst r s.
    reflexivity.
  - exists 0, {| shr_m := m; shr_r := false; shr_s := false |}.
    rewrite Z.add_0_r, Z.div_1_r. cbn. auto with zarith.
Qed.

Lemma round_nearest_even_bracket (mrs : shr_record) :
  let m' := round_nearest_even (shr_m mrs) (loc_of_shr_record mrs) in
  shr_m mrs <= m' <= shr_m mrs + 1
  /\ (loc_of_shr_record mrs = loc_Exact -> m' = shr_m mrs).
Proof.
  destruct mrs as [q [] []]; cbn; try destruct (Z.even q); split;
    try lia; try discriminate; auto.
Qed.

(** A mantissa between two integers scaled to its exponent stays between
    them, scaled to the new exponent, when it is shifted and rounded. *)
Lemma shift_bounds (m e n lo hi m' : Z) :
  0 <= n -> e + n <= 0 ->
  lo * 2 ^ (- e) <= m <= hi * 2 ^ (- e) ->
  m / 2 ^ n <= m' <= m / 2 ^ n + 1 ->
  (m mod 2 ^ n = 0 -> m' = m / 2 ^ n) ->
  lo * 2 ^ (- (e + n)) <= m' <= hi * 2 ^ (- (e + n)).
Proof.
  intros Hn He [Hlo Hhi] Hm' Hex.
  assert (Hp : 0 < 2 ^ n) by (apply Z.pow_pos_nonneg; lia).
  assert (Hpe : 2 ^ (- e) = 2 ^ (- (e + n)) * 2 ^ n).
  { rewrite <- Z.pow_add_r by lia. f_equal. lia. }
  rewrite Hpe in Hlo, Hhi.
  set (L := lo * 2 ^ (- (e + n))) in *.
  set (H := hi * 2 ^ (- (e + n))) in *.
  assert (HL : L * 2 ^ n <= m) by (subst L; lia).
  assert (HH : m <= H * 2 ^ n) by (subst H; lia).
  split.
  - assert (L <= m / 2 ^ n) by (apply Z.div_le_lower_bound; lia). lia.
  - destruct (Z.eq_dec (m mod 2 ^ n) 0) as [H0|H0].
    + rewrite (Hex H0). apply Z.div_le_upper_bound; lia.
    + assert (m <> H * 2 ^ n).
      { intros ->. apply H0. apply Z.mod_mul. lia. }
      assert (m / 2 ^ n < H) by (apply Z.div_lt_upper_bound; lia).
      lia.
Qed.

Lemma fexp_le_0 (m e hi : Z) :
  0 <= m -> m <= hi * 2 ^ (- e) -> hi < 2 ^ 53 -> e <= 0 ->
  fexp prec emax (Zdigits2 m + e) <= 0.
Proof.
  intros Hm Hhi Hb He. unfold fexp, SpecFloat.emin, prec, emax.
  apply Z.max_lub; [|lia].
  destruct (Z.eq_dec m 0) as [->|Hne]; [cbn; lia|].
  destruct (Zdigits2_bound m Hm) as [_ Hd]. specialize (Hd ltac:(lia)).
  assert (Hlt : m < 2 ^ 53 * 2 ^ (- e)).
  { assert (0 < 2 ^ (- e)) by (apply Z.pow_pos_nonneg; lia). nia. }
  rewrite <- Z.pow_add_r in Hlt by lia.
  assert (Hpow : 2 ^ (Zdigits2 m - 1) < 2 ^ (53 + - e)) by lia.
  apply Z.pow_lt_mono_r_iff in Hpow; lia.
Qed.

(** Rounding keeps a value between the integers it lies between. *)
Lemma binary_round_aux_bounds (s : bool) (m : positive) (e lo hi : Z) :
  e <= 0 -> 0 <= lo -> hi < 2 ^ 53 ->
  lo * 2 ^ (- e) <= Z.pos m <= hi * 2 ^ (- e) ->
  (lo = 0 /\ binary_round_aux prec emax s (Z.pos m) e loc_Exact = S754_zero s)
  \/ exists m' e',
       binary_round_aux prec emax s (Z.pos m) e loc_Exact
       = S754_finite s m' e'
       /\ e <= e' <= 0
       /\ lo * 2 ^ (- e') <= Z.pos m' <= hi * 2 ^ (- e').
Proof.
  intros He Hlo Hhi Hb. unfold binary_round_aux.
  destruct (shr_fexp_spec (Z.pos m) e ltac:(lia))
    as (n & mrs & -> & Hn & Hen & Hq & Hex).
  destruct (round_nearest_even_bracket mrs) as [Hbr Hexact].
  set (m1 := round_nearest_even (shr_m mrs) (loc_of_shr_record mrs)) in *.
  assert (He1 : e + n <= 0).
  { destruct Hen as [-> | ->]; [lia|].
    apply (fexp_le_0 _ _ hi); lia. }
  assert (Hb1 : lo * 2 ^ (- (e + n)) <= m1 <= hi * 2 ^ (- (e + n))).
  { apply (shift_bounds (Z.pos m) e n lo hi m1); auto.
    - rewrite <- Hq. exact Hbr.
    - intros H0. rewrite <- Hq. auto. }
  assert (Hm1 : 0 <= m1).
  { assert (0 <= 2 ^ (- (e + n))) by (apply Z.pow_nonneg; lia). nia. }
  destruct (shr_fexp_spec m1 (e + n) Hm1)
    as (n' & mrs' & -> & Hn' & Hen' & Hq' & _).
  assert (He2 : e + n + n' <= 0).
  { destruct Hen' as [-> | ->]; [lia|].
    apply (fexp_le_0 _ _ hi); lia. }
  assert (Hb2 : lo * 2 ^ (- (e + n + n')) <= shr_m mrs'
                <= hi * 2 ^ (- (e + n + n'))).
  { rewrite Hq'.
    assert (Hp : 0 < 2 ^ n') by (apply Z.pow_pos_nonneg; lia).
    assert (Hpe : 2 ^ (- (e + n)) = 2 ^ (- (e + n + n')) * 2 ^ n').
    { rewrite <- Z.pow_add_r by lia. f_equal. lia. }
    rewrite Hpe in Hb1. split.
    - apply Z.div_le_lower_bound; lia.
    - apply Z.div_le_upper_bound; lia. }
  destruct (shr_m mrs') as [|m2|m2] eqn:Hm2.
  - left. split; [|reflexivity].
    assert (0 < 2 ^ (- (e + n + n'))) by (apply Z.pow_pos_nonneg; lia).
    nia.
  - right. exists m2, (e + n + n').
    replace (e + n + n' <=? emax - prec)%Z with true
      by (symmetry; apply Z.leb_le; unfold emax, prec; lia).
    split; [reflexivity|]. split; [lia|exact Hb2].
  - exfalso.
    assert (0 <= 2 ^ (- (e + n + n'))) by (apply Z.pow_nonneg; lia).
    assert (0 <= m1 / 2 ^ n') by (apply Z.div_pos; [lia|apply Z.pow_pos_nonneg; lia]).
    lia.
Qed.

Lemma shl_align_spec (mx : positive) (ex ex' : Z) :
  snd (shl_align mx ex ex') = Z.min ex ex'
  /\ Z.pos (fst (shl_align mx ex ex'))
     = Z.pos mx * 2 ^ (ex - Z.min ex ex').
Proof.
  unfold shl_align. destruct (ex' - ex) as [|d|d] eqn:Hd; cbn [fst snd].
  - rewrite Z.min_l by lia. rewrite Z.sub_diag. split; lia.
  - rewrite Z.min_l by lia. rewrite Z.sub_diag. split; lia.
  - rewrite Z.min_r by lia. split; [reflexivity|].
    change (Pos.iter xO mx d) with (shift_pos d mx).
    rewrite shift_pos_correct, Z.pow_pos_fold.
    replace (ex - ex') with (Z.pos d) by lia. ring.
Qed.

Lemma binary_round_bounds (s : bool) (m : positive) (e lo hi : Z) :
  e <= 0 -> 0 < lo -> hi < 2 ^ 53 ->
  lo * 2 ^ (- e) <= Z.pos m <= hi * 2 ^ (- e) ->
  exists m' e',
    binary_round prec emax s m e = S754_finite s m' e'
    /\ e' <= 0
    /\ lo * 2 ^ (- e') <= Z.pos m' <= hi * 2 ^ (- e').
Proof.
  intros He Hlo Hhi Hb. unfold binary_round.
  destruct (shl_align_spec m e (fexp prec emax (Z.pos (digits2_pos m) + e)))
    as [He' Hm'].
  destruct (shl_align m e _) as [mz ez]. cbn [fst snd] in He', Hm'.
  assert (Hez : ez <= e) by lia.
  assert (Hpe : 2 ^ (- ez) = 2 ^ (- e) * 2 ^ (e - ez)).
  { rewrite <- Z.pow_add_r by lia. f_equal. lia. }
  assert (Hp : 0 < 2 ^ (e - ez)) by (apply Z.pow_pos_nonneg; lia).
  destruct (binary_round_aux_bounds s mz ez lo hi) as [[H0 _]|Hr];
    [lia|lia|lia| |lia|].
  { rewrite Hm', Hpe, <- He'. nia. }
  destruct Hr as (m' & e' & Hr & He1 & Hb1).
  exists m', e'. split; [exact Hr|]. split; [lia|exact Hb1].
Qed.

End Binary64.

Section Binary64Integers.

Lemma binary_round_sign (m : positive) (e : Z) :
  binary_round prec emax true m e = SFopp (binary_round prec emax false m e).
Proof.
  unfold binary_round, binary_round_aux.
  destruct (shl_align m e _) as [mz ez].
  destruct (shr_fexp prec emax (Z.pos mz) ez loc_Exact) as [mrs e'].
  destruct (shr_fexp prec emax _ e' loc_Exact) as [mrs' e''].
  destruct (shr_m mrs'); try reflexivity.
  destruct (e'' <=? emax - prec)%Z; reflexivity.
Qed.

Lemma binary_normalize_opp (z e : Z) :
  z <> 0 ->
  binary_normalize prec emax (- z) e false
  = SFopp (binary_normalize prec emax z e false).
Proof.
  intros Hz. destruct z as [|p|p]; [lia| |].
  - cbn [Z.opp binary_normalize]. apply binary_round_sign.
  - change (- Z.neg p) with (Z.pos p). cbn [binary_normalize].
    rewrite binary_round_sign.
    now destruct (binary_round prec emax false p e) as [[]|[]| |[] ? ?].
Qed.

Lemma valid_binary_opp (x : spec_float) :
  valid_binary (SFopp x) = valid_binary x.
Proof. now destruct x. Qed.

Lemma binary_normalize_valid (z : Z) :
  - 2 ^ 63 < z < 2 ^ 63 ->
  valid_binary (binary_normalize prec emax z 0 false) = true.
Proof.
  assert (Hpos : forall z, 0 <= z < 2 ^ 63 ->
            valid_binary (binary_normalize prec emax z 0 false) = true).
  { intros n Hn.
    assert (Hphi : Uint63.to_Z (Uint63.of_Z n) = n).
    { rewrite Uint63.of_Z_spec. apply Z.mod_small. exact Hn. }
    rewrite <- Hphi, <- of_uint63_spec. apply Prim2SF_valid. }
  intros Hz. destruct (Z.le_gt_cases 0 z) as [H0|H0]; [apply Hpos; lia|].
  replace z with (- - z) by lia.
  rewrite binary_normalize_opp, valid_binary_opp by lia.
  apply Hpos. lia.
Qed.


Lemma Prim2SF_of_Z (z : Z) :
  - 2 ^ 63 < z < 2 ^ 63 ->
  Prim2SF (Js.of_Z z) = binary_normalize prec emax z 0 false.
Proof.
  intros Hz. unfold Js.of_Z. apply Prim2SF_SF2Prim, binary_normalize_valid, Hz.
Qed.

(** An integer's multiple of a power of two, normalised, is a float whose
    value is that integer. *)
Lemma binary_normalize_int (d e : Z) :
  e <= 0 -> d <> 0 -> - 2 ^ 53 < d < 2 ^ 53 ->
  exists m' e',
    binary_normalize prec emax (d * 2 ^ (- e)) e false
    = S754_finite (d <? 0)%Z m' e'
    /\ e' <= 0
    /\ Z.pos m' = Z.abs d * 2 ^ (- e').
Proof.
  intros He Hd Hb.
  assert (Hp : 0 < 2 ^ (- e)) by (apply Z.pow_pos_nonneg; lia).
  destruct (d * 2 ^ (- e)) as [|p|p] eqn:Hm; [nia| |].
  - assert (0 < d) by nia.
    destruct (binary_round_bounds false p e d d) as (m' & e' & Hr & He' & Hb');
      [lia|lia|lia|lia|].
    exists m', e'. cbn [binary_normalize].
    replace (d <? 0)%Z with false by (symmetry; apply Z.ltb_ge; lia).
    split; [exact Hr|]. split; [exact He'|]. rewrite Z.abs_eq by lia. lia.
  - assert (d < 0) by nia.
    destruct (binary_round_bounds true p e (- d) (- d))
      as (m' & e' & Hr & He' & Hb'); [lia|lia|lia|lia|].
    exists m', e'. cbn [binary_normalize].
    replace (d <? 0)%Z with true by (symmetry; apply Z.ltb_lt; lia).
    split; [exact Hr|]. split; [exact He'|]. rewrite Z.abs_neq by lia. lia.
Qed.

Lemma pow2_bracket_unique (x a b : Z) :
  2 ^ (a - 1) <= x < 2 ^ a -> 2 ^ (b - 1) <= x < 2 ^ b ->
  0 < a -> 0 < b -> a = b.
Proof.
  intros [Ha1 Ha2] [Hb1 Hb2] Ha Hb.
  assert (H1 : 2 ^ (a - 1) < 2 ^ b) by lia.
  assert (H2 : 2 ^ (b - 1) < 2 ^ a) by lia.
  apply Z.pow_lt_mono_r_iff in H1; [|lia|lia].
  apply Z.pow_lt_mono_r_iff in H2; [|lia|lia].
  lia.
Qed.

(** Two valid floats with the same sign and the same integer value are
    the same float. *)
Lemma canonical_unique (s : bool) (m1 m2 : positive) (e1 e2 D : Z) :
  valid_binary (S754_finite s m1 e1) = true ->
  valid_binary (S754_finite s m2 e2) = true ->
  e1 <= 0 -> e2 <= 0 ->
  Z.pos m1 = D * 2 ^ (- e1) -> Z.pos m2 = D * 2 ^ (- e2) ->
  S754_finite s m1 e1 = S754_finite s m2 e2.
Proof.
  unfold valid_binary, bounded, canonical_mantissa.
  intros Hv1 Hv2 He1 He2 Hm1 Hm2.
  apply andb_prop in Hv1 as [Hc1 _]. apply andb_prop in Hv2 as [Hc2 _].
  apply Z.eqb_eq in Hc1, Hc2.
  assert (HD : 0 < D).
  { assert (0 < 2 ^ (- e1)) by (apply Z.pow_pos_nonneg; lia). nia. }
  pose proof (digits2_pos_spec m1) as Hd1.
  pose proof (digits2_pos_spec m2) as Hd2.
  destruct (Zdigits2_bound D ltac:(lia)) as [HDu HDl].
  specialize (HDl HD).
  assert (Hk : 0 < Zdigits2 D) by (destruct D; cbn; lia).
  set (k := Zdigits2 D) in *.
  assert (Hs : forall m e, e <= 0 -> Z.pos m = D * 2 ^ (- e) ->
            2 ^ (Z.pos (digits2_pos m) - 1) <= Z.pos m
              < 2 ^ Z.pos (digits2_pos m) ->
            Z.pos (digits2_pos m) + e = k).
  { intros m e He Hm Hd.
    assert (Hp : 0 < 2 ^ (- e)) by (apply Z.pow_pos_nonneg; lia).
    assert (Hbr : 2 ^ (k - e - 1) <= Z.pos m < 2 ^ (k - e)).
    { replace (k - e - 1) with ((k - 1) + - e) by lia.
      replace (k - e) with (k + - e) by lia.
      rewrite !Z.pow_add_r by lia. nia. }
    pose proof (pow2_bracket_unique (Z.pos m) _ _ Hd Hbr ltac:(lia) ltac:(lia)).
    lia. }
  rewrite (Hs m1 e1 He1 Hm1 Hd1) in Hc1.
  rewrite (Hs m2 e2 He2 Hm2 Hd2) in Hc2.
  assert (e1 = e2) by congruence. subst e2.
  assert (Z.pos m1 = Z.pos m2) by congruence.
  congruence.
Qed.

(** Subtracting one integer below 2^53 from another is exact when the
    difference is below 2^53 too. *)
Lemma of_Z_sub (a b : Z) :
  - 2 ^ 53 < a < 2 ^ 53 -> - 2 ^ 53 < b < 2 ^ 53 ->
  - 2 ^ 53 < a - b < 2 ^ 53 ->
  (Js.of_Z a - Js.of_Z b)%float = Js.of_Z (a - b).
Proof.
  intros Ha Hb Hd. apply Prim2SF_inj.
  pose proof (Prim2SF_valid (Js.of_Z a - Js.of_Z b)) as Hv.
  pose proof (Prim2SF_valid (Js.of_Z (a - b))) as Hv'.
  rewrite sub_spec in *. rewrite !Prim2SF_of_Z in * by lia.
  unfold SF64sub in *.
  destruct (Z.eq_dec a 0) as [->|Ha0]; [|destruct (Z.eq_dec b 0) as [->|Hb0]].
  - destruct (Z.eq_dec b 0) as [->|Hb0]; [reflexivity|].
    change (0 - b) with (- b). rewrite binary_normalize_opp by assumption.
    destruct (binary_normalize_int b 0) as (m & e & Hr & _); [lia..|].
    rewrite Z.mul_1_r in Hr. rewrite Hr. reflexivity.
  - rewrite Z.sub_0_r.
    destruct (binary_normalize_int a 0) as (m & e & Hr & _); [lia..|].
    rewrite Z.mul_1_r in Hr. rewrite Hr. reflexivity.
  - destruct (binary_normalize_int a 0) as (ma & ea & Hra & Hea & Hma);
      [lia..|].
    destruct (binary_normalize_int b 0) as (mb & eb & Hrb & Heb & Hmb);
      [lia..|].
    rewrite Z.mul_1_r in Hra, Hrb. rewrite Hra, Hrb in *.
    cbn [SFsub] in *.
    destruct (shl_align_spec ma ea (Z.min ea eb)) as [_ Hsa].
    destruct (shl_align_spec mb eb (Z.min ea eb)) as [_ Hsb].
    replace (Z.min ea (Z.min ea eb)) with (Z.min ea eb) in Hsa by lia.
    replace (Z.min eb (Z.min ea eb)) with (Z.min ea eb) in Hsb by lia.
    set (ez := Z.min ea eb) in *.
    assert (Hez : ez <= 0) by lia.
    assert (Hpa : 2 ^ (- ea) * 2 ^ (ea - ez) = 2 ^ (- ez)).
    { rewrite <- Z.pow_add_r by lia. f_equal. lia. }
    assert (Hpb : 2 ^ (- eb) * 2 ^ (eb - ez) = 2 ^ (- ez)).
    { rewrite <- Z.pow_add_r by lia. f_equal. lia. }
    assert (HA : cond_Zopp (a <? 0)%Z (Z.pos (fst (shl_align ma ea ez)))
                 = a * 2 ^ (- ez)).
    { rewrite Hsa, Hma, <- Z.mul_assoc, Hpa.
      destruct (Z.ltb_spec a 0); cbn [cond_Zopp].
      - rewrite Z.abs_neq by lia. ring.
      - rewrite Z.abs_eq by lia. ring. }
    assert (HB : cond_Zopp (b <? 0)%Z (Z.pos (fst (shl_align mb eb ez)))
                 = b * 2 ^ (- ez)).
    { rewrite Hsb, Hmb, <- Z.mul_assoc, Hpb.
      destruct (Z.ltb_spec b 0); cbn [cond_Zopp].
      - rewrite Z.abs_neq by lia. ring.
      - rewrite Z.abs_eq by lia. ring. }
    rewrite HA, HB in *. rewrite <- Z.mul_sub_distr_r in *.
    destruct (Z.eq_dec (a - b) 0) as [H0|H0].
    + rewrite H0. reflexivity.
    + destruct (binary_normalize_int (a - b) ez) as (m1 & e1 & Hr1 & He1 & Hm1);
        [lia..|].
      destruct (binary_normalize_int (a - b) 0) as (m2 & e2 & Hr2 & He2 & Hm2);
        [lia..|].
      rewrite Z.mul_1_r in Hr2. rewrite Hr1, Hr2 in *.
      eapply canonical_unique; eauto.
Qed.

End Binary64Integers.

Section Binary64Draw.

(** A float in [[0, 1)]. *)
Lemma unit_interval_float (r : float) :
  (0 <=? r)%float = true -> (r <? 1)%float = true ->
  (exists s, Prim2SF r = S754_zero s)
  \/ exists m e,
       Prim2SF r = S754_finite false m e /\ e <= - 53 /\ Z.pos m < 2 ^ 53.
Proof.
  rewrite leb_spec, ltb_spec.
  pose proof (Prim2SF_valid r) as Hv.
  assert (H0 : Prim2SF 0 = S754_zero false) by (vm_compute; reflexivity).
  assert (H1 : Prim2SF 1 = S754_finite false 4503599627370496 (-52))
    by (vm_compute; reflexivity).
  rewrite H0, H1. clear H0 H1.
  unfold SFleb, SFltb, SFcompare.
  destruct (Prim2SF r) as [s|s| |s m e]; try discriminate.
  - eauto.
  - destruct s; discriminate.
  - destruct s; [discriminate|]. intros _ Hlt. right. exists m, e.
    split; [reflexivity|].
    assert (He : e < -52 \/ (e = -52 /\ Z.pos m < 4503599627370496)).
    { destruct (Z.compare_spec e (-52)) as [He|He|He];
        [|left; exact He|discriminate].
      right. split; [exact He|].
      rewrite Pos.compare_cont_spec in Hlt.
      destruct (Pos.compare_spec m 4503599627370496) as [Hcmp|Hcmp|Hcmp];
        try discriminate.
      apply Pos2Z.pos_lt_pos in Hcmp. exact Hcmp. }
    clear Hlt.
    unfold valid_binary, bounded, canonical_mantissa in Hv.
    apply andb_prop in Hv as [Hc _]. apply Z.eqb_eq in Hc.
    unfold fexp, SpecFloat.emin, prec, emax in Hc.
    pose proof (digits2_pos_spec m) as Hd.
    assert (Hdig : Z.pos (digits2_pos m) <= 53) by lia.
    assert (Hm : Z.pos m < 2 ^ 53).
    { destruct Hd as [_ Hd]. eapply Z.lt_le_trans; [exact Hd|].
      apply Z.pow_le_mono_r; lia. }
    split; [|exact Hm].
    destruct He as [He|[-> Hlt]]; [lia|]. exfalso.
    assert (Hd53 : Z.pos (digits2_pos m) = 53) by lia.
    rewrite Hd53 in Hd.
    change (2 ^ (53 - 1)) with 4503599627370496 in Hd. lia.
Qed.


(** [Math.round] of a positive float between two integers is an integer
    between them. *)
Lemma Math_round_bounds (x : float) (m : positive) (e lo hi : Z) :
  Prim2SF x = S754_finite false m e ->
  e <= 0 -> 0 < lo -> hi < 2 ^ 52 ->
  lo * 2 ^ (- e) <= Z.pos m <= hi * 2 ^ (- e) ->
  exists k, lo <= k <= hi /\ Js.Math_round x = Js.of_Z k.
Proof.
  intros Hx He Hlo Hhi [Hb1 Hb2].
  pose proof (Prim2SF_valid x) as Hv. rewrite Hx in Hv.
  unfold valid_binary, bounded, canonical_mantissa in Hv.
  apply andb_prop in Hv as [Hc _]. apply Z.eqb_eq in Hc.
  unfold fexp, SpecFloat.emin, prec, emax in Hc.
  pose proof (digits2_pos_spec m) as Hd.
  assert (He0 : e < 0).
  { destruct (Z.eq_dec e 0) as [->|]; [exfalso|lia].
    assert (Hd53 : Z.pos (digits2_pos m) = 53) by lia.
    rewrite Hd53 in Hd. cbn [Z.opp] in Hb2. rewrite Z.pow_0_r in Hb2.
    assert (2 ^ 52 <= Z.pos m) by (destruct Hd as [Hd _]; exact Hd).
    lia. }
  clear Hc Hd.
  unfold Js.Math_round. rewrite Hx.
  replace (0 <=? e)%Z with false by (symmetry; apply Z.leb_gt; lia).
  cbn [cond_Zopp andb]. rewrite Bool.andb_false_r.
  set (P := 2 ^ (- e)) in *.
  assert (HP : 0 < P) by (apply Z.pow_pos_nonneg; lia).
  assert (HP2 : 2 ^ (1 - e) = 2 * P).
  { unfold P. replace (1 - e) with (Z.succ (- e)) by lia.
    rewrite Z.pow_succ_r by lia. reflexivity. }
  rewrite HP2.
  exists ((Z.pos m * 2 + P) / (2 * P)). split; [|reflexivity].
  split.
  - apply Z.div_le_lower_bound; nia.
  - assert ((Z.pos m * 2 + P) / (2 * P) < hi + 1); [|lia].
    apply Z.div_lt_upper_bound; nia.
Qed.

(** The dummy level is a whole number from 65 to 90, whatever the draw. *)
Lemma dummyLevel_range (r : float) :
  (0 <=? r)%float = true -> (r <? 1)%float = true ->
  exists k, 65 <= k <= 90 /\ Provider.dummyLevel r = Js.of_Z k.
Proof.
  intros H0 H1. unfold Provider.dummyLevel.
  assert (H25 : Prim2SF 25 = S754_finite false 7036874417766400 (-48))
    by (vm_compute; reflexivity).
  assert (H65 : Prim2SF 65 = S754_finite false 4573968371548160 (-46))
    by (vm_compute; reflexivity).
  assert (Hsum : exists m e,
            Prim2SF (65 + r * 25) = S754_finite false m e
            /\ e <= 0 /\ 65 * 2 ^ (- e) <= Z.pos m <= 90 * 2 ^ (- e)).
  { rewrite add_spec, mul_spec, H25, H65. unfold SF64add, SF64mul.
    assert (Hsame : exists m e,
              S754_finite false 4573968371548160 (-46)
              = S754_finite false m e
              /\ e <= 0 /\ 65 * 2 ^ (- e) <= Z.pos m <= 90 * 2 ^ (- e)).
    { exists 4573968371548160%positive, (-46). split; [reflexivity|].
      split; [lia|]. change (2 ^ (- -46)) with 70368744177664. lia. }
    destruct (unit_interval_float r H0 H1) as [[s ->]|(m & e & -> & He & Hm)].
    - cbn [SFmul SFadd]. exact Hsame.
    - cbn [SFmul xorb].
      destruct (binary_round_aux_bounds false (m * 7036874417766400)
                  (e + -48) 0 25) as [[_ ->]|(m1 & e1 & -> & He1 & Hb1)];
        [lia|lia|lia| |exact Hsame|].
      { split; [lia|].
        rewrite Pos2Z.inj_mul.
        replace (- (e + -48)) with (- e - 53 + 101) by lia.
        rewrite Z.pow_add_r by lia.
        assert (1 <= 2 ^ (- e - 53)) by (apply Z.pow_le_mono_r with (b := 0); lia).
        change (2 ^ 101) with 2535301200456458802993406410752.
        change (2 ^ 53) with 9007199254740992 in Hm. nia. }
      cbn [SFadd cond_Zopp].
      destruct (shl_align_spec 4573968371548160 (-46) (Z.min (-46) e1))
        as [_ Ha].
      destruct (shl_align_spec m1 e1 (Z.min (-46) e1)) as [_ Hb].
      replace (Z.min (-46) (Z.min (-46) e1)) with (Z.min (-46) e1) in Ha
        by lia.
      replace (Z.min e1 (Z.min (-46) e1)) with (Z.min (-46) e1) in Hb by lia.
      set (ez := Z.min (-46) e1) in *.
      set (a' := fst (shl_align 4573968371548160 (-46) ez)) in *.
      set (b' := fst (shl_align m1 e1 ez)) in *.
      change (Z.pos a' + Z.pos b') with (Z.pos (a' + b')).
      cbn [binary_normalize].
      assert (Hez : ez <= 0) by lia.
      assert (Hpa : 4573968371548160 * 2 ^ (-46 - ez) = 65 * 2 ^ (- ez)).
      { replace (- ez) with (46 + (-46 - ez)) by lia.
        rewrite Z.pow_add_r by lia.
        change (2 ^ 46) with 70368744177664. ring. }
      assert (Hpb : 2 ^ (- e1) * 2 ^ (e1 - ez) = 2 ^ (- ez)).
      { rewrite <- Z.pow_add_r by lia. f_equal. lia. }
      assert (Hp1 : 0 < 2 ^ (e1 - ez)) by (apply Z.pow_pos_nonneg; lia).
      assert (Hp2 : 0 < 2 ^ (- ez)) by (apply Z.pow_pos_nonneg; lia).
      destruct (binary_round_bounds false (a' + b') ez 65 90)
        as (m2 & e2 & Hr2 & He2 & Hb2); [lia|lia|lia| |].
      { rewrite Pos2Z.inj_add, Ha, Hb, Hpa. nia. }
      exists m2, e2. auto. }
  destruct Hsum as (m & e & Hx & He & Hb).
  apply (Math_round_bounds _ m e 65 90 Hx); auto; lia.
Qed.

End Binary64Draw.

(** Subtracting [NaN] gives [NaN]. *)
Lemma float_sub_nan_r (v : float) : (v - nan)%float = nan.
Proof.
  apply Prim2SF_inj. rewrite sub_spec. unfold SF64sub.
  change (Prim2SF nan) with S754_nan.
  destruct (Prim2SF v); reflexivity.
Qed.

Section GamepadFacts.

Context (mappings : gmap string Gamepad.Mapping).
Context (isActionActive : string -> bool).
Context (getAxisValueForAction : string -> option float).

Abbreviation accelerateValue :=
  (Gamepad.accelerateValue mappings isActionActive getAxisValueForAction).
Abbreviation brakeValue :=
  (Gamepad.brakeValue mappings isActionActive getAxisValueForAction).
Abbreviation computeSpeed :=
  (Gamepad.computeSpeed mappings isActionActive getAxisValueForAction).
Abbreviation getActionValue :=
  (Gamepad.getActionValue mappings isActionActive getAxisValueForAction).

Ltac binding_cases key :=
  unfold Gamepad.unbound, Gamepad.bound_as,
    Gamepad.accelerateValue, Gamepad.brakeValue, Gamepad.getActionValue;
  destruct (mappings !! key) as [[ty ix]|]; simpl;
  try destruct (ix =? Gamepad.NOT_SET)%Z; simpl;
  try discriminate; try reflexivity.

Lemma accelerateValue_unbound :
  Gamepad.unbound mappings "accelerate" = true -> accelerateValue = 0%float.
Proof. binding_cases "accelerate". Qed.

Lemma brakeValue_unbound :
  Gamepad.unbound mappings "brake" = true -> brakeValue = 0%float.
Proof. binding_cases "brake". Qed.

Lemma accelerateValue_button :
  Gamepad.bound_as "button" mappings "accelerate" = true ->
  accelerateValue = if isActionActive "accelerate" then 1%float else 0%float.
Proof. binding_cases "accelerate". intros ->. reflexivity. Qed.

Lemma brakeValue_button :
  Gamepad.bound_as "button" mappings "brake" = true ->
  brakeValue = if isActionActive "brake" then 1%float else 0%float.
Proof. binding_cases "brake". intros ->. reflexivity. Qed.

Lemma accelerateValue_axis :
  Gamepad.bound_as "axis" mappings "accelerate" = true ->
  accelerateValue =
  Gamepad.nullish (getAxisValueForAction "accelerate") 0%float.
Proof.
  binding_cases "accelerate". intros H.
  apply String.eqb_eq in H. subst ty. reflexivity.
Qed.

(** C1. The composed speed is the resolved accelerate value minus the
    resolved brake value, a plain binary64 subtraction with no clamp.  Both
    actions button-bound and both pressed give 0; accelerate button-bound
    and pressed with brake unbound gives 1; accelerate axis-bound reading
    [v] with brake unbound gives [v] itself, whatever binary64 value [v]
    is. *)
Theorem computeSpeed_unclamped_difference :
  computeSpeed = (accelerateValue - brakeValue)%float
  /\ (Gamepad.bound_as "button" mappings "accelerate" = true ->
      Gamepad.bound_as "button" mappings "brake" = true ->
      isActionActive "accelerate" = true ->
      isActionActive "brake" = true ->
      computeSpeed = 0%float)
  /\ (Gamepad.bound_as "button" mappings "accelerate" = true ->
      isActionActive "accelerate" = true ->
      Gamepad.unbound mappings "brake" = true ->
      computeSpeed = 1%float)
  /\ (forall v : float,
      Gamepad.bound_as "axis" mappings "accelerate" = true ->
      getAxisValueForAction "accelerate" = Some v ->
      Gamepad.unbound mappings "brake" = true ->
      computeSpeed = v).
Proof.
  unfold Gamepad.computeSpeed. split; [reflexivity|]. repeat split.
  - intros Ha Hb Pa Pb.
    rewrite (accelerateValue_button Ha), (brakeValue_button Hb), Pa, Pb.
    reflexivity.
  - intros Ha Pa Hb.
    rewrite (accelerateValue_button Ha), (brakeValue_unbound Hb), Pa.
    reflexivity.
  - intros v Ha Hv Hb.
    rewrite (accelerateValue_axis Ha), (brakeValue_unbound Hb), Hv.
    apply float_sub_zero_r.
Qed.

End GamepadFacts.

Lemma computeSpeed_unclamped_difference_witness :
  Gamepad.computeSpeed Sample.scenario_mappings (fun _ => false)
    Sample.scenario_axis
  = 0.6%float.
Proof.
  apply (computeSpeed_unclamped_difference
           Sample.scenario_mappings (fun _ => false) Sample.scenario_axis);
    reflexivity.
Defined.

(** Nothing clamps the difference: two axes pushed apart give a speed of 2,
    outside [-1, 1]. *)
Example computeSpeed_leaves_the_unit_interval :
  Gamepad.computeSpeed Sample.opposed_mappings (fun _ => false)
    Sample.opposed_axis
  = 2%float.
Proof. reflexivity. Qed.

(** The spec's scenario, end to end in the widget: device selected, socket
    connected, accelerate on an axis reading 0.6 and brake not set; the
    next run of the bridge interval transmits a [gamepad_input] whose speed
    is 0.6 and whose [createdAt] is the tick's timestamp. *)
Example scenario_gamepad_input `{Js.Runtime} :
  WebSocketApi.transmitted <$>
    StatusWidget.ws
      (StatusWidget.run
         [StatusWidget.Mount; StatusWidget.Open; StatusWidget.Render;
          StatusWidget.IntervalFires 5000]
         (StatusWidget.initial Sample.scenario_gamepad))
  = Some [StatusWidget.gamepad_input
            {| Gamepad.speed := 0.6%float; Gamepad.turn := 0%float;
               Gamepad.turnCameraX := 0%float;
               Gamepad.turnCameraY := 0%float; Gamepad.use := false |}
            5000].
Proof. vm_compute. reflexivity. Qed.

(** C2, as the code has it.  For a binding that is not set ([index] -1, or
    no entry at all) the value is neutral whatever the device reads, but
    the neutral values are not the claimed ones: [getActionValue] returns
    [false] for accelerate and brake and the number 0 for every other
    action, [use] included; inside [computeSpeed] the accelerate and brake
    operands are the number 0. *)
Theorem unbound_resolves_to_neutral
    (mappings : gmap string Gamepad.Mapping)
    (isActionActive : string -> bool)
    (getAxisValueForAction : string -> option float) (key : string) :
  Gamepad.unbound mappings key = true ->
  Gamepad.getActionValue mappings isActionActive getAxisValueForAction key
  = (if String.eqb key "accelerate" || String.eqb key "brake"
     then Gamepad.VBool false else Gamepad.VNum 0%float)
  /\ (key = "accelerate" ->
      Gamepad.accelerateValue mappings isActionActive getAxisValueForAction
      = 0%float)
  /\ (key = "brake" ->
      Gamepad.brakeValue mappings isActionActive getAxisValueForAction
      = 0%float).
Proof.
  intros Hu. split; [|split].
  - revert Hu. unfold Gamepad.unbound, Gamepad.getActionValue.
    destruct (mappings !! key) as [m|]; [|reflexivity].
    intros ->. reflexivity.
  - intros ->. now apply accelerateValue_unbound.
  - intros ->. now apply brakeValue_unbound.
Qed.

Lemma unbound_resolves_to_neutral_witness :
  Gamepad.getActionValue Sample.nothing_bound Sample.all_pressed
    Sample.all_pushed "turn"
  = Gamepad.VNum 0%float.
Proof.
  apply (unbound_resolves_to_neutral Sample.nothing_bound Sample.all_pressed
           Sample.all_pushed "turn").
  reflexivity.
Defined.

(** C2 as stated fails on [getActionValue]: with nothing bound, accelerate
    resolves to the boolean [false], not to the number 0, and [use]
    resolves to the number 0, not to [false]. *)
Lemma unbound_neutral_values_counterexample :
  Gamepad.getActionValue Sample.nothing_bound Sample.all_pressed
    Sample.all_pushed "accelerate" = Gamepad.VBool false
  /\ Gamepad.VBool false <> Gamepad.VNum 0%float
  /\ Gamepad.getActionValue Sample.nothing_bound Sample.all_pressed
       Sample.all_pushed "use" = Gamepad.VNum 0%float
  /\ Gamepad.VNum 0%float <> Gamepad.VBool false.
Proof. repeat split; (reflexivity || discriminate). Qed.

(* --------------------------------------------------------------------- *)
(** ** The inbound dispatcher                                             *)
(* --------------------------------------------------------------------- *)

Section Dispatcher.

Context `{Js.Runtime}.

Lemma dispatch_pong (event : Js.value) (x : float) (now : Z)
    (st : Provider.State) :
  Wire.is_pong event x ->
  Provider.dispatch now event st
  = inr (Provider.setPingTime (Some (Js.of_Z now - x)%float) st).
Proof.
  intros [Hname (payload & Hdata & Hsent)].
  unfold Provider.dispatch. rewrite Hname. cbn.
  rewrite Hdata. cbn. rewrite Hsent. reflexivity.
Qed.

Lemma handle_event_pong (event : Js.value) (x : float) (now : Z)
    (st : StatusWidget.State) :
  Wire.is_pong event x ->
  StatusWidget.handle_event now event st
  = inr (StatusWidget.setPingTime (Js.of_Z now - x)%float st).
Proof.
  intros [Hname (payload & Hdata & Hsent)].
  unfold StatusWidget.handle_event. rewrite Hname. cbn.
  rewrite Hdata. cbn. rewrite Hsent. reflexivity.
Qed.

(** C4. A [pong] whose [data.sentAt] is the number [S], handled when
    [Date.now()] reads [now], leaves the provider's state as it was except
    that [pingTime] is now [now - S], the binary64 difference (and the frame
    is in the debug track): the one slot is overwritten, whatever it held.
    The widget's handler does the same to its own [pingTime].  With [S] the
    time [T] and [now = T + d] the slot holds exactly [d], for [T], [T + d]
    and [d] whole milliseconds below 2^53 in magnitude, as every reading of
    [Date.now()] and every difference of two of them is. *)
Theorem pong_overwrites_latency
    (frame : string) (event : Js.value) (S : float) (now : Z) :
  Js.JSON_parse frame = Some event ->
  Wire.is_pong event S ->
  (forall st : Provider.State,
     Provider.onmessage frame now st
     = Provider.setPingTime (Some (Js.of_Z now - S)%float)
         (Provider.track (Provider.TrackedReceived event) st))
  /\ (forall st : StatusWidget.State,
        StatusWidget.onmessage frame now st
        = StatusWidget.setPingTime (Js.of_Z now - S)%float st)
  /\ (forall (st : Provider.State) (held : option Js.number),
        Provider.onmessage frame now (Provider.setPingTime held st)
        = Provider.onmessage frame now st)
  /\ (forall (st : StatusWidget.State) (held : Js.number),
        StatusWidget.onmessage frame now (StatusWidget.setPingTime held st)
        = StatusWidget.onmessage frame now st)
  /\ (forall T d : Z,
        S = Js.of_Z T -> now = T + d ->
        - 2 ^ 53 < T < 2 ^ 53 ->
        - 2 ^ 53 < T + d < 2 ^ 53 ->
        - 2 ^ 53 < d < 2 ^ 53 ->
        (forall st : Provider.State,
           Provider.pingTime (Provider.onmessage frame now st)
           = Some (Js.of_Z d))
        /\ (forall st : StatusWidget.State,
              StatusWidget.pingTime (StatusWidget.onmessage frame now st)
              = Some (Js.of_Z d))).
Proof.
  intros Hparse Hpong.
  assert (HP : forall st, Provider.onmessage frame now st
     = Provider.setPingTime (Some (Js.of_Z now - S)%float)
         (Provider.track (Provider.TrackedReceived event) st)).
  { intros st. unfold Provider.onmessage. rewrite Hparse.
    rewrite (dispatch_pong _ _ _ _ Hpong). reflexivity. }
  assert (HW : forall st, StatusWidget.onmessage frame now st
     = StatusWidget.setPingTime (Js.of_Z now - S)%float st).
  { intros st. unfold StatusWidget.onmessage. rewrite Hparse.
    rewrite (handle_event_pong _ _ _ _ Hpong). reflexivity. }
  split; [exact HP|]. split; [exact HW|].
  split; [intros st held; now rewrite !HP|].
  split; [intros st held; now rewrite !HW|].
  intros T d -> -> HT Hnow Hdiff.
  assert (Hd : (Js.of_Z (T + d) - Js.of_Z T)%float = Js.of_Z d).
  { rewrite of_Z_sub by lia. f_equal. lia. }
  split; intros st.
  - rewrite HP, Hd. reflexivity.
  - rewrite HW, Hd. reflexivity.
Qed.

Lemma dispatch_keeps_connection (now : Z) (event : Js.value)
    (st st' : Provider.State) :
  Provider.dispatch now event st = inr st' ->
  Provider.sockets st' = Provider.sockets st
  /\ Provider.status st' = Provider.status st
  /\ Provider.intervals st' = Provider.intervals st.
Proof.
  unfold Provider.dispatch, Js.bind. intros Hd.
  repeat match type of Hd with
    | context [match ?x with _ => _ end] => destruct x; try discriminate
    end;
    injection Hd as <-; repeat split.
Qed.

(** Whatever the frame, the handler returns a state in which no socket has
    changed, the status is what it was and the heartbeat is untouched. *)
Lemma onmessage_keeps_connection (frame : string) (now : Z)
    (st : Provider.State) :
  Provider.sockets (Provider.onmessage frame now st) = Provider.sockets st
  /\ Provider.status (Provider.onmessage frame now st) = Provider.status st
  /\ Provider.intervals (Provider.onmessage frame now st)
     = Provider.intervals st.
Proof.
  unfold Provider.onmessage, Provider.report_parse_error.
  destruct (Js.JSON_parse frame) as [event|]; [|repeat split].
  destruct (Provider.dispatch now event _) as [e|st'] eqn:Hd;
    [repeat split|].
  apply dispatch_keeps_connection in Hd. exact Hd.
Qed.


End Dispatcher.

Lemma pong_overwrites_latency_witness :
  Provider.pingTime
    (Provider.onmessage (H := Sample.table_runtime)
       (Sample.pong_text "1000") 1037 (Provider.initial ∅))
  = Some 37%float.
Proof.
  assert (W : Provider.pingTime
                (Provider.onmessage (H := Sample.table_runtime)
                   (Sample.pong_text "1000") 1037 (Provider.initial ∅))
              = Some (Js.of_Z 37)).
  { refine (proj1 (proj2 (proj2 (proj2 (proj2
              (pong_overwrites_latency (H := Sample.table_runtime)
                 (Sample.pong_text "1000") (Sample.pong_event 1000)
                 1000%float 1037 _ _)))) 1000 37 _ _ _ _ _) _).
    - reflexivity.
    - split; [reflexivity|]. eexists. split; reflexivity.
    - vm_compute. reflexivity.
    - reflexivity.
    - lia.
    - lia.
    - lia. }
  rewrite W. vm_compute. reflexivity.
Defined.

(** Outside that range the stored latency is the rounded difference: a
    [sentAt] of -2^53 handled at time 1 gives 2^53, not 2^53 + 1. *)
Example latency_is_the_rounded_difference :
  (Js.of_Z 1 - Js.of_Z (- 2 ^ 53))%float = 9007199254740992%float
  /\ Js.of_Z (2 ^ 53) = 9007199254740992%float
  /\ 1 - - 2 ^ 53 = 2 ^ 53 + 1.
Proof. repeat split; vm_compute; reflexivity. Qed.


(* --------------------------------------------------------------------- *)
(** ** Commands issued while the socket is not open                       *)
(* --------------------------------------------------------------------- *)

(** [logError] only appends to the error sink. *)
Lemma logError_only_logs (msg : string)
    (d : list (string * Provider.Detail)) (st : Provider.State) :
  Provider.sockets (Provider.logError msg d st) = Provider.sockets st
  /\ Provider.intervals (Provider.logError msg d st) = Provider.intervals st
  /\ Provider.status (Provider.logError msg d st) = Provider.status st
  /\ Provider.errorSink (Provider.logError msg d st)
     = (Provider.errorSink st
        ++ [{| Provider.message := msg; Provider.details := d |}])%list.
Proof. repeat split; reflexivity. Qed.

Lemma send_or_report_closed (s : option Provider.Handle)
    (m : Provider.Envelope) (said failure : string)
    (extra : list (string * Provider.Detail)) (st : Provider.State) :
  Provider.is_open s st = false ->
  Provider.send_or_report s m said failure extra st
  = Provider.logError failure
      ([("reason", Provider.DString "Socket not connected")] ++ extra ++
       [("readyState", Provider.DReadyState (Provider.readyState_of s st))])
      st.
Proof. intros Hc. unfold Provider.send_or_report. rewrite Hc. reflexivity. Qed.


(** Every level from 65 to 90 is the level of some draw. *)
Lemma dummyLevel_onto (k : Z) :
  65 <= k <= 90 ->
  exists r : float,
    (0 <=? r)%float = true /\ (r <? 1)%float = true
    /\ Provider.dummyLevel r = Js.of_Z k.
Proof.
  intros Hk.
  exists (if (k =? 90)%Z then 0.99%float else (Js.of_Z (k - 65) / 25)%float).
  assert (Hcases : exists n : nat, (n <= 25)%nat /\ k = 65 + Z.of_nat n).
  { exists (Z.to_nat (k - 65)). lia. }
  destruct Hcases as (n & Hn & ->).
  do 26 (destruct n as [|n]; [vm_compute; auto|]). lia.
Qed.

(** C10. While the socket is not open, [requestBatteryLevel] transmits
    nothing; it stores a whole number between 65 and 90 as the battery
    level, the one [Math.round(65 + r * 25)] makes of the draw [r] in
    binary64, and every one of those 26 levels is the level of some draw;
    it dispatches [debug:battery-update] with it, leaving the very state
    the dispatcher would leave on a real [battery_info] of that level. *)
Theorem offline_battery_request_fakes_a_level
    (s : option Provider.Handle) (timestamp now : Z) (r : float)
    (st : Provider.State) :
  (0 <=? r)%float = true -> (r <? 1)%float = true ->
  Provider.is_open s st = false ->
  let level := Provider.dummyLevel r in
  let st' := Provider.requestBatteryLevel_with s timestamp now r st in
  (exists k : Z, 65 <= k <= 90 /\ level = Js.of_Z k)
  /\ (forall k : Z, 65 <= k <= 90 ->
      exists r' : float,
        (0 <=? r')%float = true /\ (r' <? 1)%float = true
        /\ Provider.dummyLevel r' = Js.of_Z k)
  /\ Provider.sockets st' = Provider.sockets st
  /\ Provider.batteryLevel st' = Js.Num level
  /\ Provider.windowEvents st'
     = (Provider.windowEvents st
        ++ [("debug:battery-update", Js.Obj [("level", Js.Num level)])])%list
  /\ (forall (R : Js.Runtime) (event : Js.value) (received : Z),
        Wire.is_battery_info event (Js.Num level) ->
        Provider.dispatch received event st = inr st').
Proof.
  intros H0 H1 Hc level st'. subst level st'.
  unfold Provider.requestBatteryLevel_with. rewrite Hc.
  split; [now apply dummyLevel_range|].
  split; [exact dummyLevel_onto|].
  repeat split.
  intros R event received [Hname (payload & Hdata & Hlevel)].
  unfold Provider.dispatch. rewrite Hname. cbn.
  rewrite Hdata. cbn. rewrite Hlevel. reflexivity.
Qed.

Lemma offline_battery_request_fakes_a_level_witness :
  Provider.batteryLevel
    (Provider.requestBatteryLevel_with None 10 11 0.5
       (Provider.initial ∅))
  = Js.Num (Provider.dummyLevel 0.5).
Proof.
  apply (offline_battery_request_fakes_a_level None 10 11 0.5
           (Provider.initial ∅)); reflexivity.
Defined.

(** The sum is rounded before [Math.round] sees it: just below one half
    [65 + r * 25] is already 77.5 in binary64, so the level is 78, where
    exact arithmetic would give 77. *)
Example dummyLevel_below_one_half :
  Provider.dummyLevel 0.5 = 78%float
  /\ Provider.dummyLevel 0.49999999999999994 = 78%float
  /\ Provider.dummyLevel 0 = 65%float
  /\ Provider.dummyLevel 0.9999999999999999 = 90%float.
Proof. repeat split; vm_compute; reflexivity. Qed.

(** C8, as the code has it.  A command issued while the socket is not open
    transmits nothing and keeps nothing to send later.  Seven commands
    report to [logError], naming what could not be sent, the reason and the
    socket's [readyState] ([sendRobotCommand], and [restartCameraFeed]
    through it, also the command); [sendGamepadState] does nothing at all,
    and [requestBatteryLevel] reports nothing either. *)
Theorem offline_commands_send_nothing
    (s : option Provider.Handle) (st : Provider.State) :
  Provider.is_open s st = false ->
  let report failure extra :=
    Provider.logError failure
      ([("reason", Provider.DString "Socket not connected")] ++ extra ++
       [("readyState", Provider.DReadyState (Provider.readyState_of s st))])
      st in
  (forall gamepadState now,
     Provider.sendGamepadState_with s gamepadState now st = st)
  /\ (forall timestamp now r,
        let st' := Provider.requestBatteryLevel_with s timestamp now r st in
        Provider.sockets st' = Provider.sockets st
        /\ Provider.errorSink st' = Provider.errorSink st
        /\ Provider.intervals st' = Provider.intervals st)
  /\ (forall command timestamp now,
        Provider.sendRobotCommand_with s command timestamp now st
        = report "Cannot send robot command"
            [("command", Provider.DString command)])
  /\ (forall timestamp now,
        Provider.restartCameraFeed_with s timestamp now st
        = report "Cannot send robot command"
            [("command", Provider.DString "restart_camera_feed")])
  /\ (forall newSettings timestamp now,
        Provider.updateSettings_with s newSettings timestamp now st
        = report "Cannot send settings update" [])
  /\ (forall text timestamp now,
        Provider.speakText_with s text timestamp now st
        = report "Cannot send text to speak" [])
  /\ (forall sound timestamp now,
        Provider.playSound_with s sound timestamp now st
        = report "Cannot send sound to play" [])
  /\ (forall timestamp now,
        Provider.scanNetworks_with s timestamp now st
        = report "Cannot send network scan request" [])
  /\ (forall action networkData timestamp now,
        Provider.updateNetwork_with s action networkData timestamp now st
        = report "Cannot send network update" [])
  /\ (forall prompt useCamera timestamp now,
        Provider.sendGptCommand_with s prompt useCamera timestamp now st
        = report "Cannot send GPT command" [])
  /\ (forall failure extra,
        Provider.sockets (report failure extra) = Provider.sockets st
        /\ Provider.intervals (report failure extra) = Provider.intervals st).
Proof.
  intros Hc report. subst report. cbv beta.
  repeat match goal with |- _ /\ _ => split end; intros;
    try (now apply send_or_report_closed).
  - unfold Provider.sendGamepadState_with. rewrite Hc. reflexivity.
  - subst st'. unfold Provider.requestBatteryLevel_with. rewrite Hc.
    repeat split.
  - split; reflexivity.
Qed.

Lemma offline_commands_send_nothing_witness :
  Provider.sendGamepadState_with None (Js.Obj []) 5 (Provider.initial ∅)
  = Provider.initial ∅.
Proof.
  apply (offline_commands_send_nothing None (Provider.initial ∅)).
  reflexivity.
Defined.

(** C8 as stated fails: with no socket open, [sendGamepadState] and
    [requestBatteryLevel] leave the error sink empty, and the latter
    changes the battery level instead. *)
Lemma offline_send_not_reported_counterexample :
  Provider.errorSink
    (Provider.sendGamepadState_with None (Js.Obj [("speed", Js.Num 1)]) 5
       (Provider.initial ∅)) = []
  /\ Provider.errorSink
       (Provider.requestBatteryLevel_with None 10 11 0.5
          (Provider.initial ∅)) = []
  /\ Provider.batteryLevel
       (Provider.requestBatteryLevel_with None 10 11 0.5
          (Provider.initial ∅)) = Js.Num 78
  /\ Provider.is_open None (Provider.initial ∅) = false.
Proof. repeat split. Qed.
(* --------------------------------------------------------------------- *)
(** ** The connection: at most one live socket                            *)
(* --------------------------------------------------------------------- *)

Section Aging.

Import WebSocketApi Provider Connection.

Lemma not_live_true (w : WebSocket Envelope) :
  live w <> true <-> live w = false.
Proof. destruct (live w); split; congruence. Qed.

Lemma ages_refl (e : Endpoint) : ages e e.
Proof. repeat split; auto. Qed.

Lemma ages_trans (e1 e2 e3 : Endpoint) :
  ages e1 e2 -> ages e2 e3 -> ages e1 e3.
Proof.
  intros (Hc1 & Hl1 & Hn1 & Hs1) (Hc2 & Hl2 & Hn2 & Hs2).
  split; [congruence|]. split; [auto|]. split.
  - intros Hn. apply Hn2 in Hn as [Hn Ht2]. apply Hn1 in Hn as [Hn Ht1].
    split; congruence.
  - intros Hd. rewrite <- (Hs1 Hd). apply Hs2.
    apply not_live_true. intros Hl. apply Hl1 in Hl. congruence.
Qed.

Lemma Forall2_ages_refl (l : list Endpoint) : Forall2 ages l l.
Proof. induction l; constructor; auto using ages_refl. Qed.

Lemma Forall2_ages_trans (l1 l2 l3 : list Endpoint) :
  Forall2 ages l1 l2 -> Forall2 ages l2 l3 -> Forall2 ages l1 l3.
Proof.
  intros H12. revert l3.
  induction H12; intros l3 H23; inversion H23; subst; constructor;
    eauto using ages_trans.
Qed.

Lemma quiet_refl (st : State) : quiet st st.
Proof. constructor; auto using Forall2_ages_refl. Qed.

Lemma quiet_trans (a b c : State) : quiet a b -> quiet b c -> quiet a c.
Proof.
  intros [Hl1 Ht1 Hs1 Hr1 Hk1 Hi1] [Hl2 Ht2 Hs2 Hr2 Hk2 Hi2]. constructor.
  - congruence.
  - lia.
  - congruence.
  - congruence.
  - eauto using Forall2_ages_trans.
  - destruct Hi2 as [[Hi2 Hp2]|Hi2]; [|now right].
    destruct Hi1 as [[Hi1 Hp1]|Hi1].
    + left. split; congruence.
    + right. congruence.
Qed.

(** A step that touches neither the sockets nor the heartbeat. *)
Lemma quiet_same (a b c : State) :
  lifecycle c = lifecycle b -> reconnectTrigger c = reconnectTrigger b ->
  socket c = socket b ->
  socketRef c = socketRef b -> pingIntervalRef c = pingIntervalRef b ->
  intervals c = intervals b -> sockets c = sockets b ->
  quiet a b -> quiet a c.
Proof.
  intros Hl Ht Hs Hr Hp Hi Hk Hq. apply (quiet_trans a b c Hq).
  constructor; auto; [lia|]. rewrite Hk. apply Forall2_ages_refl.
Qed.

End Aging.

(** Peels the setters and sink writes off the state on the right. *)
Ltac quiet_peel :=
  repeat lazymatch goal with
    | |- Connection.quiet ?a ?a => apply quiet_refl
    | H : Connection.quiet ?a ?b |- Connection.quiet ?a ?b => exact H
    | |- Connection.quiet ?a (?f ?b) =>
        apply (quiet_same a b (f b)); [reflexivity..|]
    end.

Section ConnectionFacts.

Import WebSocketApi Provider Connection.

Context `{Js.Runtime}.

Lemma ages_close (e : Endpoint) : ages e (on_sock close e).
Proof.
  destruct e as [[u r t d] c]. unfold on_sock, close, set_readyState, live.
  destruct r; cbn; repeat split; auto; discriminate.
Qed.

Lemma ages_closed (e : Endpoint) : ages e (on_sock (set_readyState CLOSED) e).
Proof.
  destruct e as [[u r t d] c]. unfold on_sock, set_readyState, live.
  cbn. repeat split; auto; discriminate.
Qed.

Lemma ages_send (m : Envelope) (e : Endpoint) (w' : WebSocket Envelope) :
  send m (sock e) = inr w' -> ages e (on_sock (fun _ => w') e).
Proof.
  destruct e as [[u r t d] c]. unfold on_sock, send, live. cbn.
  destruct r; intros [= <-]; cbn; repeat split; auto; discriminate.
Qed.

Lemma Forall2_ages_alter (h : Handle)
    (f : WebSocket Envelope -> WebSocket Envelope) (l : list Endpoint) :
  (forall e, l !! h = Some e -> ages e (on_sock f e)) ->
  Forall2 ages l (alter (on_sock f) h l).
Proof.
  intros Hf. apply Forall2_same_length_lookup. split.
  - now rewrite length_alter.
  - intros i x y Hx Hy. destruct (decide (h = i)) as [->|Hne].
    + rewrite list_lookup_alter_eq, Hx in Hy. injection Hy as <-. auto.
    + rewrite list_lookup_alter_ne, Hx in Hy by done. injection Hy as <-.
      apply ages_refl.
Qed.

Lemma quiet_update_socket (a st : State) (h : Handle)
    (f : WebSocket Envelope -> WebSocket Envelope) :
  (forall e, sockets st !! h = Some e -> ages e (on_sock f e)) ->
  quiet a st -> quiet a (update_socket h f st).
Proof.
  intros Hf Hq. apply (quiet_trans a st _ Hq).
  constructor; try reflexivity; [|left; split; reflexivity].
  apply Forall2_ages_alter, Hf.
Qed.

Lemma quiet_close_if_live (a st : State) (h : Handle) :
  quiet a st -> quiet a (close_if_live h st).
Proof.
  intros Hq. unfold close_if_live.
  destruct (socket_at h st); [|assumption].
  destruct (open_or_connecting w); [|assumption].
  apply quiet_update_socket; auto using ages_close.
Qed.

Lemma quiet_send_tracked (a st st' : State) (h : Handle) (m : Envelope) :
  send_tracked h m st = inr st' -> quiet a st -> quiet a st'.
Proof.
  unfold send_tracked, socket_at. intros Hs Hq.
  destruct (sockets st !! h) as [e|] eqn:He; [|discriminate]. cbn in Hs.
  destruct (send m (sock e)) as [|w'] eqn:Hw; [discriminate|].
  injection Hs as <-. quiet_peel.
  apply quiet_update_socket; [|assumption].
  intros e' He'. rewrite He in He'. injection He' as <-.
  now apply (ages_send m).
Qed.

(** ** Steps that are quiet *)

Lemma quiet_send_or_report (a st : State) (s : option Handle) (m : Envelope)
    (said failure : string) (extra : list (string * Detail)) :
  quiet a st -> quiet a (send_or_report s m said failure extra st).
Proof.
  intros Hq. unfold send_or_report.
  destruct (is_open s st); [|now quiet_peel].
  destruct s as [h|]; [|assumption].
  destruct (send_tracked h m st) as [|st'] eqn:Hs; [assumption|].
  quiet_peel. eauto using quiet_send_tracked.
Qed.

Lemma quiet_sendGamepadState (a st : State) (s : option Handle)
    (g : Js.value) (now : Z) :
  quiet a st -> quiet a (sendGamepadState_with s g now st).
Proof.
  intros Hq. unfold sendGamepadState_with.
  destruct (is_open s st); [|assumption].
  destruct s as [h|]; [|assumption].
  match goal with |- context [send_tracked h ?m st] =>
    destruct (send_tracked h m st) as [|st'] eqn:Hs end; [assumption|].
  eauto using quiet_send_tracked.
Qed.

Lemma quiet_requestBatteryLevel (a st : State) (s : option Handle)
    (timestamp now : Z) (r : float) :
  quiet a st -> quiet a (requestBatteryLevel_with s timestamp now r st).
Proof.
  intros Hq. unfold requestBatteryLevel_with.
  destruct (is_open s st); [|now quiet_peel].
  destruct s as [h|]; [|assumption].
  match goal with |- context [send_tracked h ?m st] =>
    destruct (send_tracked h m st) as [|st'] eqn:Hs end; [assumption|].
  eauto using quiet_send_tracked.
Qed.

Lemma quiet_heartbeat (a st : State) (ws : Handle) (sentAt created : Z) :
  quiet a st -> quiet a (heartbeat ws sentAt created st).
Proof.
  intros Hq. unfold heartbeat.
  destruct (socket_at ws st) as [w|]; [|assumption].
  destruct (ReadyState_eqb (readyState w) OPEN); [|assumption].
  match goal with |- context [send_tracked ws ?m st] =>
    destruct (send_tracked ws m st) as [|st'] eqn:Hs end; [assumption|].
  eauto using quiet_send_tracked.
Qed.

Lemma quiet_dispatch (a st st' : State) (now : Z) (event : Js.value) :
  dispatch now event st = inr st' -> quiet a st -> quiet a st'.
Proof.
  unfold dispatch, Js.bind. intros Hd Hq.
  repeat match type of Hd with
    | context [match ?x with _ => _ end] => destruct x; try discriminate
    end;
    injection Hd as <-; now quiet_peel.
Qed.

Lemma quiet_onmessage (a st : State) (frame : string) (now : Z) :
  quiet a st -> quiet a (onmessage frame now st).
Proof.
  intros Hq. unfold onmessage, report_parse_error.
  destruct (Js.JSON_parse frame) as [event|]; [|now quiet_peel].
  destruct (dispatch now event _) as [e|st'] eqn:Hd; [now quiet_peel|].
  apply (quiet_dispatch _ _ _ _ _ Hd). now quiet_peel.
Qed.

Lemma quiet_onerror (a st : State) : quiet a st -> quiet a (onerror st).
Proof. intros Hq. unfold onerror. now quiet_peel. Qed.

Lemma quiet_disconnect (a st : State) : quiet a st -> quiet a (disconnect st).
Proof.
  intros Hq. unfold disconnect.
  destruct (socketRef st); auto using quiet_close_if_live.
Qed.

Lemma quiet_load_saved_urls (a st : State) :
  quiet a st -> quiet a (load_saved_urls st).
Proof.
  intros Hq. unfold load_saved_urls.
  destruct (saved "debug_ws_url" st);
    match goal with |- context [saved "debug_camera_url" ?s] =>
      destruct (saved "debug_camera_url" s) end;
    now quiet_peel.
Qed.

Lemma quiet_store (a st : State) (key : string) (url : option string) :
  quiet a st -> quiet a (store key url st).
Proof.
  intros Hq. unfold store. destruct url as [[|c u]|]; now quiet_peel.
Qed.

Lemma quiet_save_urls (a st : State) : quiet a st -> quiet a (save_urls st).
Proof. intros Hq. unfold save_urls. auto using quiet_store. Qed.

(** ** The invariant survives quiet steps *)

Lemma socket_at_Some (h : Handle) (st : State) (w : WebSocket Envelope) :
  socket_at h st = Some w <->
  exists e, sockets st !! h = Some e /\ sock e = w.
Proof.
  unfold socket_at. destruct (sockets st !! h) as [e|]; cbn; split.
  - intros [= <-]. eauto.
  - intros (e' & [= <-] & <-). reflexivity.
  - discriminate.
  - intros (e' & [=] & _).
Qed.

Lemma quiet_socket_at (st st' : State) (h : Handle) (w' : WebSocket Envelope) :
  quiet st st' -> socket_at h st' = Some w' ->
  exists e e',
    sockets st !! h = Some e /\ sockets st' !! h = Some e'
    /\ sock e' = w' /\ ages e e'.
Proof.
  intros Hq Hw. apply socket_at_Some in Hw as (e' & He' & <-).
  destruct (Forall2_lookup_r _ _ _ _ _ (quiet_sockets _ _ Hq) He')
    as (e & He & Hages).
  eauto 6.
Qed.

Lemma Inv_quiet (st st' : State) : Inv st -> quiet st st' -> Inv st'.
Proof.
  intros HI Hq. pose proof Hq as [Hl Hg Hs Hr Hk Hi]. constructor.
  - intros h w' Hw Hlive.
    destruct (quiet_socket_at _ _ _ _ Hq Hw) as (e & e' & He & _ & <- & Ha).
    rewrite Hl. apply (inv_live _ HI h (sock e)).
    + apply socket_at_Some. eauto.
    + now apply Ha.
  - intros trigger wsUrl ws Hc. rewrite Hl in Hc.
    rewrite Hs, Hr, <- (Forall2_length _ _ _ Hk).
    destruct (inv_committed _ HI trigger wsUrl ws Hc) as (? & ? & ? & ?).
    repeat split; auto; lia.
  - intros Hf. rewrite Hl in Hf. destruct (inv_fresh _ HI Hf) as [Hnil Hnone].
    rewrite Hs. split; [|assumption].
    rewrite Hnil in Hk. now inversion Hk.
  - intros id iv Hiv. destruct Hi as [[Hi Hp]|Hi].
    + rewrite Hi in Hiv. rewrite Hp, Hl. now apply (inv_intervals _ HI).
    + rewrite Hi in Hiv. now rewrite lookup_empty in Hiv.
  - intros h w' Hw Hc.
    destruct (quiet_socket_at _ _ _ _ Hq Hw) as (e & e' & He & _ & <- & Ha).
    destruct Ha as (_ & _ & Hn & _). destruct (Hn Hc) as [Hc0 Ht].
    destruct (inv_connecting _ HI h (sock e)) as [Ht0 Hi0]; auto.
    { apply socket_at_Some. eauto. }
    split; [congruence|].
    destruct Hi as [[Hi _]|Hi]; congruence.
  - intros h e' h' He' Hc.
    destruct (Forall2_lookup_r _ _ _ _ _ Hk He') as (e & He & Ha).
    apply (inv_closure _ HI h e h' He). destruct Ha as (Hcl & _). congruence.
Qed.

Lemma no_interval_without_ref (st : State) :
  Inv st -> pingIntervalRef st = None -> intervals st = ∅.
Proof.
  intros HI Hp. apply map_eq. intros id. rewrite lookup_empty.
  destruct (intervals st !! id) as [iv|] eqn:Hiv; [|reflexivity].
  apply (inv_intervals _ HI) in Hiv as [Hid _]. congruence.
Qed.

Lemma only_interval_is_ref (st : State) (id : nat) :
  Inv st -> pingIntervalRef st = Some id -> delete id (intervals st) = ∅.
Proof.
  intros HI Hp. apply map_eq. intros j. rewrite lookup_empty.
  destruct (decide (id = j)) as [->|Hne].
  - apply lookup_delete_eq.
  - rewrite lookup_delete_ne by done.
    destruct (intervals st !! j) as [iv|] eqn:Hiv; [|reflexivity].
    apply (inv_intervals _ HI) in Hiv as [Hid _]. congruence.
Qed.

Lemma clear_heartbeat_clears (a st : State) :
  Inv a -> quiet a st -> intervals (clear_heartbeat st) = ∅.
Proof.
  intros HI [_ _ _ _ _ Hi]. unfold clear_heartbeat.
  destruct (pingIntervalRef st) as [id|] eqn:Hp; cbn.
  - destruct Hi as [[Hi Hp']|Hi].
    + rewrite Hi. apply only_interval_is_ref; congruence.
    + rewrite Hi. apply delete_empty.
  - destruct Hi as [[Hi Hp']|Hi]; [|assumption].
    rewrite Hi. apply no_interval_without_ref; congruence.
Qed.

Lemma quiet_clear_heartbeat (a st : State) :
  Inv a -> quiet a st -> quiet a (clear_heartbeat st).
Proof.
  intros HI Hq. pose proof (clear_heartbeat_clears a st HI Hq) as Hc.
  destruct Hq as [Hl Ht Hs Hr Hk Hi].
  constructor; [..|now right];
    unfold clear_heartbeat; destruct (pingIntervalRef st); assumption.
Qed.

Lemma quiet_onclose (a st : State) :
  Inv a -> quiet a st -> quiet a (onclose st).
Proof.
  intros HI Hq. unfold onclose. apply quiet_clear_heartbeat; [assumption|].
  now quiet_peel.
Qed.

Lemma quiet_cleanup (a st : State) (ws : Handle) :
  Inv a -> quiet a st -> quiet a (connection_cleanup ws st).
Proof.
  intros HI Hq. unfold connection_cleanup.
  auto using quiet_close_if_live, quiet_clear_heartbeat.
Qed.

Lemma quiet_connect (a st : State) : quiet a st -> quiet a (connect st).
Proof.
  intros Hq. apply (quiet_trans a st _ Hq).
  constructor; cbn; auto using Forall2_ages_refl.
Qed.

Lemma quiet_all_closed (st st' : State) :
  quiet st st' -> all_closed st -> all_closed st'.
Proof.
  intros Hq Hc h w' Hw.
  destruct (quiet_socket_at _ _ _ _ Hq Hw) as (e & e' & He & _ & <- & Ha).
  apply not_live_true. intros Hl. apply Ha in Hl.
  rewrite (Hc h (sock e)) in Hl; [discriminate|].
  apply socket_at_Some. eauto.
Qed.

Lemma quiet_no_intervals (st st' : State) :
  quiet st st' -> intervals st = ∅ -> intervals st' = ∅.
Proof. intros [_ _ _ _ _ [[Hi _]|Hi]] H0; congruence. Qed.

(** ** The connection effect *)

Lemma pre_clean_keeps_url (st : State) :
  wsUrl_of
    match socket st with
    | Some s => clear_heartbeat (close_if_live s st)
    | None => st
    end
  = wsUrl_of st.
Proof.
  unfold wsUrl_of. destruct (socket st) as [s|]; [|reflexivity].
  unfold clear_heartbeat, close_if_live.
  destruct (socket_at s st) as [w|]; [destruct (open_or_connecting w)|];
    match goal with |- context [pingIntervalRef ?x] =>
      destruct (pingIntervalRef x) end; reflexivity.
Qed.

(** The effect opens a socket, or throws when it is about to. *)
Lemma connection_effect_cases (st : State) :
  connection_effect st
  = if Js.accepts (wsUrl_of st) then inr (opened st)
    else inl (Js.SyntaxError, at_constructor st).
Proof.
  rewrite <- (pre_clean_keeps_url st).
  unfold connection_effect, create_socket.
  match goal with |- context [Js.accepts ?u] => destruct (Js.accepts u) end;
    reflexivity.
Qed.

Lemma connection_effect_fields (st : State) :
  let st1 :=
    match socket st with
    | Some s => clear_heartbeat (close_if_live s st)
    | None => st
    end in
  let st' := opened st in
  sockets st'
  = (sockets st1
     ++ [{| sock := new_WebSocket (wsUrl_of st1);
            closure_socket := socket st1 |}])%list
  /\ lifecycle st'
     = Committed (reconnectTrigger st1) (customWsUrl st1)
         (length (sockets st1))
  /\ socket st' = Some (length (sockets st1))
  /\ socketRef st' = Some (length (sockets st1))
  /\ intervals st' = intervals st1
  /\ pingIntervalRef st' = pingIntervalRef st1
  /\ reconnectTrigger st' = reconnectTrigger st1.
Proof. repeat split. Qed.

(** Appending a connecting socket to a state in which every socket is
    closed and no interval is set. *)
Lemma Inv_enter (st1 st' : State) (e : Endpoint) (trigger : nat)
    (wsUrl : option string) :
  Inv st1 -> all_closed st1 -> intervals st1 = ∅ ->
  (forall s, socket st1 = Some s -> (s < length (sockets st1))%nat) ->
  sockets st' = (sockets st1 ++ [e])%list ->
  readyState (sock e) = CONNECTING -> transmitted (sock e) = [] ->
  closure_socket e = socket st1 ->
  lifecycle st' = Committed trigger wsUrl (length (sockets st1)) ->
  (trigger <= reconnectTrigger st')%nat ->
  socket st' = Some (length (sockets st1)) ->
  socketRef st' = Some (length (sockets st1)) ->
  intervals st' = ∅ ->
  Inv st'.
Proof.
  intros HI Hclosed Hno Hs Hk Hconn Hnil Hcl Hl Htr Hso Hre Hi.
  assert (Hold : forall h x, (h < length (sockets st1))%nat ->
            sockets st' !! h = Some x -> sockets st1 !! h = Some x).
  { intros h x Hlt Hx. rewrite Hk, lookup_app_l in Hx; assumption. }
  assert (Hnew : forall h x, sockets st' !! h = Some x ->
            (h < length (sockets st1))%nat
            \/ (h = length (sockets st1) /\ x = e)).
  { intros h x Hx. rewrite Hk in Hx. apply lookup_app_Some in Hx.
    destruct Hx as [Hx|[Hge Hx]].
    - left. now apply lookup_lt_Some in Hx.
    - right. apply list_lookup_singleton_Some in Hx as [Hz <-].
      split; [lia|reflexivity]. }
  constructor.
  - intros h w Hw Hlive. apply socket_at_Some in Hw as (x & Hx & <-).
    destruct (Hnew h x Hx) as [Hlt|[-> ->]]; [|eauto].
    rewrite (Hclosed h (sock x)) in Hlive; [discriminate|].
    apply socket_at_Some. eauto.
  - intros t u ws Hc. rewrite Hl in Hc. injection Hc as <- <- <-.
    rewrite Hk, length_app. cbn. repeat split; auto; lia.
  - intros Hf. congruence.
  - intros id iv Hiv. rewrite Hi in Hiv. now rewrite lookup_empty in Hiv.
  - intros h w Hw Hc. apply socket_at_Some in Hw as (x & Hx & <-).
    destruct (Hnew h x Hx) as [Hlt|[-> ->]]; [|auto].
    assert (Hd : live (sock x) = false).
    { apply (Hclosed h). apply socket_at_Some. eauto. }
    unfold live in Hd. rewrite Hc in Hd. discriminate.
  - intros h x h' Hx Hc.
    destruct (Hnew h x Hx) as [Hlt|[-> ->]].
    + eapply (inv_closure _ HI); eauto.
    + apply Hs. congruence.
Qed.

Lemma Inv_connection_effect (st : State) :
  Inv st -> all_closed st -> intervals st = ∅ ->
  (forall s, socket st = Some s -> (s < length (sockets st))%nat) ->
  Inv (opened st).
Proof.
  intros HI Hclosed Hno Hs.
  pose proof (connection_effect_fields st) as Hf. cbv zeta in Hf.
  set (st1 := match socket st with
              | Some s => clear_heartbeat (close_if_live s st)
              | None => st
              end) in *.
  assert (Hq : quiet st st1).
  { subst st1. destruct (socket st).
    - auto using quiet_clear_heartbeat, quiet_close_if_live, quiet_refl.
    - apply quiet_refl. }
  destruct Hf as (Hk & Hl & Hso & Hre & Hi & Hp & Ht).
  eapply (Inv_enter st1); eauto.
  - eauto using Inv_quiet.
  - eauto using quiet_all_closed.
  - eauto using quiet_no_intervals.
  - intros s. rewrite (quiet_socket _ _ Hq),
      <- (Forall2_length _ _ _ (quiet_sockets _ _ Hq)). apply Hs.
  - rewrite Hi. eauto using quiet_no_intervals.
Qed.

Lemma sockets_update_socket (h : Handle)
    (f : WebSocket Envelope -> WebSocket Envelope) (st : State) :
  sockets (update_socket h f st) = alter (on_sock f) h (sockets st).
Proof. reflexivity. Qed.

Lemma socket_at_update_eq (h : Handle)
    (f : WebSocket Envelope -> WebSocket Envelope) (st : State) :
  socket_at h (update_socket h f st) = f <$> socket_at h st.
Proof.
  unfold socket_at. rewrite sockets_update_socket, list_lookup_alter_eq.
  now destruct (sockets st !! h).
Qed.

Lemma socket_at_update_ne (h h' : Handle)
    (f : WebSocket Envelope -> WebSocket Envelope) (st : State) :
  h <> h' -> socket_at h' (update_socket h f st) = socket_at h' st.
Proof.
  intros Hne. unfold socket_at.
  now rewrite sockets_update_socket, list_lookup_alter_ne.
Qed.

Lemma close_if_live_closes (h : Handle) (st : State) (w : WebSocket Envelope) :
  socket_at h (close_if_live h st) = Some w -> live w = false.
Proof.
  unfold close_if_live.
  destruct (socket_at h st) as [w0|] eqn:Hw0; [|congruence].
  destruct (open_or_connecting w0) eqn:Ho.
  - rewrite socket_at_update_eq, Hw0. cbn. intros [= <-].
    now destruct w0 as [u [] t d].
  - rewrite Hw0. intros [= <-]. revert Ho.
    unfold open_or_connecting, live. now destruct (readyState w0).
Qed.

Lemma Inv_no_intervals_unless_committed (st : State) :
  Inv st -> (forall t u ws, lifecycle st <> Committed t u ws) ->
  intervals st = ∅.
Proof.
  intros HI Hn. apply map_eq. intros id. rewrite lookup_empty.
  destruct (intervals st !! id) as [iv|] eqn:Hiv; [|reflexivity].
  apply (inv_intervals _ HI) in Hiv as (_ & t & u & ws & Hl & _).
  now destruct (Hn t u ws).
Qed.

Lemma Inv_all_closed_unless_committed (st : State) :
  Inv st -> (forall t u ws, lifecycle st <> Committed t u ws) ->
  all_closed st.
Proof.
  intros HI Hn h w Hw. apply not_live_true. intros Hl.
  destruct (inv_live _ HI h w Hw Hl) as (t & u & Hc). now destruct (Hn t u h).
Qed.

Lemma cleanup_all_closed (st : State) (t : nat) (u : option string)
    (ws : Handle) :
  Inv st -> lifecycle st = Committed t u ws ->
  all_closed (connection_cleanup ws st).
Proof.
  intros HI Hl h w Hw. apply not_live_true. intros Hlive.
  assert (Hq : quiet st (connection_cleanup ws st))
    by auto using quiet_cleanup, quiet_refl.
  destruct (quiet_socket_at _ _ _ _ Hq Hw) as (e & e' & He & _ & Hs & Ha).
  assert (Hlive0 : live (sock e) = true) by (apply Ha; congruence).
  destruct (inv_live _ HI h (sock e)) as (t' & u' & Hc); auto.
  { apply socket_at_Some. eauto. }
  rewrite Hl in Hc. injection Hc as -> -> ->.
  apply close_if_live_closes in Hw. congruence.
Qed.

Lemma cleanup_no_intervals (st : State) (ws : Handle) :
  Inv st -> intervals (connection_cleanup ws st) = ∅.
Proof.
  intros HI. unfold connection_cleanup.
  apply (quiet_no_intervals (clear_heartbeat st)).
  - apply quiet_close_if_live, quiet_refl.
  - apply (clear_heartbeat_clears st st HI (quiet_refl st)).
Qed.

(** Once every socket is closed and no interval is left, the provider can
    be marked unmounted. *)
Lemma Inv_unmounted (st : State) :
  Inv st -> all_closed st -> intervals st = ∅ ->
  Inv (set_lifecycle Unmounted st).
Proof.
  intros HI Hclosed Hno. constructor; cbn.
  - intros h w Hw Hlive. rewrite (Hclosed h w Hw) in Hlive. discriminate.
  - discriminate.
  - discriminate.
  - intros id iv Hiv. rewrite Hno in Hiv. now rewrite lookup_empty in Hiv.
  - intros h w Hw Hc. specialize (Hclosed h w Hw).
    unfold live in Hclosed. rewrite Hc in Hclosed. discriminate.
  - apply (inv_closure _ HI).
Qed.

Lemma quiet_at_constructor (a st : State) :
  Inv a -> quiet a st -> quiet a (at_constructor st).
Proof.
  intros HI Hq. unfold at_constructor. quiet_peel.
  destruct (socket st);
    auto using quiet_clear_heartbeat, quiet_close_if_live.
Qed.

(** The effect threw while every socket was closed and no interval set. *)
Lemma Inv_crash (st : State) (e : Js.exn) :
  Inv st -> all_closed st -> intervals st = ∅ ->
  Inv (crash e (at_constructor st)).
Proof.
  intros HI Hclosed Hno. unfold crash.
  assert (Hq : quiet st (set_uncaught (uncaught (at_constructor st) ++ [e])
                           (at_constructor st))).
  { quiet_peel. apply quiet_at_constructor; auto using quiet_refl. }
  apply Inv_unmounted.
  - eauto using Inv_quiet.
  - eauto using quiet_all_closed.
  - eauto using quiet_no_intervals.
Qed.

Lemma Inv_commit (st : State) : Inv st -> Inv (commit st).
Proof.
  intros HI. unfold commit. destruct (lifecycle st) as [|t u ws|] eqn:Hl.
  - assert (Hn : forall t u ws, lifecycle st <> Committed t u ws)
      by (intros; congruence).
    destruct (inv_fresh _ HI Hl) as [Hnil Hnone].
    pose proof (Inv_all_closed_unless_committed st HI Hn) as Hc.
    pose proof (Inv_no_intervals_unless_committed st HI Hn) as Hi.
    rewrite connection_effect_cases.
    destruct (Js.accepts (wsUrl_of st)); [|now apply Inv_crash].
    apply (Inv_quiet (opened st)).
    + apply Inv_connection_effect; auto. intros s. congruence.
    + auto using quiet_save_urls, quiet_load_saved_urls, quiet_refl.
  - destruct (_ && _).
    + eapply Inv_quiet; eauto using quiet_save_urls, quiet_refl.
    + assert (Hq : quiet st (connection_cleanup ws st))
        by auto using quiet_cleanup, quiet_refl.
      assert (HI0 : Inv (connection_cleanup ws st))
        by eauto using Inv_quiet.
      pose proof (cleanup_all_closed st t u ws HI Hl) as Hc.
      pose proof (cleanup_no_intervals st ws HI) as Hi.
      rewrite connection_effect_cases.
      destruct (Js.accepts (wsUrl_of (connection_cleanup ws st)));
        [|now apply Inv_crash].
      apply (Inv_quiet (opened (connection_cleanup ws st)));
        [|apply quiet_save_urls, quiet_refl].
      apply Inv_connection_effect; auto.
      intros s. rewrite (quiet_socket _ _ Hq),
        <- (Forall2_length _ _ _ (quiet_sockets _ _ Hq)).
      destruct (inv_committed _ HI t u ws Hl) as (Hs & _ & Hlt & _).
      rewrite Hs. now intros [= <-].
  - assumption.
Qed.

Lemma Inv_unmount (st : State) : Inv st -> Inv (unmount st).
Proof.
  intros HI. unfold unmount. destruct (lifecycle st) as [|t u ws|] eqn:Hl.
  - assert (Hn : forall t u ws, lifecycle st <> Committed t u ws)
      by (intros; congruence).
    apply Inv_unmounted; auto.
    + exact (Inv_all_closed_unless_committed st HI Hn).
    + exact (Inv_no_intervals_unless_committed st HI Hn).
  - apply Inv_unmounted.
    + eauto using Inv_quiet, quiet_cleanup, quiet_refl.
    + exact (cleanup_all_closed st t u ws HI Hl).
    + now apply cleanup_no_intervals.
  - assert (Hn : forall t u ws, lifecycle st <> Committed t u ws)
      by (intros; congruence).
    apply Inv_unmounted; auto.
    + exact (Inv_all_closed_unless_committed st HI Hn).
    + exact (Inv_no_intervals_unless_committed st HI Hn).
Qed.

(** ** The socket opens *)

Lemma quiet_promote (a st : State) (ws : Handle) :
  readyState <$> socket_at ws st = Some CONNECTING ->
  quiet a st -> quiet a (update_socket ws (set_readyState OPEN) st).
Proof.
  intros Hc Hq. apply quiet_update_socket; [|assumption].
  intros e He. unfold socket_at in Hc. rewrite He in Hc. cbn in Hc.
  injection Hc as Hc. destruct e as [[u r t d] c]. cbn in Hc. subst r.
  unfold ages, on_sock, live. cbn. repeat split; auto; discriminate.
Qed.

Lemma Inv_start_heartbeat (st : State) (ws : Handle) (t : nat)
    (u : option string) :
  Inv st -> intervals st = ∅ -> lifecycle st = Committed t u ws ->
  (forall h w, socket_at h st = Some w -> readyState w <> CONNECTING) ->
  Inv (set_pingIntervalRef (Some (nextIntervalId st))
         (setInterval (Heartbeat ws) 500 st).2).
Proof.
  intros HI Hno Hl Hnc. constructor; cbn.
  - apply (inv_live _ HI).
  - apply (inv_committed _ HI).
  - apply (inv_fresh _ HI).
  - intros id iv Hiv. rewrite Hno in Hiv.
    apply lookup_insert_Some in Hiv as [[<- <-]|[_ Hiv]].
    + split; [reflexivity|]. eauto.
    + now rewrite lookup_empty in Hiv.
  - intros h w Hw Hc. now destruct (Hnc h w Hw).
  - apply (inv_closure _ HI).
Qed.

Lemma Inv_open (st : State) (ws : Handle) (created : Z) (rid : string)
    (timestamp now : Z) (r : float) :
  Inv st -> readyState <$> socket_at ws st = Some CONNECTING ->
  Inv (onopen ws created rid timestamp now r
         (update_socket ws (set_readyState OPEN) st)).
Proof.
  intros HI Hc.
  set (st_a := update_socket ws (set_readyState OPEN) st).
  assert (Hqa : quiet st st_a) by (apply quiet_promote; auto using quiet_refl).
  destruct (socket_at ws st) as [w|] eqn:Hw; [|discriminate].
  cbn in Hc. injection Hc as Hc.
  destruct (inv_connecting _ HI ws w Hw Hc) as [_ Hno].
  destruct (inv_live _ HI ws w Hw) as (t & u & Hl).
  { unfold live. now rewrite Hc. }
  unfold onopen.
  match goal with |- context [send_tracked ws ?m ?s] =>
    set (reg := m); set (st1 := s) end.
  assert (Hq1 : forall a, quiet a st_a -> quiet a st1).
  { intros a Hq. subst st1. now quiet_peel. }
  destruct (send_tracked ws reg st1) as [e|st2] eqn:Hs.
  { eauto using Inv_quiet. }
  match goal with |- context [requestBatteryLevel_with ?s _ _ _ st2] =>
    set (st3 := requestBatteryLevel_with s timestamp now r st2) end.
  assert (Hq3 : forall a, quiet a st_a -> quiet a st3).
  { intros a Hq. subst st3. apply quiet_requestBatteryLevel.
    eauto using quiet_send_tracked. }
  cbn.
  apply (Inv_start_heartbeat st3 ws t u).
  - eauto using Inv_quiet.
  - eauto using quiet_no_intervals.
  - rewrite (quiet_lifecycle _ _ (Hq3 st Hqa)). assumption.
  - intros h w' Hw' Hc'.
    destruct (quiet_socket_at _ _ _ _ (Hq3 st_a (quiet_refl st_a)) Hw')
      as (x & x' & Hx & _ & <- & Ha).
    destruct Ha as (_ & _ & Hn & _). destruct (Hn Hc') as [Hcx _].
    assert (Hxa : socket_at h st_a = Some (sock x))
      by (apply socket_at_Some; eauto).
    destruct (decide (ws = h)) as [<-|Hne].
    + subst st_a. rewrite socket_at_update_eq, Hw in Hxa. cbn in Hxa.
      injection Hxa as Hxa. rewrite <- Hxa in Hcx. discriminate.
    + subst st_a. rewrite socket_at_update_ne in Hxa by done.
      destruct (inv_live _ HI h (sock x) Hxa) as (t' & u' & Hl').
      { unfold live. now rewrite Hcx. }
      congruence.
Qed.

(** ** Every reachable state *)

Lemma Inv_initial (storage : gmap string string) : Inv (initial storage).
Proof.
  constructor; cbn; try discriminate; auto.
Qed.

Lemma quiet_step_command (a st : State) (ev : Event) :
  match ev with
  | Commit | Unmount | Open _ _ _ _ _ _ | Close _ | Error _ => False
  | _ => True
  end ->
  quiet a st -> quiet a (step ev st).
Proof.
  intros Hev Hq. destruct ev; try contradiction; cbn.
  - now apply quiet_connect.
  - now apply quiet_disconnect.
  - now quiet_peel.
  - now quiet_peel.
  - destruct (readyState <$> socket_at ws st) as [[]|];
      auto using quiet_onmessage.
  - destruct (intervals st !! id) as [[[ws] d]|];
      auto using quiet_heartbeat.
  - now apply quiet_sendGamepadState.
  - now apply quiet_send_or_report.
  - now apply quiet_requestBatteryLevel.
  - now apply quiet_send_or_report.
  - now apply quiet_send_or_report.
  - now apply quiet_send_or_report.
  - now apply quiet_send_or_report.
  - now apply quiet_send_or_report.
  - now apply quiet_send_or_report.
  - now apply quiet_send_or_report.
Qed.

Lemma Inv_step (ev : Event) (st : State) : Inv st -> Inv (step ev st).
Proof.
  intros HI.
  destruct ev;
    try (apply (Inv_quiet st); [assumption|];
         apply quiet_step_command; [exact I|apply quiet_refl]).
  - now apply Inv_commit.
  - now apply Inv_unmount.
  - cbn. destruct (readyState <$> socket_at ws st) as [[]|] eqn:Hc;
      auto using Inv_open.
  - cbn. destruct (readyState <$> socket_at ws st) as [[]|] eqn:Hc; auto;
      (apply (Inv_quiet st); [assumption|]);
      apply quiet_onclose; auto;
      apply quiet_update_socket; auto using ages_closed, quiet_refl.
  - cbn. destruct (readyState <$> socket_at ws st) as [[]|] eqn:Hc; auto;
      (apply (Inv_quiet st); [assumption|]);
      apply quiet_onclose; auto; apply quiet_onerror;
      apply quiet_update_socket; auto using ages_closed, quiet_refl.
Qed.

Lemma Inv_run (evs : list Event) (st : State) : Inv st -> Inv (run evs st).
Proof.
  revert st. induction evs as [|ev evs IH]; intros st HI; cbn.
  - assumption.
  - apply IH, Inv_step, HI.
Qed.

(** ** Reconnecting *)

Lemma live_at_iff (h : Handle) (st : State) :
  Wire.live_at h st <-> exists w, socket_at h st = Some w /\ live w = true.
Proof.
  unfold Wire.live_at. destruct (socket_at h st) as [w|]; cbn; split.
  - intros [= Hl]. eauto.
  - intros (w' & [= <-] & ->). reflexivity.
  - discriminate.
  - intros (w' & [=] & _).
Qed.

Lemma live_unique (st : State) (h1 h2 : Handle) :
  Inv st -> Wire.live_at h1 st -> Wire.live_at h2 st -> h1 = h2.
Proof.
  intros HI H1 H2.
  apply live_at_iff in H1 as (w1 & Hw1 & Hl1).
  apply live_at_iff in H2 as (w2 & Hw2 & Hl2).
  destruct (inv_live _ HI h1 w1 Hw1 Hl1) as (t1 & u1 & Hc1).
  destruct (inv_live _ HI h2 w2 Hw2 Hl2) as (t2 & u2 & Hc2).
  congruence.
Qed.

(** What running the connection effect leaves, when no socket was live
    and no interval set. *)
Lemma connection_effect_connects (st : State) :
  Inv st -> intervals st = ∅ ->
  let st' := opened st in
  let fresh := length (sockets st) in
  length (sockets st') = S fresh
  /\ readyState <$> socket_at fresh st' = Some CONNECTING
  /\ intervals st' = ∅
  /\ exists t u, lifecycle st' = Committed t u fresh.
Proof.
  intros HI Hno st' fresh.
  pose proof (connection_effect_fields st) as Hf. cbv zeta in Hf.
  set (st1 := match socket st with
              | Some s => clear_heartbeat (close_if_live s st)
              | None => st
              end) in *.
  assert (Hq : quiet st st1).
  { subst st1. destruct (socket st).
    - auto using quiet_clear_heartbeat, quiet_close_if_live, quiet_refl.
    - apply quiet_refl. }
  assert (Hlen : length (sockets st1) = fresh).
  { symmetry. apply (Forall2_length _ _ _ (quiet_sockets _ _ Hq)). }
  destruct Hf as (Hk & Hl & _ & _ & Hi & _ & _).
  fold st' in Hk, Hl, Hi. rewrite Hlen in Hl.
  split; [|split; [|split]].
  - rewrite Hk, length_app, Hlen. cbn. lia.
  - unfold socket_at. rewrite Hk, <- Hlen, list_lookup_middle by done.
    reflexivity.
  - rewrite Hi. eauto using quiet_no_intervals.
  - eauto.
Qed.

Lemma store_fields (key : string) (url : option string) (st : State) :
  sockets (store key url st) = sockets st
  /\ intervals (store key url st) = intervals st
  /\ lifecycle (store key url st) = lifecycle st.
Proof. unfold store. destruct url as [[|c u]|]; repeat split. Qed.

Lemma save_urls_fields (st : State) :
  sockets (save_urls st) = sockets st
  /\ intervals (save_urls st) = intervals st
  /\ lifecycle (save_urls st) = lifecycle st.
Proof.
  unfold save_urls.
  destruct (store_fields "debug_camera_url" (customCameraUrl st)
              (store "debug_ws_url" (customWsUrl st) st)) as (-> & -> & ->).
  apply store_fields.
Qed.

Lemma load_saved_urls_fields (st : State) :
  sockets (load_saved_urls st) = sockets st
  /\ intervals (load_saved_urls st) = intervals st
  /\ lifecycle (load_saved_urls st) = lifecycle st.
Proof.
  unfold load_saved_urls.
  destruct (saved "debug_ws_url" st);
    match goal with |- context [saved "debug_camera_url" ?s] =>
      destruct (saved "debug_camera_url" s) end;
    repeat split.
Qed.

Lemma wsUrl_of_connect (st : State) : wsUrl_of (connect st) = wsUrl_of st.
Proof. reflexivity. Qed.

Lemma cleanup_keeps_url (ws : Handle) (st : State) :
  wsUrl_of (connection_cleanup ws st) = wsUrl_of st.
Proof.
  unfold wsUrl_of, connection_cleanup, close_if_live, clear_heartbeat.
  destruct (pingIntervalRef st);
    match goal with |- context [socket_at ws ?x] =>
      destruct (socket_at ws x) as [w|]; [destruct (open_or_connecting w)|]
    end; reflexivity.
Qed.

(** A commit whose connection effect runs, on a URL the constructor
    accepts. *)
Lemma commit_reconnects (st : State) :
  Inv st -> lifecycle st <> Unmounted ->
  (forall t u ws,
     lifecycle st = Committed t u ws -> (t < reconnectTrigger st)%nat) ->
  Js.accepts (wsUrl_of st) = true ->
  let st' := commit st in
  let fresh := length (sockets st) in
  length (sockets st') = S fresh
  /\ readyState <$> socket_at fresh st' = Some CONNECTING
  /\ intervals st' = ∅
  /\ (forall h, Wire.live_at h st' <-> h = fresh).
Proof.
  intros HI Hm Hdeps Hacc st' fresh.
  assert (Hcore : length (sockets st') = S fresh
            /\ readyState <$> socket_at fresh st' = Some CONNECTING
            /\ intervals st' = ∅
            /\ exists t u, lifecycle st' = Committed t u fresh).
  { subst st' fresh. unfold commit.
    destruct (lifecycle st) as [|t u ws|] eqn:Hl; [| |congruence].
    - assert (Hn : forall t u ws, lifecycle st <> Committed t u ws)
        by (intros; congruence).
      pose proof (Inv_no_intervals_unless_committed st HI Hn) as Hno.
      destruct (connection_effect_connects st HI Hno)
        as (Hlen & Hc & Hi & t & u & Hl').
      rewrite connection_effect_cases, Hacc.
      set (st1 := opened st) in *.
      destruct (load_saved_urls_fields st1) as (Ha1 & Ha2 & Ha3).
      destruct (save_urls_fields (load_saved_urls st1)) as (Hs1 & Hs2 & Hs3).
      unfold socket_at. rewrite Hs1, Hs2, Hs3, Ha1, Ha2, Ha3.
      repeat split; eauto.
    - specialize (Hdeps t u ws eq_refl).
      rewrite (bool_decide_eq_false_2 (t = reconnectTrigger st)) by lia.
      cbn [andb].
      rewrite connection_effect_cases, cleanup_keeps_url, Hacc.
      set (st0 := connection_cleanup ws st).
      assert (Hq0 : quiet st st0)
        by (subst st0; auto using quiet_cleanup, quiet_refl).
      assert (HI0 : Inv st0) by eauto using Inv_quiet.
      assert (Hno : intervals st0 = ∅) by now apply cleanup_no_intervals.
      destruct (connection_effect_connects st0 HI0 Hno)
        as (Hlen & Hc & Hi & t' & u' & Hl').
      rewrite <- (Forall2_length _ _ _ (quiet_sockets _ _ Hq0)) in Hlen, Hc, Hl'.
      set (st1 := opened st0) in *.
      destruct (save_urls_fields st1) as (Hs1 & Hs2 & Hs3).
      unfold socket_at. rewrite Hs1, Hs2, Hs3.
      repeat split; eauto. }
  destruct Hcore as (Hlen & Hc & Hi & t & u & Hl).
  repeat split; auto.
  - intros Hlive. apply live_at_iff in Hlive as (w & Hw & Hlw).
    assert (HI' : Inv st') by now apply Inv_commit.
    destruct (inv_live _ HI' h w Hw Hlw) as (t' & u' & Hl'). congruence.
  - intros ->. unfold Wire.live_at.
    destruct (socket_at fresh st') as [w|]; [|discriminate].
    cbn in *. injection Hc as Hc. unfold live. now rewrite Hc.
Qed.

(** The same commit on a URL the constructor rejects: the effect throws,
    no socket is made and the provider is unmounted. *)
Lemma commit_rejected (st : State) :
  Inv st -> lifecycle st <> Unmounted ->
  (forall t u ws,
     lifecycle st = Committed t u ws -> (t < reconnectTrigger st)%nat) ->
  Js.accepts (wsUrl_of st) = false ->
  let st' := commit st in
  length (sockets st') = length (sockets st)
  /\ lifecycle st' = Unmounted
  /\ uncaught st' = (uncaught st ++ [Js.SyntaxError])%list
  /\ intervals st' = ∅
  /\ (forall h, ~ Wire.live_at h st').
Proof.
  intros HI Hm Hdeps Hacc st'.
  assert (HI' : Inv st') by now apply Inv_commit.
  assert (Hcore : length (sockets st') = length (sockets st)
            /\ lifecycle st' = Unmounted
            /\ uncaught st' = (uncaught st ++ [Js.SyntaxError])%list).
  { subst st'. unfold commit.
    destruct (lifecycle st) as [|t u ws|] eqn:Hl; [| |congruence].
    - rewrite connection_effect_cases, Hacc.
      assert (Hq : quiet st (at_constructor st))
        by auto using quiet_at_constructor, quiet_refl.
      split; [|split; [reflexivity|]].
      + symmetry. apply (Forall2_length _ _ _ (quiet_sockets _ _ Hq)).
      + unfold crash, at_constructor. cbn.
        destruct (inv_fresh _ HI Hl) as [_ ->]. reflexivity.
    - specialize (Hdeps t u ws eq_refl).
      rewrite (bool_decide_eq_false_2 (t = reconnectTrigger st)) by lia.
      cbn [andb].
      rewrite connection_effect_cases, cleanup_keeps_url, Hacc.
      assert (Hq : quiet st (at_constructor (connection_cleanup ws st)))
        by auto using quiet_at_constructor, quiet_cleanup, quiet_refl.
      split; [|split; [reflexivity|]].
      + symmetry. apply (Forall2_length _ _ _ (quiet_sockets _ _ Hq)).
      + unfold crash, at_constructor, connection_cleanup, close_if_live,
          clear_heartbeat. cbn.
        repeat match goal with
          | |- context [match ?x with _ => _ end] => destruct x; cbn
          end; reflexivity. }
  destruct Hcore as (Hlen & Hl & Hu).
  assert (Hn : forall t u ws, lifecycle st' <> Committed t u ws)
    by (intros; congruence).
  repeat split; auto.
  - exact (Inv_no_intervals_unless_committed st' HI' Hn).
  - intros h Hlive. apply live_at_iff in Hlive as (w & Hw & Hlw).
    destruct (inv_live _ HI' h w Hw Hlw) as (t & u & Hc). congruence.
Qed.

(** C6. In every state the provider reaches at most one socket is
    connecting or open.  A [connect()] followed by the render it causes
    opens one new socket, which is then the only live one, and leaves no
    heartbeat interval; the same holds after a second [connect()], and
    after two [connect()] calls batched into one render.  The render first
    runs the cleanup of the previous effect, after which every socket is
    closing or closed and no interval is set, and only then the effect that
    creates the new socket.  All that is of a URL the [WebSocket]
    constructor accepts; on one it rejects the effect throws after the
    cleanup, so that no socket at all is left live. *)
Theorem at_most_one_live_socket
    (storage : gmap string string) (evs : list Event) :
  let st := run evs (initial storage) in
  (forall h1 h2, Wire.live_at h1 st -> Wire.live_at h2 st -> h1 = h2)
  /\ (lifecycle st <> Unmounted ->
      Js.accepts (wsUrl_of st) = true ->
      let fresh := length (sockets st) in
      let once := commit (connect st) in
      let twice := commit (connect once) in
      let batched := commit (connect (connect st)) in
      readyState <$> socket_at fresh once = Some CONNECTING
      /\ (forall h, Wire.live_at h once <-> h = fresh)
      /\ intervals once = ∅
      /\ (Js.accepts (wsUrl_of once) = true ->
          (forall h, Wire.live_at h twice <-> h = S fresh)
          /\ intervals twice = ∅)
      /\ (forall h, Wire.live_at h batched <-> h = fresh)
      /\ (forall t u ws,
            lifecycle st = Committed t u ws ->
            let torn_down := connection_cleanup ws (connect st) in
            all_closed torn_down
            /\ intervals torn_down = ∅
            /\ exists opened_,
                 connection_effect torn_down = inr opened_
                 /\ once = save_urls opened_))
  /\ (lifecycle st <> Unmounted ->
      Js.accepts (wsUrl_of st) = false ->
      let once := commit (connect st) in
      (forall h, ~ Wire.live_at h once)
      /\ intervals once = ∅
      /\ length (sockets once) = length (sockets st)
      /\ lifecycle once = Unmounted
      /\ uncaught once = (uncaught st ++ [Js.SyntaxError])%list).
Proof.
  intros st.
  assert (HI : Inv st) by apply Inv_run, Inv_initial.
  split; [intros h1 h2; now apply live_unique|].
  assert (Hgrow : forall s : State,
            Inv s -> lifecycle s <> Unmounted ->
            Inv (connect s) /\ lifecycle (connect s) <> Unmounted
            /\ sockets (connect s) = sockets s
            /\ forall t u ws, lifecycle (connect s) = Committed t u ws ->
                 (t < reconnectTrigger (connect s))%nat).
  { intros s Hs Hms. split; [|split; [|split]].
    - apply (Inv_quiet s); auto using quiet_connect, quiet_refl.
    - exact Hms.
    - reflexivity.
    - intros t u ws Hl. cbn in *.
      destruct (inv_committed _ Hs t u ws Hl) as (_ & _ & _ & Hle). lia. }
  split.
  2: { intros Hm Hrej once.
       destruct (Hgrow st HI Hm) as (HI1 & Hm1 & Hk1 & Hd1).
       destruct (commit_rejected _ HI1 Hm1 Hd1 Hrej)
         as (Hlen & Hl & Hu & Hi & Hnone).
       fold once in Hlen, Hl, Hu, Hi, Hnone. auto. }
  intros Hm Hacc fresh once twice batched.
  destruct (Hgrow st HI Hm) as (HI1 & Hm1 & Hk1 & Hd1).
  destruct (commit_reconnects _ HI1 Hm1 Hd1 Hacc)
    as (Hlen1 & Hc1 & Hi1 & Hu1).
  rewrite Hk1 in Hlen1, Hc1, Hu1. fold once fresh in Hlen1, Hc1, Hi1, Hu1.
  assert (HIo : Inv once) by now apply Inv_commit.
  assert (Hmo : lifecycle once <> Unmounted).
  { assert (Hlf : Wire.live_at fresh once) by now apply Hu1.
    apply live_at_iff in Hlf as (w & Hw & Hl).
    destruct (inv_live _ HIo fresh w Hw Hl) as (t & u & Hc). congruence. }
  destruct (Hgrow once HIo Hmo) as (HI2 & Hm2 & Hk2 & Hd2).
  destruct (Hgrow (connect st) HI1 Hm1) as (HI3 & Hm3 & Hk3 & Hd3).
  destruct (commit_reconnects _ HI3 Hm3 Hd3 Hacc)
    as (Hlen3 & Hc3 & Hi3 & Hu3).
  rewrite Hk3, Hk1 in Hu3. fold batched fresh in Hu3.
  split; [exact Hc1|]. split; [exact Hu1|]. split; [exact Hi1|].
  split.
  { intros Hacc2.
    destruct (commit_reconnects _ HI2 Hm2 Hd2 Hacc2)
      as (Hlen2 & Hc2 & Hi2 & Hu2).
    rewrite Hk2, Hlen1 in Hu2. fold twice in Hi2, Hu2. auto. }
  split; [exact Hu3|].
  intros t u ws Hl torn_down. subst torn_down. split; [|split].
  - exact (cleanup_all_closed (connect st) t u ws HI1 Hl).
  - now apply cleanup_no_intervals.
  - exists (opened (connection_cleanup ws (connect st))). split.
    + rewrite connection_effect_cases, cleanup_keeps_url.
      change (wsUrl_of (connect st)) with (wsUrl_of st).
      now rewrite Hacc.
    + subst once. unfold commit.
      change (lifecycle (connect st)) with (lifecycle st). rewrite Hl.
      rewrite (bool_decide_eq_false_2 (t = reconnectTrigger (connect st))).
      * cbn [andb]. rewrite connection_effect_cases, cleanup_keeps_url.
        change (wsUrl_of (connect st)) with (wsUrl_of st).
        now rewrite Hacc.
      * specialize (Hd1 t u ws Hl). lia.
Qed.

(** ** The socket opens: registration, then the heartbeat *)

Lemma send_tracked_open (h : Handle) (m : Envelope) (st : State)
    (w : WebSocket Envelope) :
  socket_at h st = Some w -> readyState w = OPEN ->
  send_tracked h m st
  = inr (track (TrackedSent m)
           (update_socket h
              (fun _ => {| url := url w; readyState := OPEN;
                           transmitted := transmitted w ++ [m];
                           discarded := discarded w |}) st)).
Proof.
  intros Hw Ho. unfold send_tracked. rewrite Hw. unfold send. rewrite Ho.
  reflexivity.
Qed.

Lemma is_open_false_of_closed (s : option Handle) (st : State) :
  (forall h w, s = Some h -> socket_at h st = Some w -> live w = false) ->
  is_open s st = false.
Proof.
  intros Hc. unfold is_open. destruct s as [h|]; [|reflexivity].
  destruct (socket_at h st) as [w|] eqn:Hw; [|reflexivity].
  specialize (Hc h w eq_refl Hw). unfold live in Hc.
  now destruct (readyState w).
Qed.

Lemma open_step (st : State) (ws : Handle) (w : WebSocket Envelope)
    (created : Z) (rid : string) (timestamp now : Z) (r : float) :
  Inv st -> socket_at ws st = Some w -> readyState w = CONNECTING ->
  let st' := step (Open ws created rid timestamp now r) st in
  let id := nextIntervalId st in
  status st' = connected
  /\ socket_at ws st'
     = Some {| url := url w; readyState := OPEN;
               transmitted := [Wire.registration rid created];
               discarded := discarded w |}
  /\ pingIntervalRef st' = Some id
  /\ intervals st' = {[ id := {| callback := Heartbeat ws; delay := 500 |} ]}.
Proof.
  intros HI Hw Hc st' id. subst st' id.
  destruct (inv_connecting _ HI ws w Hw Hc) as [Hnil Hno].
  destruct (inv_live _ HI ws w Hw) as (t & u & Hl).
  { unfold live. now rewrite Hc. }
  cbn [step]. rewrite Hw. cbn [fmap option_fmap option_map]. rewrite Hc.
  unfold onopen.
  set (st_a := update_socket ws (set_readyState OPEN) st).
  match goal with |- context [send_tracked ws ?m ?s] =>
    set (reg := m); set (st1 := s) end.
  assert (Hw1 : socket_at ws st1 = Some (set_readyState OPEN w)).
  { change (socket_at ws st1) with (socket_at ws st_a). subst st_a.
    now rewrite socket_at_update_eq, Hw. }
  rewrite (send_tracked_open ws reg st1 _ Hw1 eq_refl).
  set (sent := {| url := _; readyState := OPEN; transmitted := _;
                  discarded := _ |}).
  set (st2 := track _ _).
  apply socket_at_Some in Hw as He. destruct He as (e & He & Hse).
  assert (Hk2 : sockets st2
            = alter (on_sock (fun _ => sent)) ws
                (alter (on_sock (set_readyState OPEN)) ws (sockets st)))
    by reflexivity.
  assert (Hs : default None (closure_socket <$> sockets st2 !! ws)
               = closure_socket e).
  { rewrite Hk2, !list_lookup_alter_eq, He. reflexivity. }
  rewrite Hs.
  assert (Hclosed : is_open (closure_socket e) st2 = false).
  { apply is_open_false_of_closed. intros h w' Hh Hw'.
    pose proof (inv_closure _ HI ws e h He Hh) as Hlt.
    assert (Hw0 : socket_at h st = Some w').
    { revert Hw'. unfold socket_at. rewrite Hk2.
      rewrite !list_lookup_alter_ne by lia. auto. }
    apply not_live_true. intros Hlive.
    destruct (inv_live _ HI h w' Hw0 Hlive) as (t' & u' & Hl').
    rewrite Hl in Hl'. injection Hl' as _ _ Heq. lia. }
  unfold requestBatteryLevel_with. rewrite Hclosed. cbn.
  repeat split.
  - unfold socket_at. cbn. rewrite !list_lookup_alter_eq, He. cbn.
    subst sent reg. cbn. rewrite Hnil. reflexivity.
  - rewrite Hno. reflexivity.
Qed.

(** C9. When a connecting socket of a reachable state opens, the status
    becomes connected, and the one frame then on its wire is the
    [client_register] of a controller whose id ends in the random text just
    drawn.  No interval existed before; the handler leaves exactly one,
    with a delay of 500 ms, held by [pingIntervalRef], and each of its runs
    adds a [ping] whose payload is [{ sentAt }] with the clock's reading. *)
Theorem open_registers_then_starts_heartbeat
    (storage : gmap string string) (evs : list Event) (ws : Handle)
    (created : Z) (rid : string) (timestamp now : Z) (r : float) :
  let st := run evs (initial storage) in
  readyState <$> socket_at ws st = Some CONNECTING ->
  let st' := step (Open ws created rid timestamp now r) st in
  status st' = connected
  /\ readyState <$> socket_at ws st' = Some OPEN
  /\ Wire.wire ws st = Some []
  /\ Wire.wire ws st' = Some [Wire.registration rid created]
  /\ intervals st = ∅
  /\ exists id,
       pingIntervalRef st' = Some id
       /\ intervals st'
          = {[ id := {| callback := Heartbeat ws; delay := 500 |} ]}
       /\ forall sentAt at_,
            Wire.wire ws (step (IntervalFires id sentAt at_) st')
            = Some [Wire.registration rid created;
                    Wire.ping_of sentAt at_].
Proof.
  intros st Hc st'.
  assert (HI : Inv st) by apply Inv_run, Inv_initial.
  destruct (socket_at ws st) as [w|] eqn:Hw; [|discriminate].
  cbn in Hc. injection Hc as Hc.
  destruct (inv_connecting _ HI ws w Hw Hc) as [Hnil Hno].
  destruct (open_step st ws w created rid timestamp now r HI Hw Hc)
    as (Hst & Hw' & Hp & Hi).
  fold st' in Hst, Hw', Hp, Hi. clearbody st'.
  unfold Wire.wire. rewrite Hw, Hw'. cbn. rewrite Hnil.
  repeat split; auto.
  exists (nextIntervalId st). repeat split; auto.
  intros sentAt at_. cbn [step]. rewrite Hi, lookup_singleton_eq.
  unfold heartbeat. rewrite Hw'. cbn [readyState ReadyState_eqb].
  erewrite send_tracked_open by (eauto; reflexivity).
  unfold socket_at. cbn. rewrite list_lookup_alter_eq.
  apply socket_at_Some in Hw' as (e' & -> & _). reflexivity.
Qed.

End ConnectionFacts.

Lemma at_most_one_live_socket_witness :
  Wire.live_at 2%nat
    (Provider.commit (H := Sample.table_runtime)
       (Provider.connect
          (Provider.commit (H := Sample.table_runtime)
             (Provider.connect
                (Provider.run (H := Sample.table_runtime)
                   [Provider.Commit] (Provider.initial ∅)))))).
Proof.
  pose proof (at_most_one_live_socket (H := Sample.table_runtime) ∅
                [Provider.Commit]) as W.
  cbv zeta in W. destruct W as [_ [W _]].
  assert (Hm : Provider.lifecycle
                 (Provider.run (H := Sample.table_runtime)
                    [Provider.Commit] (Provider.initial ∅))
               <> Provider.Unmounted) by (vm_compute; discriminate).
  assert (Ha : Js.accepts (Runtime := Sample.table_runtime)
                 (Provider.wsUrl_of (H := Sample.table_runtime)
                    (Provider.run (H := Sample.table_runtime)
                       [Provider.Commit] (Provider.initial ∅)))
               = true) by (vm_compute; reflexivity).
  destruct (W Hm Ha) as (_ & _ & _ & Htwice & _).
  apply Htwice; vm_compute; reflexivity.
Defined.

Lemma open_registers_then_starts_heartbeat_witness :
  Wire.wire 0%nat
    (Provider.step (H := Sample.table_runtime)
       (Provider.Open 0%nat 900 "abc1234" 901 902 0.5)
       (Provider.run (H := Sample.table_runtime)
          [Provider.Commit] (Provider.initial ∅)))
  = Some [Wire.registration "abc1234" 900].
Proof.
  pose proof (open_registers_then_starts_heartbeat
                (H := Sample.table_runtime) ∅ [Provider.Commit] 0%nat
                900 "abc1234" 901 902 0.5) as W.
  cbv zeta in W.
  assert (Hc : WebSocketApi.readyState <$>
                 Provider.socket_at 0
                   (Provider.run (H := Sample.table_runtime)
                      [Provider.Commit] (Provider.initial ∅))
               = Some WebSocketApi.CONNECTING) by (vm_compute; reflexivity).
  apply W in Hc. apply Hc.
Defined.

(* --------------------------------------------------------------------- *)
(** ** Latency samples and the pings that were sent                       *)
(* --------------------------------------------------------------------- *)

(** C3, as the code has it.  The dispatcher compares nothing: every [pong]
    delivered on an open socket whose [data.sentAt] is a number [T], any
    binary64 at all, sets [pingTime] to [now - T], the binary64 difference,
    whatever pings were sent before, and it neither reads nor changes what
    the sockets transmitted. *)
Theorem pong_updates_latency_without_matching `{Js.Runtime}
    (st : Provider.State) (ws : Provider.Handle) (frame : string)
    (event : Js.value) (now : Z) (T : float) :
  WebSocketApi.readyState <$> Provider.socket_at ws st
  = Some WebSocketApi.OPEN ->
  Js.JSON_parse frame = Some event ->
  Wire.is_pong event T ->
  let st' := Provider.step (Provider.Message ws frame now) st in
  Provider.pingTime st' = Some (Js.of_Z now - T)%float
  /\ Provider.sockets st' = Provider.sockets st
  /\ forall h, Wire.last_ping <$> Wire.wire h st'
               = Wire.last_ping <$> Wire.wire h st.
Proof.
  intros Ho Hparse Hpong st'. subst st'. cbn [Provider.step].
  rewrite Ho. unfold Provider.onmessage. rewrite Hparse.
  rewrite (dispatch_pong _ _ _ _ Hpong). repeat split.
Qed.

Lemma pong_updates_latency_without_matching_witness :
  Provider.pingTime
    (Provider.step (H := Sample.table_runtime)
       (Provider.Message 0%nat (Sample.pong_text "5") 1042)
       (Provider.run (H := Sample.table_runtime)
          [Provider.Commit;
           Provider.Open 0%nat 900 "abc1234" 901 902 0.5;
           Provider.IntervalFires 1%nat 1000 1000]
          (Provider.initial ∅)))
  = Some (Js.of_Z 1042 - 5)%float.
Proof.
  apply (pong_updates_latency_without_matching (H := Sample.table_runtime)
           _ 0%nat (Sample.pong_text "5") (Sample.pong_event 5) 1042 5).
  - vm_compute. reflexivity.
  - vm_compute. reflexivity.
  - split; [reflexivity|]. eexists. split; reflexivity.
Defined.

(** C3 as stated fails: the last ping on the wire carried [sentAt = 1000];
    a [pong] carrying [sentAt = 5] still produces a latency sample. *)
Lemma unmatched_pong_counterexample :
  let st :=
    Provider.run (H := Sample.table_runtime)
      [Provider.Commit;
       Provider.Open 0%nat 900 "abc1234" 901 902 0.5;
       Provider.IntervalFires 1%nat 1000 1000]
      (Provider.initial ∅) in
  Wire.last_ping <$> Wire.wire 0%nat st = Some (Some (Js.Num 1000))
  /\ Js.JSON_parse (Runtime := Sample.table_runtime) (Sample.pong_text "5")
     = Some (Sample.pong_event 5)
  /\ Js.Num 5 <> Js.Num 1000
  /\ Provider.pingTime st = None
  /\ Provider.pingTime
       (Provider.step (H := Sample.table_runtime)
          (Provider.Message 0%nat (Sample.pong_text "5") 1042) st)
     = Some 1037%float.
Proof.
  cbv zeta. split; [vm_compute; reflexivity|].
  split; [vm_compute; reflexivity|]. split.
  - intros E. assert (E' : 5%float = 1000%float) by congruence.
    apply (f_equal Prim2SF) in E'. vm_compute in E'. discriminate.
  - split; vm_compute; reflexivity.
Qed.

(* --------------------------------------------------------------------- *)
(** ** After the socket has closed                                        *)
(* --------------------------------------------------------------------- *)

Section ProviderAfterClose.

Import WebSocketApi Provider Connection.

Context `{Js.Runtime}.













(** In the provider the close event of a socket, the effect's cleanup and
    the unmount each leave no interval set. *)
Lemma provider_close_clears_heartbeat (storage : gmap string string)
    (evs : list Event) (ws : Handle) :
  let st := run evs (initial storage) in
  (forall r, readyState <$> socket_at ws st = Some r -> r <> CLOSED ->
     intervals (step (Close ws) st) = ∅
     /\ pingIntervalRef (step (Close ws) st) = None)
  /\ intervals (connection_cleanup ws st) = ∅
  /\ (lifecycle st <> Fresh -> intervals (unmount st) = ∅).
Proof.
  intros st.
  assert (HI : Inv st) by apply Inv_run, Inv_initial.
  split; [|split].
  - intros r Hr Hne. cbn [step]. rewrite Hr.
    set (st1 := update_socket ws (set_readyState CLOSED) st).
    assert (Hq : quiet st st1).
    { apply quiet_update_socket; auto using ages_closed, quiet_refl. }
    assert (Hgoal : intervals (onclose st1) = ∅
                    /\ pingIntervalRef (onclose st1) = None).
    { unfold onclose. split.
      - apply (clear_heartbeat_clears st); [assumption|]. now quiet_peel.
      - unfold clear_heartbeat.
        match goal with |- context [match ?x with _ => _ end] =>
          destruct x eqn:Hp end; [reflexivity|exact Hp]. }
    destruct r; try assumption. congruence.
  - now apply cleanup_no_intervals.
  - intros Hf. unfold unmount.
    destruct (lifecycle st) as [|t u ws'|] eqn:Hl; [congruence| |].
    + cbn. now apply cleanup_no_intervals.
    + cbn. apply Inv_no_intervals_unless_committed; auto.
      intros; congruence.
Qed.

End ProviderAfterClose.

(** In the widget neither [onclose] nor [onerror] touches the heartbeat
    interval. *)
Lemma widget_close_keeps_pingLoop `{Js.Runtime} (st : StatusWidget.State) :
  StatusWidget.pingLoop (StatusWidget.step StatusWidget.Close st)
  = StatusWidget.pingLoop st
  /\ StatusWidget.pingLoop (StatusWidget.step StatusWidget.Error st)
     = StatusWidget.pingLoop st.
Proof.
  split; cbn; unfold StatusWidget.ws_state;
    destruct (StatusWidget.ws st) as [[u [] t d]|]; reflexivity.
Qed.

(** C7 fails in the widget.  Mount it, let its socket open and then close:
    the status is disconnected and the bridge interval is cleared, but the
    heartbeat interval is still set, and its next run hands another [ping]
    to [send] on the closed socket. *)
Theorem widget_heartbeat_outlives_the_socket `{Js.Runtime}
    (active : string -> bool) (axis : string -> option float)
    (bindings : gmap string Gamepad.Mapping) (sentAt created : Z) :
  let g :=
    {| StatusWidget.isActionActive := active;
       StatusWidget.getAxisValueForAction := axis;
       StatusWidget.selectedGamepadId := Some "pad-0";
       StatusWidget.mappings := bindings |} in
  let connected :=
    StatusWidget.run
      [StatusWidget.Mount; StatusWidget.Open; StatusWidget.Render]
      (StatusWidget.initial g) in
  let st :=
    StatusWidget.run [StatusWidget.Close; StatusWidget.Render] connected in
  StatusWidget.interval connected = true
  /\ StatusWidget.pingLoop connected = true
  /\ StatusWidget.status st = StatusWidget.disconnected
  /\ StatusWidget.ws_state st = Some WebSocketApi.CLOSED
  /\ StatusWidget.interval st = false
  /\ StatusWidget.pingLoop st = true
  /\ (WebSocketApi.discarded <$>
        StatusWidget.ws
          (StatusWidget.step (StatusWidget.PingLoopFires sentAt created) st))
     = Some [StatusWidget.ping sentAt created].
Proof.
  intros g connected st. subst g connected st.
  vm_compute. repeat split.
Qed.

(* ===================================================================== *)
(** * Further properties of the code                                      *)
(* ===================================================================== *)

(* --------------------------------------------------------------------- *)
(** ** The dispatcher, kind by kind                                       *)
(* --------------------------------------------------------------------- *)

Section DispatcherKinds.

Import Provider.

Context `{Js.Runtime}.

Lemma unhandled_kind (tag : Js.value) (kind : string) :
  Protocol.unhandled tag -> kind ∈ Protocol.handled_kinds ->
  Js.is_string tag kind = false.
Proof. intros Hu Hk. now apply Hu. Qed.

Ltac kind_in_list := unfold Protocol.handled_kinds; set_solver.

(** X1. A frame that parses but whose [name] is none of the eight handled
    kinds (or is no string at all) is only recorded in the debug track:
    nothing else of the provider's state changes, and nothing is logged as
    an error. *)
Theorem unknown_kind_is_ignored
    (frame : string) (event tag : Js.value) (now : Z) (st : State) :
  Js.JSON_parse frame = Some event ->
  Js.get event "name" = inr tag ->
  Protocol.unhandled tag ->
  onmessage frame now st = track (TrackedReceived event) st.
Proof.
  intros Hparse Hname Hun. unfold onmessage, dispatch. rewrite Hparse, Hname.
  cbn [Js.bind].
  rewrite !(unhandled_kind tag _ Hun) by kind_in_list.
  reflexivity.
Qed.




(** X3. A [pong], [battery_info] or [settings] frame that parses but has no
    [data] (it is missing or [null]) makes the handler's read throw; the
    [catch] reports it like a parse error, with the [TypeError] and the
    raw frame, and the latency and every data slot stay as they are. *)
Theorem missing_payload_is_reported
    (frame : string) (event tag payload : Js.value) (now : Z) (st : State) :
  Js.JSON_parse frame = Some event ->
  Js.get event "name" = inr tag ->
  Js.is_string tag "pong" = true
  \/ Js.is_string tag "battery_info" = true
  \/ Js.is_string tag "settings" = true ->
  Js.get event "data" = inr payload ->
  Protocol.nullish_value payload ->
  let st' := onmessage frame now st in
  (exists key,
     st' = report_parse_error (Js.TypeError key) frame
             (track (TrackedReceived event) st))
  /\ pingTime st' = pingTime st
  /\ batteryLevel st' = batteryLevel st
  /\ settings st' = settings st
  /\ windowEvents st' = windowEvents st
  /\ length (errorSink st') = S (length (errorSink st)).
Proof.
  intros Hparse Hname Hkind Hdata Hnull st'. subst st'.
  unfold onmessage, dispatch. rewrite Hparse, Hname. cbn [Js.bind].
  assert (Hthrow : forall key, exists e, Js.get payload key = inl e
                                         /\ e = Js.TypeError key).
  { intros key. destruct Hnull as [-> | ->]; eauto. }
  destruct tag as [| |b|n|s|l|f]; cbn in Hkind;
    try (destruct Hkind as [Hk|[Hk|Hk]]; discriminate).
  cbn [Js.is_string].
  destruct (String.eqb s "pong") eqn:Hp.
  { rewrite Hdata. cbn [Js.bind].
    destruct (Hthrow "sentAt") as (e & -> & ->). cbn.
    rewrite length_app. cbn. repeat split; eauto; lia. }
  destruct (String.eqb s "battery_info") eqn:Hb.
  { rewrite Hdata. cbn [Js.bind].
    destruct (Hthrow "level") as (e & -> & ->). cbn.
    rewrite length_app. cbn. repeat split; eauto; lia. }
  destruct (String.eqb s "sensor_data") eqn:Hs1.
  { apply String.eqb_eq in Hs1. subst s.
    destruct Hkind as [Hk|[Hk|Hk]]; discriminate. }
  destruct (String.eqb s "camera_status") eqn:Hs2.
  { apply String.eqb_eq in Hs2. subst s.
    destruct Hkind as [Hk|[Hk|Hk]]; discriminate. }
  destruct (String.eqb s "settings") eqn:Hs3.
  { rewrite Hdata. cbn [Js.bind].
    destruct (Hthrow "settings") as (e & -> & ->). cbn.
    rewrite length_app. cbn. repeat split; eauto; lia. }
  destruct Hkind as [Hk|[Hk|Hk]]; discriminate.
Qed.

(** X4. A [sensor_data], [camera_status] or [command_response] frame is
    stored as it comes: whatever [data] is, [undefined] included, becomes
    the slot's value, with no check and no error report.  The [window]
    event of a [command_response] carries that [data] as its [detail], or
    [null] when [data] is [undefined]. *)
Theorem payload_is_stored_unchecked
    (frame : string) (event payload : Js.value) (now : Z) (st : State) :
  Js.JSON_parse frame = Some event ->
  Js.get event "data" = inr payload ->
  let st' := onmessage frame now st in
  (Js.get event "name" = inr (Js.Str "sensor_data") ->
   sensorData st' = payload /\ errorSink st' = errorSink st)
  /\ (Js.get event "name" = inr (Js.Str "camera_status") ->
      cameraStatus st' = payload /\ errorSink st' = errorSink st)
  /\ (Js.get event "name" = inr (Js.Str "command_response") ->
      commandResponse st' = payload
      /\ windowEvents st'
         = (windowEvents st
            ++ [("debug:command-response",
                 match payload with
                 | Js.Undefined => Js.Null
                 | detail => detail
                 end)])%list
      /\ errorSink st' = errorSink st).
Proof.
  intros Hparse Hdata st'. subst st'. unfold onmessage, dispatch.
  rewrite Hparse.
  split; [|split]; intros Hname; rewrite Hname; cbn; rewrite Hdata;
    repeat split.
Qed.

(** X5. A [pong] whose [data] holds no [sentAt] does not fail: the latency
    becomes [NaN]. *)
Theorem pong_without_sentAt_gives_NaN
    (frame : string) (event payload : Js.value) (now : Z) (st : State) :
  Js.JSON_parse frame = Some event ->
  Js.get event "name" = inr (Js.Str "pong") ->
  Js.get event "data" = inr payload ->
  Js.get payload "sentAt" = inr Js.Undefined ->
  pingTime (onmessage frame now st) = Some Js.NaN
  /\ errorSink (onmessage frame now st) = errorSink st.
Proof.
  intros Hparse Hname Hdata Hsent. unfold onmessage, dispatch.
  rewrite Hparse, Hname. cbn. rewrite Hdata. cbn. rewrite Hsent.
  cbn. split; [|reflexivity].
  unfold Js.NaN. now rewrite float_sub_nan_r.
Qed.

(** X6. A [settings] frame replaces the settings only when its
    [data.settings] is truthy; with the field missing, [null], [false], 0
    or the empty string the frame changes nothing but the debug track. *)
Theorem settings_replaced_only_when_truthy
    (frame : string) (event payload new_settings : Js.value) (now : Z)
    (st : State) :
  Js.JSON_parse frame = Some event ->
  Js.get event "name" = inr (Js.Str "settings") ->
  Js.get event "data" = inr payload ->
  Js.get payload "settings" = inr new_settings ->
  onmessage frame now st
  = if Js.truthy new_settings
    then setSettings new_settings (track (TrackedReceived event) st)
    else track (TrackedReceived event) st.
Proof.
  intros Hparse Hname Hdata Hnew. unfold onmessage, dispatch.
  rewrite Hparse, Hname. cbn. rewrite Hdata. cbn. rewrite Hnew. cbn.
  now destruct (Js.truthy new_settings).
Qed.

End DispatcherKinds.

Lemma unknown_kind_is_ignored_witness :
  Provider.onmessage (H := Frames.runtime)
    (Frames.framed_text "car_ready" "{}") 7 (Provider.initial ∅)
  = Provider.track
      (Provider.TrackedReceived (Frames.framed "car_ready" (Js.Obj [])))
      (Provider.initial ∅).
Proof.
  apply (unknown_kind_is_ignored (H := Frames.runtime)
           (Frames.framed_text "car_ready" "{}")
           (Frames.framed "car_ready" (Js.Obj [])) (Js.Str "car_ready")).
  - vm_compute. reflexivity.
  - reflexivity.
  - intros kind Hk. unfold Protocol.handled_kinds in Hk.
    repeat (apply elem_of_cons in Hk as [->|Hk]; [reflexivity|]).
    now apply elem_of_nil in Hk.
Defined.


Lemma missing_payload_is_reported_witness :
  Provider.pingTime
    (Provider.onmessage (H := Frames.runtime) (Frames.bare_text "pong") 7
       (Provider.initial ∅))
  = Provider.pingTime (Provider.initial ∅).
Proof.
  apply (missing_payload_is_reported (H := Frames.runtime)
           (Frames.bare_text "pong") (Frames.bare "pong") (Js.Str "pong")
           Js.Undefined 7 (Provider.initial ∅)).
  - vm_compute. reflexivity.
  - reflexivity.
  - left. reflexivity.
  - reflexivity.
  - left. reflexivity.
Defined.

Lemma payload_is_stored_unchecked_witness :
  Provider.sensorData
    (Provider.onmessage (H := Frames.runtime)
       (Frames.bare_text "sensor_data") 7 (Provider.initial ∅))
  = Js.Undefined.
Proof.
  apply (payload_is_stored_unchecked (H := Frames.runtime)
           (Frames.bare_text "sensor_data") (Frames.bare "sensor_data")
           Js.Undefined 7 (Provider.initial ∅)).
  - vm_compute. reflexivity.
  - reflexivity.
  - reflexivity.
Defined.

Lemma pong_without_sentAt_gives_NaN_witness :
  Provider.pingTime
    (Provider.onmessage (H := Frames.runtime)
       (Frames.framed_text "pong" "{}") 7 (Provider.initial ∅))
  = Some Js.NaN.
Proof.
  apply (pong_without_sentAt_gives_NaN (H := Frames.runtime)
           (Frames.framed_text "pong" "{}")
           (Frames.framed "pong" (Js.Obj [])) (Js.Obj []) 7
           (Provider.initial ∅)).
  - vm_compute. reflexivity.
  - reflexivity.
  - reflexivity.
  - reflexivity.
Defined.

Lemma settings_replaced_only_when_truthy_witness :
  Provider.onmessage (H := Frames.runtime)
    (Frames.framed_text "settings" "{}") 7 (Provider.initial ∅)
  = Provider.track
      (Provider.TrackedReceived (Frames.framed "settings" (Js.Obj [])))
      (Provider.initial ∅).
Proof.
  apply (settings_replaced_only_when_truthy (H := Frames.runtime)
           (Frames.framed_text "settings" "{}")
           (Frames.framed "settings" (Js.Obj [])) (Js.Obj []) Js.Undefined
           7 (Provider.initial ∅)).
  - vm_compute. reflexivity.
  - reflexivity.
  - reflexivity.
  - reflexivity.
Defined.

(* --------------------------------------------------------------------- *)
(** ** Commands issued while the socket is open                           *)
(* --------------------------------------------------------------------- *)

Section OpenCommands.

Import WebSocketApi Provider.

Lemma lookup_assign_eq (key : string) (v : Js.value)
    (fields : list (string * Js.value)) :
  Js.lookup_field key (assign key v fields) = v.
Proof.
  induction fields as [|[k x] rest IH]; cbn.
  - now rewrite String.eqb_refl.
  - destruct (String.eqb k key) eqn:Hk; cbn; rewrite Hk; auto.
Qed.

Lemma lookup_assign_ne (key other : string) (v : Js.value)
    (fields : list (string * Js.value)) :
  other <> key ->
  Js.lookup_field other (assign key v fields) = Js.lookup_field other fields.
Proof.
  intros Hne. induction fields as [|[k x] rest IH]; cbn.
  - destruct (String.eqb key other) eqn:Hk; [|reflexivity].
    apply String.eqb_eq in Hk. congruence.
  - destruct (String.eqb k key) eqn:Hk; cbn.
    + apply String.eqb_eq in Hk. subst k.
      destruct (String.eqb key other) eqn:Hk'; [|reflexivity].
      apply String.eqb_eq in Hk'. congruence.
    + destruct (String.eqb k other); auto.
Qed.

Lemma lookup_spread (key : string) (over extra : list (string * Js.value)) :
  Js.lookup_field key (spread over extra)
  = match Protocol.last_binding key extra with
    | Some v => v
    | None => Js.lookup_field key over
    end.
Proof.
  induction extra as [|[k x] extra IH] using rev_ind; [reflexivity|].
  unfold spread, Protocol.last_binding in *. rewrite !foldl_app. cbn.
  destruct (String.eqb k key) eqn:Hk.
  - apply String.eqb_eq in Hk. subst k. apply lookup_assign_eq.
  - rewrite lookup_assign_ne; [apply IH|].
    intros ->. now rewrite String.eqb_refl in Hk.
Qed.

Lemma is_open_of_open (h : Handle) (w : WebSocket Envelope) (st : State) :
  socket_at h st = Some w -> readyState w = OPEN ->
  is_open (Some h) st = true.
Proof. intros Hw Ho. unfold is_open. now rewrite Hw, Ho. Qed.

Lemma send_or_report_open (h : Handle) (w : WebSocket Envelope)
    (m : Envelope) (said failure : string)
    (extra : list (string * Detail)) (st : State) :
  socket_at h st = Some w -> readyState w = OPEN ->
  send_or_report (Some h) m said failure extra st
  = console_write said
      (track (TrackedSent m)
         (update_socket h
            (fun _ => {| url := url w; readyState := OPEN;
                         transmitted := transmitted w ++ [m];
                         discarded := discarded w |}) st)).
Proof.
  intros Hw Ho. unfold send_or_report.
  rewrite (is_open_of_open h w st Hw Ho).
  now rewrite (send_tracked_open h m st w Hw Ho).
Qed.

Lemma sent_on_open (h : Handle) (w : WebSocket Envelope) (m : Envelope)
    (st st' : State) :
  socket_at h st = Some w ->
  sockets st'
  = sockets
      (update_socket h
         (fun _ => {| url := url w; readyState := OPEN;
                      transmitted := transmitted w ++ [m];
                      discarded := discarded w |}) st) ->
  Wire.wire h st' = Some (transmitted w ++ [m])%list
  /\ forall h', h' <> h -> socket_at h' st' = socket_at h' st.
Proof.
  intros Hw Hk. unfold Wire.wire, socket_at in *. rewrite Hk.
  rewrite sockets_update_socket. split.
  - rewrite list_lookup_alter_eq.
    destruct (sockets st !! h); [reflexivity|discriminate].
  - intros h' Hne. now rewrite list_lookup_alter_ne.
Qed.

(** X7. On an open socket each of the ten commands puts exactly one
    envelope on that socket's wire, of the command's kind and with
    [createdAt] the clock's reading, records it in the debug track and
    touches no other socket; it reports no error and leaves the status,
    the battery level, the heartbeat and the [window] events alone.  All
    but [sendGamepadState] stamp the payload with a [timestamp]. *)
Theorem open_command_sends_one_frame
    (h : Handle) (w : WebSocket Envelope) (c : Protocol.Command)
    (timestamp now : Z) (st : State) :
  socket_at h st = Some w -> readyState w = OPEN ->
  let st' := Protocol.perform (Some h) c timestamp now st in
  exists m,
    name m = Protocol.kind_of c
    /\ createdAt m = now
    /\ Wire.wire h st' = Some (transmitted w ++ [m])%list
    /\ debugTrack st' = (debugTrack st ++ [TrackedSent m])%list
    /\ (forall h', h' <> h -> socket_at h' st' = socket_at h' st)
    /\ errorSink st' = errorSink st
    /\ status st' = status st
    /\ batteryLevel st' = batteryLevel st
    /\ intervals st' = intervals st
    /\ windowEvents st' = windowEvents st
    /\ match c with
       | Protocol.CGamepadState g => data m = g
       | _ => Js.get (data m) "timestamp" = inr (Js.Num (Js.of_Z timestamp))
       end.
Proof.
  intros Hw Ho st'. subst st'.
  pose proof (is_open_of_open h w st Hw Ho) as Hopen.
  destruct c; cbn [Protocol.perform Protocol.kind_of];
    unfold sendGamepadState_with, requestBatteryLevel_with,
      restartCameraFeed_with, sendRobotCommand_with, updateSettings_with,
      speakText_with, playSound_with, scanNetworks_with,
      updateNetwork_with, sendGptCommand_with;
    rewrite ?Hopen, ?(send_or_report_open h w _ _ _ _ st Hw Ho),
      ?(send_tracked_open h _ st w Hw Ho);
    (eexists;
     (split; [|split; [|split;
        [eapply sent_on_open; [exact Hw|reflexivity]|]]]);
     [reflexivity|reflexivity|];
     split; [reflexivity|];
     split; [eapply sent_on_open; [exact Hw|reflexivity]|];
     repeat split).
  cbn. apply f_equal, lookup_assign_eq.
Qed.

(** X8. The payload of [updateNetwork] is [{ action, ...data, timestamp }]:
    its [timestamp] is always the clock's reading, even when [data] has a
    [timestamp] of its own; every other key reads as the last value [data]
    gives it, and [action] reads as the argument only when [data] has no
    [action]. *)
Theorem updateNetwork_payload
    (h : Handle) (w : WebSocket Envelope) (action : string)
    (networkData : list (string * Js.value)) (timestamp now : Z)
    (st : State) :
  socket_at h st = Some w -> readyState w = OPEN ->
  exists m,
    Wire.wire h (updateNetwork_with (Some h) action networkData timestamp
                   now st)
    = Some (transmitted w ++ [m])%list
    /\ Js.get (data m) "timestamp" = inr (Js.Num (Js.of_Z timestamp))
    /\ forall key, key <> "timestamp" ->
         Js.get (data m) key
         = inr (match Protocol.last_binding key networkData with
                | Some v => v
                | None =>
                    if String.eqb key "action" then Js.Str action
                    else Js.Undefined
                end).
Proof.
  intros Hw Ho. unfold updateNetwork_with.
  rewrite (send_or_report_open h w _ _ _ _ st Hw Ho).
  eexists. split; [eapply sent_on_open; [exact Hw|reflexivity]|].
  cbn. split.
  - apply f_equal, lookup_assign_eq.
  - intros key Hne. apply f_equal.
    rewrite lookup_assign_ne by assumption. rewrite lookup_spread.
    destruct (Protocol.last_binding key networkData); [reflexivity|].
    cbn. rewrite String.eqb_sym. reflexivity.
Qed.

End OpenCommands.

Lemma open_command_sends_one_frame_witness :
  exists m,
    Provider.name m = "robot_command"
    /\ Wire.wire 0%nat
         (Protocol.perform (Some 0%nat) (Protocol.CRobotCommand "stop_robot")
            10 11 Frames.connected_state)
       = Some (WebSocketApi.transmitted Frames.connected_socket ++ [m])%list.
Proof.
  destruct (open_command_sends_one_frame 0%nat Frames.connected_socket
              (Protocol.CRobotCommand "stop_robot") 10 11
              Frames.connected_state)
    as (m & Hname & _ & Hwire & _).
  - vm_compute. reflexivity.
  - reflexivity.
  - exists m. split; assumption.
Defined.

Lemma updateNetwork_payload_witness :
  exists m,
    Wire.wire 0%nat
      (Provider.updateNetwork_with (Some 0%nat) "connect_wifi"
         [("ssid", Js.Str "pit-lane"); ("timestamp", Js.Num 1)] 10 11
         Frames.connected_state)
    = Some (WebSocketApi.transmitted Frames.connected_socket ++ [m])%list
    /\ Js.get (Provider.data m) "timestamp" = inr (Js.Num 10).
Proof.
  destruct (updateNetwork_payload 0%nat Frames.connected_socket
              "connect_wifi"
              [("ssid", Js.Str "pit-lane"); ("timestamp", Js.Num 1)] 10 11
              Frames.connected_state)
    as (m & Hwire & Hstamp & _).
  - vm_compute. reflexivity.
  - reflexivity.
  - exists m. split; assumption.
Defined.

(* --------------------------------------------------------------------- *)
(** ** Disconnecting, errors and stale events                             *)
(* --------------------------------------------------------------------- *)

Section Disconnecting.

Import WebSocketApi Provider Connection.

Context `{Js.Runtime}.

Lemma close_if_live_idle (h : Handle) (st : State) :
  (forall w, socket_at h st = Some w -> live w = false) ->
  close_if_live h st = st.
Proof.
  intros Hd. unfold close_if_live.
  destruct (socket_at h st) as [w|] eqn:Hw; [|reflexivity].
  specialize (Hd w eq_refl). unfold open_or_connecting, live in *.
  now destruct (readyState w).
Qed.

(** X9. [disconnect()] only starts the closing handshake of the socket the
    ref names: a live socket becomes closing, and the status, the heartbeat
    interval and every other socket stay as they are until the close event
    arrives.  With no socket, or one already closing or closed, it does
    nothing; calling it twice is calling it once. *)
Theorem disconnect_only_starts_closing (st : State) :
  (forall h w,
     socketRef st = Some h -> socket_at h st = Some w -> live w = true ->
     readyState <$> socket_at h (disconnect st) = Some CLOSING
     /\ Wire.wire h (disconnect st) = Some (transmitted w)
     /\ (forall h', h' <> h ->
           socket_at h' (disconnect st) = socket_at h' st))
  /\ ((forall h w,
         socketRef st = Some h -> socket_at h st = Some w ->
         live w = false) ->
      disconnect st = st)
  /\ status (disconnect st) = status st
  /\ intervals (disconnect st) = intervals st
  /\ pingIntervalRef (disconnect st) = pingIntervalRef st
  /\ disconnect (disconnect st) = disconnect st.
Proof.
  assert (Hfields : forall h s,
            status (close_if_live h s) = status s
            /\ intervals (close_if_live h s) = intervals s
            /\ pingIntervalRef (close_if_live h s) = pingIntervalRef s
            /\ socketRef (close_if_live h s) = socketRef s).
  { intros h s. unfold close_if_live. destruct (socket_at h s) as [w|];
      [destruct (open_or_connecting w)|]; repeat split. }
  split; [|split; [|split; [|split; [|split]]]].
  - intros h w Hr Hw Hl. unfold disconnect, close_if_live. rewrite Hr, Hw.
    assert (Ho : open_or_connecting w = true).
    { revert Hl. unfold open_or_connecting, live.
      now destruct (readyState w). }
    rewrite Ho. unfold Wire.wire. rewrite socket_at_update_eq, Hw. cbn.
    repeat split.
    + revert Hl. unfold close, live. now destruct w as [u [] t d].
    + unfold close. now destruct w as [u [] t d].
    + intros h' Hne. now apply socket_at_update_ne.
  - intros Hd. unfold disconnect.
    destruct (socketRef st) as [h|] eqn:Hr; [|reflexivity].
    apply close_if_live_idle. intros w Hw. now apply (Hd h).
  - unfold disconnect. destruct (socketRef st); [apply Hfields|reflexivity].
  - unfold disconnect. destruct (socketRef st); [apply Hfields|reflexivity].
  - unfold disconnect. destruct (socketRef st); [apply Hfields|reflexivity].
  - destruct (socketRef st) as [h|] eqn:Hr.
    + assert (Hd : disconnect st = close_if_live h st)
        by (unfold disconnect; now rewrite Hr).
      rewrite Hd. unfold disconnect.
      destruct (Hfields h st) as (_ & _ & _ & Hr'). rewrite Hr', Hr.
      apply close_if_live_idle. intros w. apply close_if_live_closes.
    + assert (Hd : disconnect st = st)
        by (unfold disconnect; now rewrite Hr).
      now rewrite !Hd.
Qed.

(** X10. In every state the provider reaches there is at most one interval:
    the one [pingIntervalRef] holds, set to 500 ms, whose callback closes
    over the very socket [socketRef] and the state variable [socket]
    name. *)
Theorem at_most_one_heartbeat
    (storage : gmap string string) (evs : list Event) :
  let st := run evs (initial storage) in
  forall id iv,
    intervals st !! id = Some iv ->
    intervals st = {[ id := iv ]}
    /\ pingIntervalRef st = Some id
    /\ delay iv = 500
    /\ exists ws,
         callback iv = Heartbeat ws
         /\ socketRef st = Some ws /\ socket st = Some ws.
Proof.
  intros st id iv Hiv.
  assert (HI : Inv st) by apply Inv_run, Inv_initial.
  destruct (inv_intervals _ HI id iv Hiv) as (Hp & t & u & ws & Hl & ->).
  destruct (inv_committed _ HI t u ws Hl) as (Hs & Hr & _).
  split; [|eauto 8].
  apply map_eq. intros j. destruct (decide (id = j)) as [<-|Hne].
  - now rewrite lookup_singleton_eq.
  - rewrite lookup_singleton_ne by done.
    destruct (intervals st !! j) as [iv'|] eqn:Hj; [|reflexivity].
    destruct (inv_intervals _ HI j iv' Hj) as (Hp' & _). congruence.
Qed.

(** X11. A connection that fails is reported and torn down.  The browser
    closes the socket and fires [error], whose handler only logs, reports
    and marks the provider disconnected (it closes nothing and leaves the
    heartbeat alone), and then [close], whose handler clears the heartbeat.
    So in every state the provider reaches, after the error event of a
    socket that was connecting or open the status is disconnected, the
    error sink has gained exactly the [WebSocket connection error] report,
    that socket is closed with what it transmitted unchanged, no interval
    is left, and no socket is live or has been made: the provider does not
    reconnect by itself. *)
Theorem failed_connection_is_reported_and_torn_down
    (storage : gmap string string) (evs : list Event)
    (ws : Handle) (w : WebSocket Envelope) :
  let st := run evs (initial storage) in
  socket_at ws st = Some w -> live w = true ->
  let st' := step (Error ws) st in
  (forall s,
     status (onerror s) = disconnected
     /\ sockets (onerror s) = sockets s
     /\ intervals (onerror s) = intervals s
     /\ pingIntervalRef (onerror s) = pingIntervalRef s)
  /\ status st' = disconnected
  /\ errorSink st'
     = (errorSink st
        ++ [{| message := "WebSocket connection error";
               details := [("message", DString "Connection error");
                           ("errorType", DString "error")] |}])%list
  /\ socket_at ws st' = Some (set_readyState CLOSED w)
  /\ (forall h, h <> ws -> socket_at h st' = socket_at h st)
  /\ length (sockets st') = length (sockets st)
  /\ intervals st' = ∅
  /\ pingIntervalRef st' = None
  /\ (forall h, ~ Wire.live_at h st')
  /\ lifecycle st' = lifecycle st
  /\ reconnectTrigger st' = reconnectTrigger st.
Proof.
  intros st Hw Hl st'.
  assert (HI : Inv st) by apply Inv_run, Inv_initial.
  assert (HI' : Inv st') by apply Inv_step, HI.
  set (st1 := update_socket ws (set_readyState CLOSED) st).
  assert (Hst' : st' = onclose (onerror st1)).
  { subst st'. cbn [step]. rewrite Hw. cbn [fmap option_fmap option_map].
    revert Hl. unfold live. now destruct (readyState w). }
  assert (Hkeep : forall s,
            status (clear_heartbeat s) = status s
            /\ errorSink (clear_heartbeat s) = errorSink s
            /\ sockets (clear_heartbeat s) = sockets s
            /\ lifecycle (clear_heartbeat s) = lifecycle s
            /\ reconnectTrigger (clear_heartbeat s) = reconnectTrigger s).
  { intros s. unfold clear_heartbeat.
    destruct (pingIntervalRef s); repeat split. }
  assert (Hq : quiet st st1).
  { apply quiet_update_socket; auto using ages_closed, quiet_refl. }
  assert (Hsock : sockets st' = sockets st1).
  { rewrite Hst'. unfold onclose.
    now rewrite (proj1 (proj2 (proj2 (Hkeep _)))). }
  assert (Hat : forall h, socket_at h st' = socket_at h st1).
  { intros h. unfold socket_at. now rewrite Hsock. }
  assert (Hws : socket_at ws st' = Some (set_readyState CLOSED w)).
  { rewrite Hat. subst st1. now rewrite socket_at_update_eq, Hw. }
  assert (Hother : forall h, h <> ws -> socket_at h st' = socket_at h st).
  { intros h Hne. rewrite Hat. subst st1.
    apply socket_at_update_ne. congruence. }
  assert (Hlife : lifecycle st' = lifecycle st).
  { rewrite Hst'. unfold onclose.
    now rewrite (proj1 (proj2 (proj2 (proj2 (Hkeep _))))). }
  split; [intros s; repeat split|].
  split; [rewrite Hst'; unfold onclose;
          now rewrite (proj1 (Hkeep _))|].
  split; [rewrite Hst'; unfold onclose;
          now rewrite (proj1 (proj2 (Hkeep _)))|].
  split; [exact Hws|].
  split; [exact Hother|].
  split.
  { rewrite Hsock. subst st1. rewrite sockets_update_socket.
    apply length_alter. }
  split.
  { rewrite Hst'. unfold onclose.
    apply (clear_heartbeat_clears st); [assumption|].
    quiet_peel; now apply quiet_onerror. }
  split.
  { rewrite Hst'. unfold onclose, clear_heartbeat.
    match goal with |- context [match ?x with _ => _ end] =>
      destruct x eqn:Hp end; [reflexivity|exact Hp]. }
  split.
  { intros h Hlive. apply live_at_iff in Hlive as (w' & Hw' & Hl').
    destruct (inv_live _ HI' h w' Hw' Hl') as (t & u & Hc).
    destruct (inv_live _ HI ws w Hw Hl) as (t0 & u0 & Hc0).
    assert (h = ws) by congruence. subst h.
    rewrite Hws in Hw'. injection Hw' as <-. discriminate Hl'. }
  split; [exact Hlife|].
  rewrite Hst'. unfold onclose.
  now rewrite (proj2 (proj2 (proj2 (proj2 (Hkeep _))))).
Qed.

End Disconnecting.

Lemma disconnect_only_starts_closing_witness :
  WebSocketApi.readyState <$>
    Provider.socket_at 0%nat (Provider.disconnect Frames.connected_state)
  = Some WebSocketApi.CLOSING.
Proof.
  apply (proj1 (disconnect_only_starts_closing Frames.connected_state)
           0%nat Frames.connected_socket).
  - vm_compute. reflexivity.
  - vm_compute. reflexivity.
  - reflexivity.
Defined.

Lemma at_most_one_heartbeat_witness :
  Provider.pingIntervalRef Frames.connected_state = Some 1%nat.
Proof.
  apply (at_most_one_heartbeat (H := Frames.runtime) ∅
           [Provider.Commit;
            Provider.Open 0%nat 900 "abc1234" 901 902 0.5]
           1%nat
           {| Provider.callback := Provider.Heartbeat 0%nat;
              Provider.delay := 500 |}).
  vm_compute. reflexivity.
Defined.

Lemma failed_connection_is_reported_and_torn_down_witness :
  Provider.intervals
    (Provider.step (H := Frames.runtime) (Provider.Error 0%nat)
       Frames.connected_state)
  = ∅.
Proof.
  apply (failed_connection_is_reported_and_torn_down (H := Frames.runtime) ∅
           [Provider.Commit;
            Provider.Open 0%nat 900 "abc1234" 901 902 0.5]
           0%nat Frames.connected_socket).
  - vm_compute. reflexivity.
  - reflexivity.
Defined.


Lemma provider_close_clears_heartbeat_witness :
  Provider.intervals
    (Provider.step (H := Frames.runtime) (Provider.Close 0%nat)
       Frames.connected_state)
  = ∅.
Proof.
  apply (proj1 (provider_close_clears_heartbeat (H := Frames.runtime) ∅
                  [Provider.Commit;
                   Provider.Open 0%nat 900 "abc1234" 901 902 0.5]
                  0%nat)
           WebSocketApi.OPEN).
  - vm_compute. reflexivity.
  - discriminate.
Defined.

(* --------------------------------------------------------------------- *)
(** ** Opening, reconnecting and the saved URLs                           *)
(* --------------------------------------------------------------------- *)

Section Reconnecting.

Import WebSocketApi Provider Connection.

Context `{Js.Runtime}.

(** What the open event leaves besides the wire and the heartbeat. *)
Lemma open_step_slots (st : State) (ws : Handle) (w : WebSocket Envelope)
    (created : Z) (rid : string) (timestamp now : Z) (r : float) :
  Inv st -> socket_at ws st = Some w -> readyState w = CONNECTING ->
  let st' := step (Open ws created rid timestamp now r) st in
  batteryLevel st' = Js.Num (dummyLevel r)
  /\ windowEvents st'
     = (windowEvents st
        ++ [("debug:battery-update",
             Js.Obj [("level", Js.Num (dummyLevel r))])])%list
  /\ debugTrack st'
     = (debugTrack st
        ++ [TrackedConnection "connect";
            TrackedSent (Wire.registration rid created)])%list
  /\ errorSink st' = errorSink st
  /\ forall h, h <> ws -> socket_at h st' = socket_at h st.
Proof.
  intros HI Hw Hc st'. subst st'.
  destruct (inv_live _ HI ws w Hw) as (t & u & Hl).
  { unfold live. now rewrite Hc. }
  cbn [step]. rewrite Hw. cbn [fmap option_fmap option_map]. rewrite Hc.
  unfold onopen.
  set (st_a := update_socket ws (set_readyState OPEN) st).
  match goal with |- context [send_tracked ws ?m ?s] =>
    set (reg := m); set (st1 := s) end.
  assert (Hw1 : socket_at ws st1 = Some (set_readyState OPEN w)).
  { change (socket_at ws st1) with (socket_at ws st_a). subst st_a.
    now rewrite socket_at_update_eq, Hw. }
  rewrite (send_tracked_open ws reg st1 _ Hw1 eq_refl).
  set (sent := {| url := _; readyState := OPEN; transmitted := _;
                  discarded := _ |}).
  set (st2 := track _ _).
  apply socket_at_Some in Hw as He. destruct He as (e & He & Hse).
  assert (Hk2 : sockets st2
            = alter (on_sock (fun _ => sent)) ws
                (alter (on_sock (set_readyState OPEN)) ws (sockets st)))
    by reflexivity.
  assert (Hs : default None (closure_socket <$> sockets st2 !! ws)
               = closure_socket e).
  { rewrite Hk2, !list_lookup_alter_eq, He. reflexivity. }
  rewrite Hs.
  assert (Hclosed : is_open (closure_socket e) st2 = false).
  { apply is_open_false_of_closed. intros h w' Hh Hw'.
    pose proof (inv_closure _ HI ws e h He Hh) as Hlt.
    assert (Hw0 : socket_at h st = Some w').
    { revert Hw'. unfold socket_at. rewrite Hk2.
      rewrite !list_lookup_alter_ne by lia. auto. }
    apply not_live_true. intros Hlive.
    destruct (inv_live _ HI h w' Hw0 Hlive) as (t' & u' & Hl').
    rewrite Hl in Hl'. injection Hl' as _ _ Heq. lia. }
  unfold requestBatteryLevel_with. rewrite Hclosed. cbn.
  repeat split.
  - now rewrite <- app_assoc.
  - intros h Hne. unfold socket_at. cbn.
    now rewrite !list_lookup_alter_ne.
Qed.

(** X14. The [requestBatteryLevel()] that [onopen] calls closes over the
    [socket] of the render that created the connection, which is never the
    socket that has just opened: in every reachable state it takes the
    offline branch.  So the open event sends no [battery_request]; it
    stores the made-up level [Math.round(65 + r * 25)], computed in
    binary64 from the draw [r] and an integer from 65 to 90 for every draw
    in [[0, 1)], and dispatches [debug:battery-update] with it. *)
Theorem open_never_requests_the_battery
    (storage : gmap string string) (evs : list Event) (ws : Handle)
    (created : Z) (rid : string) (timestamp now : Z) (r : float) :
  let st := run evs (initial storage) in
  readyState <$> socket_at ws st = Some CONNECTING ->
  let st' := step (Open ws created rid timestamp now r) st in
  batteryLevel st' = Js.Num (dummyLevel r)
  /\ windowEvents st'
     = (windowEvents st
        ++ [("debug:battery-update",
             Js.Obj [("level", Js.Num (dummyLevel r))])])%list
  /\ Wire.wire ws st' = Some [Wire.registration rid created]
  /\ (forall h, h <> ws -> Wire.wire h st' = Wire.wire h st)
  /\ debugTrack st'
     = (debugTrack st
        ++ [TrackedConnection "connect";
            TrackedSent (Wire.registration rid created)])%list
  /\ ((0 <=? r)%float = true -> (r <? 1)%float = true ->
      exists k, 65 <= k <= 90 /\ batteryLevel st' = Js.Num (Js.of_Z k)).
Proof.
  intros st Hc st'.
  assert (HI : Inv st) by apply Inv_run, Inv_initial.
  destruct (socket_at ws st) as [w|] eqn:Hw; [|discriminate].
  cbn in Hc. injection Hc as Hc.
  destruct (open_step_slots st ws w created rid timestamp now r HI Hw Hc)
    as (Hb & He & Hd & _ & Ho).
  destruct (open_step st ws w created rid timestamp now r HI Hw Hc)
    as (_ & Hw' & _).
  fold st' in Hb, He, Hd, Ho, Hw'. clearbody st'.
  split; [exact Hb|]. split; [exact He|].
  split; [unfold Wire.wire; now rewrite Hw'|].
  split; [intros h Hne; unfold Wire.wire; now rewrite Ho|].
  split; [exact Hd|].
  intros H0 H1. destruct (dummyLevel_range r H0 H1) as (k & Hk & Hr).
  exists k. split; [exact Hk|]. now rewrite Hb, Hr.
Qed.

(** X15. The close event of any socket, the current one or one that an
    earlier effect left closing, marks the provider disconnected and clears
    the interval the ref holds.  When that event is a stale one and the
    current socket is open, the open socket is left without a heartbeat:
    no run of an interval sends a [ping] on it any more. *)
Theorem stale_close_stops_the_heartbeat
    (storage : gmap string string) (evs : list Event) (h ws : Handle)
    (old current : WebSocket Envelope) (ticks : list (nat * Z * Z)) :
  let st := run evs (initial storage) in
  socket_at h st = Some old -> readyState old = CLOSING ->
  socket_at ws st = Some current -> readyState current = OPEN ->
  let st' := step (Close h) st in
  status st' = disconnected
  /\ socket_at ws st' = Some current
  /\ intervals st' = ∅
  /\ pingIntervalRef st' = None
  /\ run (map (fun t => IntervalFires t.1.1 t.1.2 t.2) ticks) st' = st'.
Proof.
  intros st Hh Hcl Hws Hop st'.
  assert (HI : Inv st) by apply Inv_run, Inv_initial.
  assert (Hne : h <> ws).
  { intros ->. rewrite Hh in Hws. injection Hws as ->. congruence. }
  subst st'. cbn [step]. rewrite Hh. cbn [fmap option_fmap option_map].
  rewrite Hcl.
  set (st1 := update_socket h (set_readyState CLOSED) st).
  assert (Hq : quiet st st1).
  { apply quiet_update_socket; auto using ages_closed, quiet_refl. }
  assert (Hi : intervals (onclose st1) = ∅).
  { unfold onclose. apply (clear_heartbeat_clears st); [assumption|].
    now quiet_peel. }
  assert (Hf : forall s, status (clear_heartbeat s) = status s
                         /\ sockets (clear_heartbeat s) = sockets s).
  { intros s. unfold clear_heartbeat.
    destruct (pingIntervalRef s); split; reflexivity. }
  split; [|split; [|split; [assumption|split]]].
  - unfold onclose. now rewrite (proj1 (Hf _)).
  - unfold socket_at, onclose. rewrite (proj2 (Hf _)).
    change (socket_at ws st1 = Some current).
    subst st1. now rewrite socket_at_update_ne.
  - unfold onclose, clear_heartbeat.
    match goal with |- context [match ?x with _ => _ end] =>
      destruct x eqn:Hp end; [reflexivity|exact Hp].
  - induction ticks as [|[[id sentAt] created] ticks IH]; [reflexivity|].
    cbn [map run foldl]. cbn [step]. rewrite Hi, lookup_empty. exact IH.
Qed.

End Reconnecting.

Lemma open_never_requests_the_battery_witness :
  Provider.batteryLevel
    (Provider.step (H := Frames.runtime)
       (Provider.Open 0%nat 900 "abc1234" 901 902 0.5)
       (Provider.run (H := Frames.runtime) [Provider.Commit]
          (Provider.initial ∅)))
  = Js.Num (Provider.dummyLevel 0.5).
Proof.
  apply (open_never_requests_the_battery (H := Frames.runtime) ∅
           [Provider.Commit] 0%nat 900 "abc1234" 901 902 0.5).
  vm_compute. reflexivity.
Defined.

Lemma stale_close_stops_the_heartbeat_witness :
  Provider.status
    (Provider.step (H := Frames.runtime) (Provider.Close 0%nat)
       (Provider.run (H := Frames.runtime)
          [Provider.Commit;
           Provider.Open 0%nat 900 "abc1234" 901 902 0.5;
           Provider.Connect; Provider.Commit;
           Provider.Open 1%nat 1900 "xyz9876" 1901 1902 0.25]
          (Provider.initial ∅)))
  = Provider.disconnected.
Proof.
  apply (stale_close_stops_the_heartbeat (H := Frames.runtime) ∅
           [Provider.Commit;
            Provider.Open 0%nat 900 "abc1234" 901 902 0.5;
            Provider.Connect; Provider.Commit;
            Provider.Open 1%nat 1900 "xyz9876" 1901 1902 0.25]
           0%nat 1%nat
           {| WebSocketApi.url := "ws://relay.local:3001/ws";
              WebSocketApi.readyState := WebSocketApi.CLOSING;
              WebSocketApi.transmitted := [Wire.registration "abc1234" 900];
              WebSocketApi.discarded := [] |}
           {| WebSocketApi.url := "ws://relay.local:3001/ws";
              WebSocketApi.readyState := WebSocketApi.OPEN;
              WebSocketApi.transmitted := [Wire.registration "xyz9876" 1900];
              WebSocketApi.discarded := [] |}
           [(2%nat, 2400, 2400)]).
  - vm_compute. reflexivity.
  - reflexivity.
  - vm_compute. reflexivity.
  - reflexivity.
Defined.

(* --------------------------------------------------------------------- *)
(** ** The endpoint and the saved override                                *)
(* --------------------------------------------------------------------- *)

Section Endpoint.

Import WebSocketApi Provider Connection.

Context `{Js.Runtime}.

Lemma clear_heartbeat_keeps (s : State) :
  customWsUrl (clear_heartbeat s) = customWsUrl s
  /\ localStorage (clear_heartbeat s) = localStorage s
  /\ sockets (clear_heartbeat s) = sockets s
  /\ customCameraUrl (clear_heartbeat s) = customCameraUrl s
  /\ reconnectTrigger (clear_heartbeat s) = reconnectTrigger s.
Proof.
  unfold clear_heartbeat. destruct (pingIntervalRef s); repeat split.
Qed.

Lemma close_if_live_keeps (h : Handle) (s : State) :
  customWsUrl (close_if_live h s) = customWsUrl s
  /\ localStorage (close_if_live h s) = localStorage s
  /\ customCameraUrl (close_if_live h s) = customCameraUrl s
  /\ reconnectTrigger (close_if_live h s) = reconnectTrigger s
  /\ length (sockets (close_if_live h s)) = length (sockets s).
Proof.
  unfold close_if_live. destruct (socket_at h s) as [w|];
    [destruct (open_or_connecting w)|]; repeat split.
  cbn. apply length_alter.
Qed.

Lemma cleanup_keeps (ws : Handle) (s : State) :
  customWsUrl (connection_cleanup ws s) = customWsUrl s
  /\ localStorage (connection_cleanup ws s) = localStorage s
  /\ customCameraUrl (connection_cleanup ws s) = customCameraUrl s
  /\ reconnectTrigger (connection_cleanup ws s) = reconnectTrigger s
  /\ length (sockets (connection_cleanup ws s)) = length (sockets s).
Proof.
  unfold connection_cleanup.
  destruct (close_if_live_keeps ws (clear_heartbeat s))
    as (-> & -> & -> & -> & ->).
  destruct (clear_heartbeat_keeps s) as (-> & -> & -> & -> & ->).
  repeat split.
Qed.

(** What the connection effect leaves when the constructor accepts the URL,
    in terms of the state it ran on. *)
Lemma connection_effect_endpoint (s : State) :
  let s' := opened s in
  url ∘ sock <$> sockets s' !! length (sockets s) = Some (wsUrl_of s)
  /\ length (sockets s') = S (length (sockets s))
  /\ status s' = connecting
  /\ customWsUrl s' = customWsUrl s
  /\ customCameraUrl s' = customCameraUrl s
  /\ localStorage s' = localStorage s
  /\ lifecycle s'
     = Committed (reconnectTrigger s) (customWsUrl s) (length (sockets s)).
Proof.
  intros s'. subst s'.
  pose proof (connection_effect_fields s) as Hf. cbv zeta in Hf.
  unfold opened, at_constructor in *.
  set (s1 := match socket s with
             | Some x => clear_heartbeat (close_if_live x s)
             | None => s
             end) in *.
  assert (Hs1 : customWsUrl s1 = customWsUrl s
                /\ localStorage s1 = localStorage s
                /\ customCameraUrl s1 = customCameraUrl s
                /\ reconnectTrigger s1 = reconnectTrigger s
                /\ length (sockets s1) = length (sockets s)).
  { subst s1. destruct (socket s) as [x|]; [|repeat split].
    destruct (clear_heartbeat_keeps (close_if_live x s))
      as (-> & -> & -> & -> & ->).
    apply close_if_live_keeps. }
  destruct Hs1 as (Hu & Hst & Hcam & Htr & Hlen).
  destruct Hf as (Hk & Hl & _).
  assert (Hw : wsUrl_of s1 = wsUrl_of s) by (unfold wsUrl_of; now rewrite Hu).
  split; [|split; [|split; [|split; [|split; [|split]]]]].
  - rewrite Hk, <- Hlen, list_lookup_middle by done.
    cbn. now rewrite Hw.
  - rewrite Hk, length_app, Hlen. cbn. lia.
  - reflexivity.
  - exact Hu.
  - exact Hcam.
  - exact Hst.
  - rewrite Hl, Htr, Hu, Hlen. reflexivity.
Qed.



Lemma store_keeps (key : string) (url : option string) (s : State) :
  customWsUrl (store key url s) = customWsUrl s
  /\ customCameraUrl (store key url s) = customCameraUrl s
  /\ status (store key url s) = status s.
Proof. unfold store. destruct url as [[|c u]|]; repeat split. Qed.

Lemma save_urls_keeps (s : State) :
  customWsUrl (save_urls s) = customWsUrl s
  /\ customCameraUrl (save_urls s) = customCameraUrl s
  /\ status (save_urls s) = status s.
Proof.
  unfold save_urls.
  destruct (store_keeps "debug_camera_url" (customCameraUrl s)
              (store "debug_ws_url" (customWsUrl s) s)) as (-> & -> & ->).
  apply store_keeps.
Qed.

(** A commit with the dependencies changed runs the cleanup and then the
    effect, which opens a socket or throws. *)
Lemma commit_changed_cases (s : State) (t : nat) (u0 : option string)
    (ws : Handle) :
  lifecycle s = Committed t u0 ws ->
  t <> reconnectTrigger s \/ u0 <> customWsUrl s ->
  commit s
  = if Js.accepts (wsUrl_of s)
    then save_urls (opened (connection_cleanup ws s))
    else crash Js.SyntaxError (at_constructor (connection_cleanup ws s)).
Proof.
  intros Hl Hd. unfold commit. rewrite Hl.
  assert (Hb : bool_decide (t = reconnectTrigger s)
               && bool_decide (u0 = customWsUrl s) = false).
  { destruct Hd as [Hd|Hd].
    - now rewrite (bool_decide_eq_false_2 _ Hd).
    - rewrite (bool_decide_eq_false_2 _ Hd). apply andb_false_r. }
  rewrite Hb, connection_effect_cases, cleanup_keeps_url.
  now destruct (Js.accepts (wsUrl_of s)).
Qed.

Lemma commit_changed (s : State) (t : nat) (u0 : option string)
    (ws : Handle) :
  lifecycle s = Committed t u0 ws ->
  t <> reconnectTrigger s \/ u0 <> customWsUrl s ->
  Js.accepts (wsUrl_of s) = true ->
  url <$> socket_at (length (sockets s)) (commit s) = Some (wsUrl_of s)
  /\ status (commit s) = connecting.
Proof.
  intros Hl Hd Hacc. rewrite (commit_changed_cases s t u0 ws Hl Hd), Hacc.
  set (s0 := connection_cleanup ws s).
  destruct (cleanup_keeps ws s) as (Hu & _ & _ & _ & Hlen). fold s0 in Hu, Hlen.
  destruct (connection_effect_endpoint s0) as (Hurl & _ & Hst & _).
  destruct (save_urls_fields (opened s0)) as (Hk & _).
  destruct (save_urls_keeps (opened s0)) as (_ & _ & Hs).
  unfold socket_at. rewrite Hk, Hs. split; [|exact Hst].
  rewrite <- Hlen, <- option_fmap_compose, Hurl.
  unfold wsUrl_of. now rewrite Hu.
Qed.




Lemma saved_Some (key u : string) (s : State) :
  localStorage s !! key = Some u -> u <> "" -> saved key s = Some u.
Proof. unfold saved. intros ->. now destruct u. Qed.

Lemma store_lookup (key : string) (url : option string) (s : State) :
  (forall u, url = Some u -> u <> "" ->
     localStorage (store key url s) !! key = Some u)
  /\ (url = None \/ url = Some "" ->
      localStorage (store key url s) = localStorage s)
  /\ (forall k, k <> key ->
        localStorage (store key url s) !! k = localStorage s !! k).
Proof.
  unfold store. destruct url as [[|c u]|];
    (split; [|split]); try done.
  - intros u' [= <-] Hn. congruence.
  - intros u' [= <-] _. cbn. apply lookup_insert_eq.
  - intros [|]; congruence.
  - intros k Hk. cbn. now apply lookup_insert_ne.
Qed.

Lemma load_saved_urls_override (s : State) :
  customWsUrl (load_saved_urls s)
  = match saved "debug_ws_url" s with
    | Some u => Some u
    | None => customWsUrl s
    end.
Proof.
  unfold load_saved_urls.
  destruct (saved "debug_ws_url" s);
    match goal with |- context [saved "debug_camera_url" ?x] =>
      destruct (saved "debug_camera_url" x) end; reflexivity.
Qed.

Lemma load_saved_urls_storage (s : State) :
  localStorage (load_saved_urls s) = localStorage s.
Proof.
  unfold load_saved_urls.
  destruct (saved "debug_ws_url" s);
    match goal with |- context [saved "debug_camera_url" ?x] =>
      destruct (saved "debug_camera_url" x) end; reflexivity.
Qed.

(** The first commit connects to the endpoint derived from the page's
    host, which the constructor accepts. *)
Lemma mount_cases (storage : gmap string string) :
  commit (initial storage)
  = save_urls (load_saved_urls (opened (initial storage))).
Proof.
  unfold commit. cbn [lifecycle initial].
  rewrite connection_effect_cases.
  change (wsUrl_of (initial storage))
    with ("ws://" ++ Js.hostname ++ ":3001/ws").
  now rewrite Js.accepts_hostname.
Qed.

(** The first commit over a storage: what is mounted. *)
Lemma mount_fields (storage : gmap string string) :
  let s := commit (initial storage) in
  customWsUrl s
  = match saved "debug_ws_url" (initial storage) with
    | Some u => Some u
    | None => None
    end
  /\ lifecycle s = Committed 0 None 0
  /\ reconnectTrigger s = 0%nat
  /\ sockets s
     = [{| sock := new_WebSocket ("ws://" ++ Js.hostname ++ ":3001/ws");
           closure_socket := None |}]
  /\ uncaught s = [].
Proof.
  intros s. subst s. rewrite mount_cases.
  set (s1 := opened (initial storage)).
  destruct (save_urls_fields (load_saved_urls s1)) as (Hk & _ & Hl).
  destruct (load_saved_urls_fields s1) as (Hk' & _ & Hl').
  destruct (save_urls_keeps (load_saved_urls s1)) as (Hu & _).
  rewrite Hu, Hk, Hl, Hk', Hl', load_saved_urls_override.
  set (s2 := load_saved_urls s1).
  assert (Ht : reconnectTrigger s2 = 0%nat /\ uncaught s2 = []).
  { subst s2. unfold load_saved_urls.
    destruct (saved "debug_ws_url" s1);
      match goal with |- context [saved "debug_camera_url" ?x] =>
        destruct (saved "debug_camera_url" x) end; split; reflexivity. }
  repeat split.
  - unfold save_urls, store.
    destruct (customWsUrl s2) as [[|? ?]|], (customCameraUrl s2) as [[|? ?]|];
      exact (proj1 Ht).
  - unfold save_urls, store.
    destruct (customWsUrl s2) as [[|? ?]|], (customCameraUrl s2) as [[|? ?]|];
      exact (proj2 Ht).
Qed.



(** X18.  Removing the override does not remove it from the storage:
    [save_urls] writes an override only while there is one, so after
    [setCustomWsUrl(null)] the stored one stays, the reconnect goes to the
    endpoint derived from the page's host, and the next mount loads the
    stored override again. *)
Theorem removed_override_comes_back (s : State) (ws : Handle) (u : string) :
  lifecycle s = Committed (reconnectTrigger s) (customWsUrl s) ws ->
  customWsUrl s = Some u -> u <> "" ->
  let s' := run [Commit; SetCustomWsUrl None; Commit] s in
  customWsUrl s' = None
  /\ url <$> socket_at (length (sockets s)) s'
     = Some ("ws://" ++ Js.hostname ++ ":3001/ws")
  /\ localStorage s' !! "debug_ws_url" = Some u
  /\ customWsUrl (commit (initial (localStorage s'))) = Some u.
Proof.
  intros Hl Hu Hne s'. subst s'. cbn [run foldl step].
  set (s1 := commit s).
  assert (H1 : s1 = save_urls s).
  { subst s1. unfold commit.
    now rewrite Hl, !bool_decide_eq_true_2 by reflexivity. }
  assert (Hst1 : localStorage s1 !! "debug_ws_url" = Some u).
  { rewrite H1. unfold save_urls.
    destruct (store_lookup "debug_camera_url" (customCameraUrl s)
                (store "debug_ws_url" (customWsUrl s) s)) as (_ & _ & ->);
      [|done].
    now apply (store_lookup "debug_ws_url" (customWsUrl s) s). }
  destruct (save_urls_fields s) as (Hk1 & _ & Hl1).
  destruct (save_urls_keeps s) as (Hu1 & _).
  rewrite <- H1 in Hk1, Hl1, Hu1.
  set (s2 := setCustomWsUrl None s1).
  assert (Hl2 : lifecycle s2 = Committed (reconnectTrigger s) (customWsUrl s) ws)
    by (subst s2; cbn; congruence).
  assert (Hd2 : reconnectTrigger s <> reconnectTrigger s2
                \/ customWsUrl s <> customWsUrl s2)
    by (right; subst s2; cbn; congruence).
  assert (Hacc : Js.accepts (wsUrl_of s2) = true)
    by apply Js.accepts_hostname.
  destruct (commit_changed s2 _ _ _ Hl2 Hd2 Hacc) as [Hurl _].
  assert (Hc3 : customWsUrl (commit s2) = None
                /\ localStorage (commit s2) !! "debug_ws_url" = Some u).
  { rewrite (commit_changed_cases s2 _ _ _ Hl2 Hd2), Hacc.
    set (s0 := connection_cleanup ws s2).
    destruct (cleanup_keeps ws s2) as (Ha & Hb & _). fold s0 in Ha, Hb.
    destruct (connection_effect_endpoint s0) as (_ & _ & _ & Hc & _ & Hd & _).
    destruct (save_urls_keeps (opened s0)) as (He & _).
    split; [rewrite He, Hc, Ha; reflexivity|].
    unfold save_urls.
    destruct (store_lookup "debug_camera_url"
                (customCameraUrl (opened s0))
                (store "debug_ws_url" (customWsUrl (opened s0))
                   (opened s0))) as (_ & _ & ->); [|done].
    destruct (store_lookup "debug_ws_url"
                (customWsUrl (opened s0)) (opened s0))
      as (_ & -> & _).
    - rewrite Hd, Hb. exact Hst1.
    - left. rewrite Hc, Ha. reflexivity. }
  destruct Hc3 as [Hc3 Hst3].
  split; [exact Hc3|].
  split.
  - subst s2. cbn [sockets setCustomWsUrl] in Hurl. rewrite Hk1 in Hurl.
    rewrite Hurl. reflexivity.
  - split; [exact Hst3|].
    destruct (mount_fields (localStorage (commit s2))) as (-> & _).
    now rewrite (saved_Some "debug_ws_url" u (initial _) Hst3 Hne).
Qed.

End Endpoint.



Lemma removed_override_comes_back_witness :
  Provider.customWsUrl
    (Provider.run (H := Frames.runtime)
       [Provider.Commit; Provider.SetCustomWsUrl None; Provider.Commit]
       (Provider.run (H := Frames.runtime)
          [Provider.Commit; Provider.SetCustomWsUrl (Some "ws://10.0.0.7:3001/ws");
           Provider.Commit]
          (Provider.initial ∅)))
  = None.
Proof.
  pose proof (removed_override_comes_back (H := Frames.runtime)
                (Provider.run (H := Frames.runtime)
                   [Provider.Commit;
                    Provider.SetCustomWsUrl (Some "ws://10.0.0.7:3001/ws");
                    Provider.Commit]
                   (Provider.initial ∅))
                1%nat "ws://10.0.0.7:3001/ws") as W.
  cbv zeta in W.
  assert (Hl : Provider.lifecycle
                 (Provider.run (H := Frames.runtime)
                    [Provider.Commit;
                     Provider.SetCustomWsUrl (Some "ws://10.0.0.7:3001/ws");
                     Provider.Commit]
                    (Provider.initial ∅))
               = Provider.Committed
                   (Provider.reconnectTrigger
                      (Provider.run (H := Frames.runtime)
                         [Provider.Commit;
                          Provider.SetCustomWsUrl
                            (Some "ws://10.0.0.7:3001/ws");
                          Provider.Commit]
                         (Provider.initial ∅)))
                   (Provider.customWsUrl
                      (Provider.run (H := Frames.runtime)
                         [Provider.Commit;
                          Provider.SetCustomWsUrl
                            (Some "ws://10.0.0.7:3001/ws");
                          Provider.Commit]
                         (Provider.initial ∅)))
                   1%nat)
    by (vm_compute; reflexivity).
  assert (Hu : Provider.customWsUrl
                 (Provider.run (H := Frames.runtime)
                    [Provider.Commit;
                     Provider.SetCustomWsUrl (Some "ws://10.0.0.7:3001/ws");
                     Provider.Commit]
                    (Provider.initial ∅))
               = Some "ws://10.0.0.7:3001/ws")
    by (vm_compute; reflexivity).
  assert (Hne : "ws://10.0.0.7:3001/ws" <> "") by discriminate.
  exact (proj1 (W Hl Hu Hne)).
Defined.

(* --------------------------------------------------------------------- *)
(** ** Registration comes first                                           *)
(* --------------------------------------------------------------------- *)

Section Registration.

Import WebSocketApi Provider Connection Protocol.

Context `{Js.Runtime}.

Lemma registered_close (w : WebSocket Envelope) :
  registered w -> registered (close w).
Proof.
  destruct w as [u r t d]. unfold registered, close, set_readyState. cbn.
  intros [[-> Hr]|Hreg]; destruct r; cbn; auto;
    left; (split; [reflexivity|discriminate]).
Qed.

Lemma registered_closed (w : WebSocket Envelope) :
  registered w -> registered (set_readyState CLOSED w).
Proof.
  destruct w as [u r t d]. unfold registered, set_readyState. cbn.
  intros [[-> Hr]|Hreg]; auto; left; (split; [reflexivity|discriminate]).
Qed.

Lemma registered_send (m : Envelope) (w w' : WebSocket Envelope) :
  send m w = inr w' -> registered w -> registered w'.
Proof.
  destruct w as [u r t d]. unfold registered, send. cbn.
  destruct r; intros [= <-]; cbn; auto.
  intros [[_ Hr]|(rid & created & rest & ->)]; [congruence|].
  right. exists rid, created, (rest ++ [m])%list. reflexivity.
Qed.

Lemma registered_same (st st' : State) :
  sockets st' = sockets st -> all_registered st -> all_registered st'.
Proof.
  intros Hk Hr h w. unfold socket_at. rewrite Hk. apply Hr.
Qed.

Lemma registered_update_socket (h : Handle)
    (f : WebSocket Envelope -> WebSocket Envelope) (st : State) :
  (forall w, socket_at h st = Some w -> registered w -> registered (f w)) ->
  all_registered st -> all_registered (update_socket h f st).
Proof.
  intros Hf Hr h' w'. destruct (decide (h = h')) as [<-|Hne].
  - rewrite socket_at_update_eq.
    destruct (socket_at h st) as [w|] eqn:Hw; [|discriminate].
    intros [= <-]. eauto.
  - rewrite socket_at_update_ne by assumption. apply Hr.
Qed.

Lemma registered_close_if_live (h : Handle) (st : State) :
  all_registered st -> all_registered (close_if_live h st).
Proof.
  intros Hr. unfold close_if_live.
  destruct (socket_at h st) as [w|]; [|assumption].
  destruct (open_or_connecting w); [|assumption].
  apply registered_update_socket; auto using registered_close.
Qed.

Lemma registered_clear_heartbeat (st : State) :
  all_registered st -> all_registered (clear_heartbeat st).
Proof.
  apply registered_same. unfold clear_heartbeat.
  now destruct (pingIntervalRef st).
Qed.

Lemma registered_send_tracked (st st' : State) (h : Handle) (m : Envelope) :
  send_tracked h m st = inr st' -> all_registered st -> all_registered st'.
Proof.
  unfold send_tracked. intros Hs Hr.
  destruct (socket_at h st) as [w|] eqn:Hw; [|discriminate].
  destruct (send m w) as [|w'] eqn:Hsend; [discriminate|].
  injection Hs as <-.
  apply (registered_same (update_socket h (fun _ => w') st)); [reflexivity|].
  apply registered_update_socket; [|assumption].
  intros w0 Hw0 Hreg. rewrite Hw in Hw0. injection Hw0 as <-.
  eauto using registered_send.
Qed.

Lemma registered_send_or_report (st : State) (s : option Handle)
    (m : Envelope) (said failure : string) (extra : list (string * Detail)) :
  all_registered st ->
  all_registered (send_or_report s m said failure extra st).
Proof.
  intros Hr. unfold send_or_report.
  destruct (is_open s st);
    [|now apply (registered_same st)].
  destruct s as [h|]; [|assumption].
  destruct (send_tracked h m st) as [|st'] eqn:Hs; [assumption|].
  apply (registered_same st'); [reflexivity|].
  eauto using registered_send_tracked.
Qed.

Lemma registered_sendGamepadState (st : State) (s : option Handle)
    (g : Js.value) (now : Z) :
  all_registered st -> all_registered (sendGamepadState_with s g now st).
Proof.
  intros Hr. unfold sendGamepadState_with.
  destruct (is_open s st); [|assumption].
  destruct s as [h|]; [|assumption].
  match goal with |- context [send_tracked h ?m st] =>
    destruct (send_tracked h m st) as [|st'] eqn:Hs end; [assumption|].
  eauto using registered_send_tracked.
Qed.

Lemma registered_requestBatteryLevel (st : State) (s : option Handle)
    (timestamp now : Z) (r : float) :
  all_registered st ->
  all_registered (requestBatteryLevel_with s timestamp now r st).
Proof.
  intros Hr. unfold requestBatteryLevel_with.
  destruct (is_open s st); [|now apply (registered_same st)].
  destruct s as [h|]; [|assumption].
  match goal with |- context [send_tracked h ?m st] =>
    destruct (send_tracked h m st) as [|st'] eqn:Hs end; [assumption|].
  eauto using registered_send_tracked.
Qed.

Lemma registered_heartbeat (st : State) (ws : Handle) (sentAt created : Z) :
  all_registered st -> all_registered (heartbeat ws sentAt created st).
Proof.
  intros Hr. unfold heartbeat.
  destruct (socket_at ws st) as [w|]; [|assumption].
  destruct (ReadyState_eqb (readyState w) OPEN); [|assumption].
  match goal with |- context [send_tracked ws ?m st] =>
    destruct (send_tracked ws m st) as [|st'] eqn:Hs end; [assumption|].
  eauto using registered_send_tracked.
Qed.

Lemma registered_cleanup (ws : Handle) (st : State) :
  all_registered st -> all_registered (connection_cleanup ws st).
Proof.
  intros Hr. unfold connection_cleanup.
  auto using registered_close_if_live, registered_clear_heartbeat.
Qed.

Lemma registered_pre_clean (st : State) :
  all_registered st ->
  all_registered
    match socket st with
    | Some s => clear_heartbeat (close_if_live s st)
    | None => st
    end.
Proof.
  intros Hr. destruct (socket st);
    auto using registered_close_if_live, registered_clear_heartbeat.
Qed.

Lemma registered_opened (st : State) :
  all_registered st -> all_registered (opened st).
Proof.
  intros Hr.
  pose proof (connection_effect_fields st) as Hf. cbv zeta in Hf.
  destruct Hf as (Hk & _).
  pose proof (registered_pre_clean st Hr) as Hr1.
  set (st1 := match socket st with
              | Some s => clear_heartbeat (close_if_live s st)
              | None => st
              end) in *.
  intros h w. unfold socket_at. rewrite Hk.
  destruct (decide (h < length (sockets st1))%nat) as [Hlt|Hge].
  - rewrite lookup_app_l by assumption. apply Hr1.
  - rewrite lookup_app_r by lia.
    destruct (h - length (sockets st1))%nat as [|k]; cbn; [|discriminate].
    intros [= <-]. left. split; [reflexivity|discriminate].
Qed.

Lemma registered_connection_effect (st : State) :
  all_registered st ->
  match connection_effect st with
  | inl (e, st') => all_registered (crash e st')
  | inr st' => all_registered st'
  end.
Proof.
  intros Hr. rewrite connection_effect_cases.
  destruct (Js.accepts (wsUrl_of st)); [now apply registered_opened|].
  apply (registered_same
           match socket st with
           | Some s => clear_heartbeat (close_if_live s st)
           | None => st
           end); [reflexivity|].
  now apply registered_pre_clean.
Qed.

Lemma registered_commit (st : State) :
  all_registered st -> all_registered (commit st).
Proof.
  intros Hr. unfold commit.
  destruct (lifecycle st) as [|t u ws|]; [| |assumption].
  - pose proof (registered_connection_effect st Hr) as Hc.
    destruct (connection_effect st) as [[e st']|st']; [exact Hc|].
    apply (registered_same (load_saved_urls st'));
      [apply save_urls_fields|].
    now apply (registered_same st'); [apply load_saved_urls_fields|].
  - destruct (bool_decide (t = reconnectTrigger st)
              && bool_decide (u = customWsUrl st)).
    + now apply (registered_same st); [apply save_urls_fields|].
    + pose proof (registered_connection_effect (connection_cleanup ws st)
                    (registered_cleanup ws st Hr)) as Hc.
      destruct (connection_effect (connection_cleanup ws st))
        as [[e st']|st']; [exact Hc|].
      now apply (registered_same st'); [apply save_urls_fields|].
Qed.

Lemma registered_step (ev : Event) (st : State) :
  Inv st -> all_registered st -> all_registered (step ev st).
Proof.
  intros HI Hr. destruct ev; cbn [step].
  - now apply registered_commit.
  - unfold unmount. destruct (lifecycle st) as [|t u ws|];
      try (now apply (registered_same st)).
    apply (registered_same (connection_cleanup ws st)); [reflexivity|].
    now apply registered_cleanup.
  - now apply (registered_same st).
  - unfold disconnect. destruct (socketRef st);
      auto using registered_close_if_live.
  - now apply (registered_same st).
  - now apply (registered_same st).
  - destruct (socket_at ws st) as [w|] eqn:Hw; [|assumption].
    cbn [fmap option_fmap option_map].
    destruct (readyState w) eqn:Hc; try assumption.
    pose proof (open_step st ws w created rid timestamp now r HI Hw Hc)
      as Ho. cbv zeta in Ho. destruct Ho as (_ & Hws & _).
    pose proof (open_step_slots st ws w created rid timestamp now r HI Hw Hc)
      as Hs. cbv zeta in Hs. destruct Hs as (_ & _ & _ & _ & Hother).
    cbn [step] in Hws, Hother. rewrite Hw in Hws, Hother.
    cbn [fmap option_fmap option_map] in Hws, Hother.
    rewrite Hc in Hws, Hother.
    intros h w'. destruct (decide (h = ws)) as [->|Hne].
    + rewrite Hws. intros [= <-]. right. cbn. eauto.
    + rewrite Hother by assumption. apply Hr.
  - destruct (socket_at ws st) as [w|] eqn:Hw; [|assumption].
    cbn [fmap option_fmap option_map].
    assert (Hclose : all_registered
                       (onclose (update_socket ws (set_readyState CLOSED) st))).
    { unfold onclose. apply registered_clear_heartbeat.
      apply (registered_same (update_socket ws (set_readyState CLOSED) st));
        [reflexivity|].
      apply registered_update_socket; auto using registered_closed. }
    destruct (readyState w); assumption.
  - destruct (socket_at ws st) as [w|] eqn:Hw; [|assumption].
    cbn [fmap option_fmap option_map].
    assert (Hclose : all_registered
                       (onclose
                          (onerror
                             (update_socket ws (set_readyState CLOSED) st)))).
    { unfold onclose. apply registered_clear_heartbeat.
      apply (registered_same (update_socket ws (set_readyState CLOSED) st));
        [reflexivity|].
      apply registered_update_socket; auto using registered_closed. }
    destruct (readyState w); assumption.
  - destruct (readyState <$> socket_at ws st) as [[]|]; try assumption.
    apply (registered_same st); [|assumption].
    apply onmessage_keeps_connection.
  - destruct (intervals st !! id) as [[[ws] d]|];
      auto using registered_heartbeat.
  - now apply registered_sendGamepadState.
  - now apply registered_send_or_report.
  - now apply registered_requestBatteryLevel.
  - now apply registered_send_or_report.
  - now apply registered_send_or_report.
  - now apply registered_send_or_report.
  - now apply registered_send_or_report.
  - now apply registered_send_or_report.
  - now apply registered_send_or_report.
  - now apply registered_send_or_report.
Qed.

Lemma registered_run (evs : list Event) (st : State) :
  Inv st -> all_registered st -> all_registered (run evs st).
Proof.
  revert st. induction evs as [|ev evs' IH]; intros st HI Hr; cbn;
    [assumption|].
  apply IH; auto using Inv_step, registered_step.
Qed.

(** X19.  Whatever happens to a provider, the first frame on the wire of
    each of its sockets is a controller's [client_register]: a socket that
    is open has sent it, and a socket that has sent anything sent it
    first. *)
Theorem registration_is_the_first_frame (storage : gmap string string)
    (evs : list Event) (h : Handle) (w : WebSocket Envelope) :
  socket_at h (run evs (initial storage)) = Some w ->
  (readyState w = OPEN \/ transmitted w <> []) ->
  exists rid created rest,
    transmitted w = Wire.registration rid created :: rest.
Proof.
  intros Hw Hsome.
  assert (H0 : all_registered (initial storage)).
  { intros h' w'. unfold socket_at. cbn. discriminate. }
  destruct (registered_run evs (initial storage) (Inv_initial storage) H0 h w Hw)
    as [[Hnil Hno]|Hreg]; [|assumption].
  destruct Hsome; congruence.
Qed.

End Registration.

Lemma registration_is_the_first_frame_witness :
  exists rid created rest,
    WebSocketApi.transmitted
      {| WebSocketApi.url := "ws://relay.local:3001/ws";
         WebSocketApi.readyState := WebSocketApi.OPEN;
         WebSocketApi.transmitted :=
           [Wire.registration "abc1234" 900;
            {| Provider.name := "gamepad_input";
               Provider.data := Js.Obj [("speed", Js.Num 1)];
               Provider.createdAt := 950 |};
            Wire.ping_of 1400 1400];
         WebSocketApi.discarded := [] |}
    = Wire.registration rid created :: rest.
Proof.
  apply (registration_is_the_first_frame (H := Frames.runtime) ∅
           [Provider.Commit;
            Provider.Open 0%nat 900 "abc1234" 901 902 0.5;
            Provider.SendGamepadState (Js.Obj [("speed", Js.Num 1)]) 950;
            Provider.IntervalFires 1%nat 1400 1400]
           0%nat
           {| WebSocketApi.url := "ws://relay.local:3001/ws";
              WebSocketApi.readyState := WebSocketApi.OPEN;
              WebSocketApi.transmitted :=
                [Wire.registration "abc1234" 900;
                 {| Provider.name := "gamepad_input";
                    Provider.data := Js.Obj [("speed", Js.Num 1)];
                    Provider.createdAt := 950 |};
                 Wire.ping_of 1400 1400];
              WebSocketApi.discarded := [] |}).
  - vm_compute. reflexivity.
  - left. reflexivity.
Defined.

(* --------------------------------------------------------------------- *)
(** ** Every send is behind a test of the socket                          *)
(* --------------------------------------------------------------------- *)

Section SendGuards.

Import WebSocketApi Provider Connection Protocol.

Context `{Js.Runtime}.

Lemma undiscarded_same (st st' : State) :
  sockets st' = sockets st -> nothing_discarded st -> nothing_discarded st'.
Proof.
  intros Hk Hr h w. unfold socket_at. rewrite Hk. apply Hr.
Qed.

Lemma undiscarded_update_socket (h : Handle)
    (f : WebSocket Envelope -> WebSocket Envelope) (st : State) :
  (forall w, socket_at h st = Some w -> discarded w = [] ->
             discarded (f w) = []) ->
  nothing_discarded st -> nothing_discarded (update_socket h f st).
Proof.
  intros Hf Hr h' w'. destruct (decide (h = h')) as [<-|Hne].
  - rewrite socket_at_update_eq.
    destruct (socket_at h st) as [w|] eqn:Hw; [|discriminate].
    intros [= <-]. eauto.
  - rewrite socket_at_update_ne by assumption. apply Hr.
Qed.

Lemma undiscarded_close_if_live (h : Handle) (st : State) :
  nothing_discarded st -> nothing_discarded (close_if_live h st).
Proof.
  intros Hr. unfold close_if_live.
  destruct (socket_at h st) as [w|]; [|assumption].
  destruct (open_or_connecting w); [|assumption].
  apply undiscarded_update_socket; [|assumption].
  intros [u r t d] _. unfold close. now destruct r.
Qed.

Lemma undiscarded_clear_heartbeat (st : State) :
  nothing_discarded st -> nothing_discarded (clear_heartbeat st).
Proof.
  apply undiscarded_same. unfold clear_heartbeat.
  now destruct (pingIntervalRef st).
Qed.

(** The one place a frame could be discarded: [send], which the provider
    reaches only with the socket tested open. *)
Lemma undiscarded_send_tracked (st st' : State) (h : Handle) (m : Envelope) :
  is_open (Some h) st = true ->
  send_tracked h m st = inr st' ->
  nothing_discarded st -> nothing_discarded st'.
Proof.
  unfold is_open, send_tracked. intros Ho Hs Hr.
  destruct (socket_at h st) as [w|] eqn:Hw; [|discriminate].
  assert (Hopen : readyState w = OPEN) by (now destruct (readyState w)).
  unfold send in Hs. rewrite Hopen in Hs. injection Hs as <-.
  match goal with |- nothing_discarded (track _ ?s) =>
    apply (undiscarded_same s); [reflexivity|] end.
  apply undiscarded_update_socket; [|assumption].
  intros w0 Hw0 _. cbn. exact (Hr h w Hw).
Qed.

Lemma undiscarded_send_or_report (st : State) (s : option Handle)
    (m : Envelope) (said failure : string) (extra : list (string * Detail)) :
  nothing_discarded st ->
  nothing_discarded (send_or_report s m said failure extra st).
Proof.
  intros Hr. unfold send_or_report.
  destruct (is_open s st) eqn:Ho;
    [|now apply (undiscarded_same st)].
  destruct s as [h|]; [|assumption].
  destruct (send_tracked h m st) as [|st'] eqn:Hs; [assumption|].
  apply (undiscarded_same st'); [reflexivity|].
  eauto using undiscarded_send_tracked.
Qed.

Lemma undiscarded_sendGamepadState (st : State) (s : option Handle)
    (g : Js.value) (now : Z) :
  nothing_discarded st -> nothing_discarded (sendGamepadState_with s g now st).
Proof.
  intros Hr. unfold sendGamepadState_with.
  destruct (is_open s st) eqn:Ho; [|assumption].
  destruct s as [h|]; [|assumption].
  match goal with |- context [send_tracked h ?m st] =>
    destruct (send_tracked h m st) as [|st'] eqn:Hs end; [assumption|].
  eauto using undiscarded_send_tracked.
Qed.

Lemma undiscarded_requestBatteryLevel (st : State) (s : option Handle)
    (timestamp now : Z) (r : float) :
  nothing_discarded st ->
  nothing_discarded (requestBatteryLevel_with s timestamp now r st).
Proof.
  intros Hr. unfold requestBatteryLevel_with.
  destruct (is_open s st) eqn:Ho; [|now apply (undiscarded_same st)].
  destruct s as [h|]; [|assumption].
  match goal with |- context [send_tracked h ?m st] =>
    destruct (send_tracked h m st) as [|st'] eqn:Hs end; [assumption|].
  eauto using undiscarded_send_tracked.
Qed.

Lemma undiscarded_heartbeat (st : State) (ws : Handle) (sentAt created : Z) :
  nothing_discarded st -> nothing_discarded (heartbeat ws sentAt created st).
Proof.
  intros Hr. unfold heartbeat.
  destruct (socket_at ws st) as [w|] eqn:Hw; [|assumption].
  destruct (ReadyState_eqb (readyState w) OPEN) eqn:Ho; [|assumption].
  match goal with |- context [send_tracked ws ?m st] =>
    destruct (send_tracked ws m st) as [|st'] eqn:Hs end; [assumption|].
  eapply (undiscarded_send_tracked st st' ws); [|exact Hs|assumption].
  unfold is_open. now rewrite Hw.
Qed.

Lemma undiscarded_cleanup (ws : Handle) (st : State) :
  nothing_discarded st -> nothing_discarded (connection_cleanup ws st).
Proof.
  intros Hr. unfold connection_cleanup.
  auto using undiscarded_close_if_live, undiscarded_clear_heartbeat.
Qed.

Lemma undiscarded_pre_clean (st : State) :
  nothing_discarded st ->
  nothing_discarded
    match socket st with
    | Some s => clear_heartbeat (close_if_live s st)
    | None => st
    end.
Proof.
  intros Hr. destruct (socket st);
    auto using undiscarded_close_if_live, undiscarded_clear_heartbeat.
Qed.

Lemma undiscarded_connection_effect (st : State) :
  nothing_discarded st ->
  match connection_effect st with
  | inl (e, st') => nothing_discarded (crash e st')
  | inr st' => nothing_discarded st'
  end.
Proof.
  intros Hr. rewrite connection_effect_cases.
  pose proof (undiscarded_pre_clean st Hr) as Hr1.
  destruct (Js.accepts (wsUrl_of st)).
  - pose proof (connection_effect_fields st) as Hf. cbv zeta in Hf.
    destruct Hf as (Hk & _).
    set (st1 := match socket st with
                | Some s => clear_heartbeat (close_if_live s st)
                | None => st
                end) in *.
    intros h w. unfold socket_at. rewrite Hk.
    destruct (decide (h < length (sockets st1))%nat) as [Hlt|Hge].
    + rewrite lookup_app_l by assumption. apply Hr1.
    + rewrite lookup_app_r by lia.
      destruct (h - length (sockets st1))%nat as [|k]; cbn; [|discriminate].
      now intros [= <-].
  - revert Hr1. now apply undiscarded_same.
Qed.

Lemma undiscarded_commit (st : State) :
  nothing_discarded st -> nothing_discarded (commit st).
Proof.
  intros Hr. unfold commit.
  destruct (lifecycle st) as [|t u ws|]; [| |assumption].
  - pose proof (undiscarded_connection_effect st Hr) as Hc.
    destruct (connection_effect st) as [[e st']|st']; [exact Hc|].
    apply (undiscarded_same (load_saved_urls st'));
      [apply save_urls_fields|].
    now apply (undiscarded_same st'); [apply load_saved_urls_fields|].
  - destruct (bool_decide (t = reconnectTrigger st)
              && bool_decide (u = customWsUrl st)).
    + now apply (undiscarded_same st); [apply save_urls_fields|].
    + pose proof (undiscarded_connection_effect (connection_cleanup ws st)
                    (undiscarded_cleanup ws st Hr)) as Hc.
      destruct (connection_effect (connection_cleanup ws st))
        as [[e st']|st']; [exact Hc|].
      now apply (undiscarded_same st'); [apply save_urls_fields|].
Qed.

Lemma undiscarded_closed_event (ws : Handle) (st st' : State) :
  sockets st' = sockets (update_socket ws (set_readyState CLOSED) st) ->
  nothing_discarded st -> nothing_discarded st'.
Proof.
  intros Hk Hr.
  apply (undiscarded_same (update_socket ws (set_readyState CLOSED) st));
    [exact Hk|].
  apply undiscarded_update_socket; [|assumption].
  now intros [u r t d].
Qed.

Lemma undiscarded_step (ev : Event) (st : State) :
  Inv st -> nothing_discarded st -> nothing_discarded (step ev st).
Proof.
  intros HI Hr. destruct ev; cbn [step].
  - now apply undiscarded_commit.
  - unfold unmount. destruct (lifecycle st) as [|t u ws|];
      try (now apply (undiscarded_same st)).
    apply (undiscarded_same (connection_cleanup ws st)); [reflexivity|].
    now apply undiscarded_cleanup.
  - now apply (undiscarded_same st).
  - unfold disconnect. destruct (socketRef st);
      auto using undiscarded_close_if_live.
  - now apply (undiscarded_same st).
  - now apply (undiscarded_same st).
  - destruct (socket_at ws st) as [w|] eqn:Hw; [|assumption].
    cbn [fmap option_fmap option_map].
    destruct (readyState w) eqn:Hc; try assumption.
    pose proof (open_step st ws w created rid timestamp now r HI Hw Hc)
      as Ho. cbv zeta in Ho. destruct Ho as (_ & Hws & _).
    pose proof (open_step_slots st ws w created rid timestamp now r HI Hw Hc)
      as Hs. cbv zeta in Hs. destruct Hs as (_ & _ & _ & _ & Hother).
    cbn [step] in Hws, Hother. rewrite Hw in Hws, Hother.
    cbn [fmap option_fmap option_map] in Hws, Hother.
    rewrite Hc in Hws, Hother.
    intros h w'. destruct (decide (h = ws)) as [->|Hne].
    + rewrite Hws. intros [= <-]. cbn. exact (Hr ws w Hw).
    + rewrite Hother by assumption. apply Hr.
  - destruct (socket_at ws st) as [w|] eqn:Hw; [|assumption].
    cbn [fmap option_fmap option_map].
    assert (Hclose : nothing_discarded
                       (onclose (update_socket ws (set_readyState CLOSED) st))).
    { apply (undiscarded_closed_event ws st); [|assumption].
      unfold onclose, clear_heartbeat.
      match goal with |- context [match ?x with _ => _ end] =>
        destruct x end; reflexivity. }
    destruct (readyState w); assumption.
  - destruct (socket_at ws st) as [w|] eqn:Hw; [|assumption].
    cbn [fmap option_fmap option_map].
    assert (Hclose : nothing_discarded
                       (onclose
                          (onerror
                             (update_socket ws (set_readyState CLOSED) st)))).
    { apply (undiscarded_closed_event ws st); [|assumption].
      unfold onclose, clear_heartbeat.
      match goal with |- context [match ?x with _ => _ end] =>
        destruct x end; reflexivity. }
    destruct (readyState w); assumption.
  - destruct (readyState <$> socket_at ws st) as [[]|]; try assumption.
    apply (undiscarded_same st); [|assumption].
    apply onmessage_keeps_connection.
  - destruct (intervals st !! id) as [[[ws] d]|];
      auto using undiscarded_heartbeat.
  - now apply undiscarded_sendGamepadState.
  - now apply undiscarded_send_or_report.
  - now apply undiscarded_requestBatteryLevel.
  - now apply undiscarded_send_or_report.
  - now apply undiscarded_send_or_report.
  - now apply undiscarded_send_or_report.
  - now apply undiscarded_send_or_report.
  - now apply undiscarded_send_or_report.
  - now apply undiscarded_send_or_report.
  - now apply undiscarded_send_or_report.
Qed.

(** The test matters: a frame sent on a socket that is closing or closed
    is discarded. *)
Example send_after_close_discards (m : Envelope) (w : WebSocket Envelope) :
  live w = false ->
  exists w', send m w = inr w' /\ discarded w' = (discarded w ++ [m])%list.
Proof.
  unfold live, send. destruct (readyState w); try discriminate;
    intros _; eexists; split; reflexivity.
Qed.

Lemma undiscarded_run (evs : list Event) (st : State) :
  Inv st -> nothing_discarded st -> nothing_discarded (run evs st).
Proof.
  revert st. induction evs as [|ev evs' IH]; intros st HI Hr; cbn;
    [assumption|].
  apply IH; auto using Inv_step, undiscarded_step.
Qed.

(** X12.  The provider hands a frame to [send] only on a socket it has just
    tested to be open: the heartbeat's callback and each of the ten
    commands are behind a [readyState === WebSocket.OPEN] test of the very
    socket they send on, and the registration follows the [open] event.
    A browser silently discards a frame sent on a closing or closed
    socket; in every state the provider reaches, whatever was closed and
    however often the interval fired or a command was called since, no
    socket has discarded a frame. *)
Theorem provider_sends_only_on_open_sockets (storage : gmap string string)
    (evs : list Event) (h : Handle) (w : WebSocket Envelope) :
  socket_at h (run evs (initial storage)) = Some w ->
  discarded w = [].
Proof.
  apply undiscarded_run; [apply Inv_initial|].
  intros h' w'. unfold socket_at. cbn. discriminate.
Qed.

End SendGuards.

Lemma provider_sends_only_on_open_sockets_witness :
  WebSocketApi.discarded
    {| WebSocketApi.url := "ws://relay.local:3001/ws";
       WebSocketApi.readyState := WebSocketApi.CLOSING;
       WebSocketApi.transmitted := [Wire.registration "abc1234" 900];
       WebSocketApi.discarded := [] |}
  = [].
Proof.
  apply (provider_sends_only_on_open_sockets (H := Frames.runtime) ∅
           [Provider.Commit;
            Provider.Open 0%nat 900 "abc1234" 901 902 0.5;
            Provider.Disconnect;
            Provider.IntervalFires 1%nat 1400 1400;
            Provider.SendRobotCommand "stop_robot" 1500 1500;
            Provider.IntervalFires 1%nat 1900 1900]
           0%nat).
  vm_compute. reflexivity.
Defined.

(* --------------------------------------------------------------------- *)
(** ** The two normalisers of the widget                                  *)
(* --------------------------------------------------------------------- *)

(** X20.  [computeSpeed] does not call [getActionValue], but its two
    operands are what [getActionValue] returns for accelerate and brake,
    read as numbers ([false] as 0, [true] as 1): whatever the bindings and
    the device say, the speed is the difference of those two. *)
Theorem computeSpeed_agrees_with_getActionValue
    (mappings : gmap string Gamepad.Mapping)
    (isActionActive : string -> bool)
    (getAxisValueForAction : string -> option float) :
  let value key :=
    Protocol.to_number
      (Gamepad.getActionValue mappings isActionActive getAxisValueForAction
         key) in
  Gamepad.accelerateValue mappings isActionActive getAxisValueForAction
  = value "accelerate"
  /\ Gamepad.brakeValue mappings isActionActive getAxisValueForAction
     = value "brake"
  /\ Gamepad.computeSpeed mappings isActionActive getAxisValueForAction
     = (value "accelerate" - value "brake")%float.
Proof.
  intros value. subst value.
  assert (Ha : Gamepad.accelerateValue mappings isActionActive
                 getAxisValueForAction
               = Protocol.to_number
                   (Gamepad.getActionValue mappings isActionActive
                      getAxisValueForAction "accelerate")).
  { unfold Gamepad.accelerateValue, Gamepad.getActionValue.
    destruct (mappings !! "accelerate") as [[ty ix]|]; [|reflexivity].
    cbn [Gamepad.index Gamepad.type].
    destruct (ix =? Gamepad.NOT_SET)%Z; [reflexivity|].
    destruct (String.eqb ty "button");
      [now destruct (isActionActive "accelerate")|].
    now destruct (String.eqb ty "axis"). }
  assert (Hb : Gamepad.brakeValue mappings isActionActive
                 getAxisValueForAction
               = Protocol.to_number
                   (Gamepad.getActionValue mappings isActionActive
                      getAxisValueForAction "brake")).
  { unfold Gamepad.brakeValue, Gamepad.getActionValue.
    destruct (mappings !! "brake") as [[ty ix]|]; [|reflexivity].
    cbn [Gamepad.index Gamepad.type].
    destruct (ix =? Gamepad.NOT_SET)%Z; [reflexivity|].
    destruct (String.eqb ty "button");
      [now destruct (isActionActive "brake")|].
    now destruct (String.eqb ty "axis"). }
  split; [exact Ha|]. split; [exact Hb|].
  unfold Gamepad.computeSpeed. now rewrite Ha, Hb.
Qed.

(* --------------------------------------------------------------------- *)
(** ** The widget's timers and its message handler                        *)
(* --------------------------------------------------------------------- *)

Section WidgetFacts.

Import WebSocketApi StatusWidget.

Context `{Js.Runtime}.

(** X21.  The widget starts its heartbeat at mount, not at [open], and the
    callback does not look at [readyState]: each run while the socket is
    still connecting makes [send] throw [InvalidStateError] out of the
    timer callback, and puts nothing on the wire. *)
Theorem widget_ping_before_open_throws (st : State) (w : WebSocket Frame)
    (ticks : list (Z * Z)) :
  ws st = Some w -> readyState w = CONNECTING -> pingLoop st = true ->
  let st' := run (map (fun t => PingLoopFires t.1 t.2) ticks) st in
  uncaught st'
  = (uncaught st ++ replicate (length ticks) Js.InvalidStateError)%list
  /\ ws st' = Some w
  /\ status st' = status st
  /\ pingLoop st' = true.
Proof.
  unfold run.
  revert st. induction ticks as [|[a b] ticks IH]; intros st Hw Hc Hp;
    cbn [map foldl length replicate fst snd].
  - rewrite app_nil_r. repeat split; assumption.
  - assert (Hs : step (PingLoopFires a b) st
                 = throw_uncaught Js.InvalidStateError st).
    { cbn. rewrite Hp. unfold pingLoop_tick, ws_send. rewrite Hw.
      unfold send. now rewrite Hc. }
    rewrite Hs.
    destruct (IH (throw_uncaught Js.InvalidStateError st) Hw Hc Hp)
      as (Hu & Hws & Hst & Hpl).
    rewrite Hu, Hws, Hst, Hpl. cbn [uncaught throw_uncaught status].
    rewrite <- app_assoc. repeat split.
Qed.

(** X22.  Nothing a frame holds gets out of the widget's [onmessage]: it
    throws nothing, leaves the socket, the status and both timers alone,
    and either changes nothing, or sets [pingTime], or writes the one
    parse-error line to the console. *)
Theorem widget_message_is_contained (frame : string) (now : Z) (st : State) :
  let st' := onmessage frame now st in
  uncaught st' = uncaught st
  /\ ws st' = ws st
  /\ status st' = status st
  /\ pingLoop st' = pingLoop st
  /\ interval st' = interval st
  /\ (st' = st
      \/ (exists latency, st' = setPingTime latency st)
      \/ st' = console_write "Error parsing websocket message:" st).
Proof.
  intros st'. subst st'. unfold onmessage.
  destruct (Js.JSON_parse frame) as [event|];
    [|repeat split; auto].
  destruct (handle_event now event st) as [e|st1] eqn:Hh;
    [repeat split; auto|].
  unfold handle_event, Js.bind in Hh.
  repeat match type of Hh with
    | context [match ?x with _ => _ end] => destruct x; try discriminate
    end;
    injection Hh as <-; repeat split; eauto.
Qed.

(** X23.  Unmounting the widget stops it: the socket is neither connecting
    nor open afterwards, both timers are cleared, and no later run of a
    timer changes anything. *)
Theorem widget_unmount_stops_both_timers (st : State)
    (ticks : list (Z * Z + Z)) :
  let fire t :=
    match t with
    | inl (sentAt, createdAt) => PingLoopFires sentAt createdAt
    | inr now => IntervalFires now
    end in
  let st' := step Unmount st in
  pingLoop st' = false
  /\ interval st' = false
  /\ live <$> ws st' <> Some true
  /\ run (map fire ticks) st' = st'.
Proof.
  intros fire st'. subst st'.
  split; [reflexivity|]. split; [reflexivity|]. split.
  - cbn. destruct (ws st) as [[u [] t d]|]; cbn; discriminate.
  - unfold run.
    induction ticks as [|[[a b]|n] ticks IH]; cbn [map foldl];
      [reflexivity|exact IH|exact IH].
Qed.

End WidgetFacts.

Lemma widget_ping_before_open_throws_witness :
  StatusWidget.uncaught
    (StatusWidget.run (H := Frames.runtime)
       (map (fun t => StatusWidget.PingLoopFires t.1 t.2)
          [(500, 500); (1000, 1000)])
       (StatusWidget.step (H := Frames.runtime) StatusWidget.Mount
          (StatusWidget.initial Sample.scenario_gamepad)))
  = (StatusWidget.uncaught
       (StatusWidget.step (H := Frames.runtime) StatusWidget.Mount
          (StatusWidget.initial Sample.scenario_gamepad))
     ++ replicate (length [(500, 500); (1000, 1000)]) Js.InvalidStateError)%list.
Proof.
  apply (widget_ping_before_open_throws (H := Frames.runtime)
           (StatusWidget.step (H := Frames.runtime) StatusWidget.Mount
              (StatusWidget.initial Sample.scenario_gamepad))
           (WebSocketApi.new_WebSocket "ws://localhost:3000/ws")
           [(500, 500); (1000, 1000)]);
    reflexivity.
Defined.
